(** * cij-subs: a shallow embedding of [main.py] and its specification

    The program downloads transcripts of numbered videos and writes, for
    each video, a WebVTT subtitle file and a plain-text file.  This file
    embeds the functions of [main.py] and proves the properties of the
    specification about them.

    Modelling conventions.
    - Python [str] is [string]; a character is a code point below 256.
    - Python [int] is [Z]; a [set] of ints is a [gset Z].  [int(s)]
      refuses a string of more than 4300 digits, the default limit of the
      interpreter.
    - Python [float] is a double.  A number is carried as its exact
      value, a rational ([Q]); where the program computes on floats the
      result of each operation is rounded to the nearest double ([fl]),
      as IEEE 754 prescribes.  Infinities and NaN are outside the model.
      The lengths of the pauses of the back-off are idealised as exact
      sums.
    - A decoded JSON value is a [json] tree; every dynamic lookup on it can
      raise, as in Python.
    - Exceptions are values of [exn]; effectful code lives in the monad [M],
      which threads the cursors of the network and random oracles and
      collects the observable events (requests, sleeps, console lines,
      files written) in order.
    - The disk is an oracle as well: [process_video_on] and
      [process_videos_on] take the outcome of each operation on the file
      system from it; [process_video] and [main] run on a disk whose
      operations succeed.  Failures of the listing of the output
      directory are not modelled. *)

From Stdlib Require Import ZArith QArith Qround Qabs Lia Lqa List Ascii String.
From Stdlib Require Import DecimalString DecimalPos DecimalN.
From Stdlib Require Import Floats.SpecFloat.
From stdpp Require Import base list strings gmap sets.

Set Warnings "-register-all,-clear-no-such-hyp".

Local Open Scope Z_scope.

(** ** Text *)

Module Text.

Definition nl : string := String (ascii_of_nat 10) EmptyString.

Definition is_digit (c : ascii) : bool :=
  let n := nat_of_ascii c in (Nat.leb 48 n && Nat.leb n 57)%bool.

Definition digit_val (c : ascii) : N := N.of_nat (nat_of_ascii c - 48).

(** [str.isspace] on the code points below 256. *)
Definition is_space (c : ascii) : bool :=
  let n := nat_of_ascii c in
  ((Nat.leb 9 n && Nat.leb n 13) || (Nat.leb 28 n && Nat.leb n 32)
   || Nat.eqb n 133 || Nat.eqb n 160)%bool.

Fixpoint zeros (n : nat) : string :=
  match n with
  | O => EmptyString
  | S k => String "0" (zeros k)
  end.

(** Decimal digits of a natural number, without sign or padding. *)
Definition str_N (n : N) : string := NilZero.string_of_uint (N.to_uint n).

(** [f"{n}"] for an int. *)
Definition str_Z (n : Z) : string :=
  if n <? 0 then String "-" (str_N (Z.abs_N n)) else str_N (Z.abs_N n).

(** [f"{n:0wd}"] (and [f"{n:0w}"]) for an int: zero padding is inserted
    after the sign, up to a total width of [w]. *)
Definition format_0wd (w : nat) (n : Z) : string :=
  let digits := str_N (Z.abs_N n) in
  let sign := if n <? 0 then "-" else "" in
  sign +:+ zeros (w - String.length sign - String.length digits) +:+ digits.

(** [sub in s] for strings. *)
Fixpoint contains_char (c : ascii) (s : string) : bool :=
  match s with
  | EmptyString => false
  | String a r => if Ascii.eqb a c then true else contains_char c r
  end.

(** [s.split(sep)] for a one-character separator: the pieces between the
    occurrences of [sep]; always at least one piece. *)
Fixpoint split_on (sep : ascii) (s : string) : list string :=
  match s with
  | EmptyString => [EmptyString]
  | String a r =>
      if Ascii.eqb a sep then EmptyString :: split_on sep r
      else match split_on sep r with
           | p :: ps => String a p :: ps
           | [] => [String a EmptyString]
           end
  end.

(** [s.split()]: the maximal runs of non-whitespace characters. *)
Fixpoint split_ws_aux (cur : string) (s : string) : list string :=
  match s with
  | EmptyString => if String.eqb cur "" then [] else [cur]
  | String a r =>
      if is_space a
      then (if String.eqb cur "" then split_ws_aux "" r
            else cur :: split_ws_aux "" r)
      else split_ws_aux (cur +:+ String a EmptyString) r
  end.

Definition split_ws (s : string) : list string := split_ws_aux "" s.

(** [s.endswith(suffix)]. *)
Definition endswith (s suffix : string) : bool :=
  let n := String.length s in
  let k := String.length suffix in
  (Nat.leb k n && String.eqb (String.substring (n - k) k s) suffix)%bool.

Fixpoint lstrip (s : string) : string :=
  match s with
  | EmptyString => EmptyString
  | String a r => if is_space a then lstrip r else s
  end.

Fixpoint rstrip (s : string) : string :=
  match s with
  | EmptyString => EmptyString
  | String a r =>
      match rstrip r with
      | EmptyString => if is_space a then EmptyString else String a EmptyString
      | r' => String a r'
      end
  end.

(** The digit part of an integer literal accepted by [int(s)]: decimal
    digits, single underscores allowed between digits.  [after_digit] tells
    whether the previous character was a digit. *)
Fixpoint int_digits (acc : N) (after_digit : bool) (s : string) : option N :=
  match s with
  | EmptyString => if after_digit then Some acc else None
  | String c r =>
      if is_digit c then int_digits (10 * acc + digit_val c)%N true r
      else if Ascii.eqb c "_"
           then (if after_digit then int_digits acc false r else None)
           else None
  end.

(** The number that [int(s)] reads in a string, base 10 ([None] when the
    string is not an integer literal): surrounding whitespace is stripped
    and one sign is accepted.  This is [int(s)] itself for a string of at
    most [int_max_str_digits] digits, such as the name of a directory
    entry, which file systems keep below 256 characters. *)
Definition py_int (s : string) : option Z :=
  match rstrip (lstrip s) with
  | String "-" r => option_map (fun n => - Z.of_N n) (int_digits 0 false r)
  | String "+" r => option_map Z.of_N (int_digits 0 false r)
  | t => option_map Z.of_N (int_digits 0 false t)
  end.

(** The interpreter refuses to convert a string of more than
    [sys.int_info.default_max_str_digits] digits; the program leaves the
    limit as it finds it. *)
Definition int_max_str_digits : nat := 4300.

Fixpoint count_digits (s : string) : nat :=
  match s with
  | EmptyString => O
  | String c r => if is_digit c then S (count_digits r) else count_digits r
  end.

End Text.

Import Text.

(** ** Floats *)

(** The nearest integer, a tie going to the even one. *)
Definition round_half_even (y : Q) : Z :=
  let lo := Qfloor y in
  match (y - inject_Z lo ?= 1 # 2)%Q with
  | Lt => lo
  | Gt => lo + 1
  | Eq => if Z.even lo then lo else lo + 1
  end.

(** The double nearest to a number (IEEE 754 binary64, round to nearest,
    ties to even).  Every double is a whole number of units of [2^-1074],
    the least subnormal, with at most 53 significant bits: the number is
    counted in these units ([y]), [s] is the number of low bits that do
    not fit, and the count is rounded to a multiple of [2^s].  Overflow
    to infinity is outside the model. *)
Definition fl (q : Q) : Q :=
  let y := (Qabs q * inject_Z (2 ^ 1074))%Q in
  let s := Z.max (Z.log2 (Qfloor y) - 52) 0 in
  let k := round_half_even (y / inject_Z (2 ^ s)) * 2 ^ s in
  (inject_Z (Z.sgn (Qnum q) * k) / inject_Z (2 ^ 1074))%Q.

(** [a - b] and [a * b] on floats. *)
Definition fsub (a b : Q) : Q := fl (a - b).
Definition fmul (a b : Q) : Q := fl (a * b).

(** The values of the finite doubles. *)
Definition is_double (q : Q) : bool :=
  Qeq_bool (fl q) q && Qle_bool (Qabs q) (inject_Z ((2 ^ 53 - 1) * 2 ^ 971)).

Definition is_whole (q : Q) : bool := Pos.eqb (Qden (Qred q)) 1.

(** The number that Python holds for a number as it is written: a whole
    number is an int, or a double that is whole, and is itself; any other
    number is a float, the double nearest to it, which is the number
    itself when it is a double. *)
Definition py_number (q : Q) : Q := if is_whole q then q else fl q.

(** ** Time stamps *)

(** [int(x)] for a float: truncation towards zero. *)
Definition py_trunc (x : Q) : Z := Z.quot (Qnum x) (Zpos (Qden x)).

(** [decimal_seconds] is the argument as Python holds it.  The
    subtraction and the product are those of floats when it is a float:
    [seconds] and [1000] are converted, which changes neither ([seconds]
    is the whole part of a double), and each result is rounded.  When it
    is an int both are exact and the fraction is the int 0, which is also
    what the rounded operations give. *)
Definition decimal_to_vtt_time (decimal_seconds : Q) : string :=
  let decimal_seconds := py_number decimal_seconds in
  let seconds := py_trunc decimal_seconds in
  let milliseconds :=
    py_trunc (fmul (fsub decimal_seconds (inject_Z seconds)) (inject_Z 1000)) in
  let hours := seconds / 3600 in
  let minutes := (seconds mod 3600) / 60 in
  let seconds := seconds mod 60 in
  format_0wd 2 hours +:+ ":" +:+ format_0wd 2 minutes +:+ ":" +:+
  format_0wd 2 seconds +:+ "." +:+ format_0wd 3 milliseconds.

(** The format of the specification: a non-negative field, zero-padded on
    the left to [w] digits. *)
Definition zero_pad (w : nat) (n : Z) : string :=
  let digits := str_N (Z.to_N n) in
  zeros (w - String.length digits) +:+ digits.

(** ** Decoded JSON and its dynamic operations *)

Inductive json :=
| JNull
| JBool (b : bool)
| JInt (n : Z)
| JFloat (x : Q)
| JStr (s : string)
| JList (items : list json)
| JDict (fields : list (string * json)).

(** The exceptions the program can meet.  [ValueError None] and the
    constructors without a message are raised by the interpreter or a
    library; the text of their messages is not modelled. *)
Inductive exn :=
| RequestException (msg : string)
| Exception (msg : string)
| ValueError (msg : option string)
| KeyError (key : string)
| TypeError
| IndexError
| UnboundLocalError (name : string)
| ValidationError
| OSError (msg : string).

(** Computations that can raise: [inl e] is a raised exception. *)
Definition result (A : Type) : Type := exn + A.

#[export] Instance result_ret : MRet result := fun A a => inr a.
#[export] Instance result_bind : MBind result := fun A B f r =>
  match r with
  | inl e => inl e
  | inr a => f a
  end.
#[export] Instance result_fmap : FMap result := fun A B f r =>
  match r with
  | inl e => inl e
  | inr a => inr (f a)
  end.

(** [str(e)], where the text is known to the model. *)
Definition exn_text (e : exn) : option string :=
  match e with
  | RequestException msg | Exception msg | ValueError (Some msg) => Some msg
  | _ => None
  end.

(** The error of [int(s)] on a literal of [digits] digits, more than the
    limit. *)
Definition int_limit_error (digits : nat) : exn :=
  ValueError (Some
    ("Exceeds the limit (" +:+ str_Z (Z.of_nat int_max_str_digits)
       +:+ " digits) for integer string conversion: value has "
       +:+ str_Z (Z.of_nat digits)
       +:+ " digits; use sys.set_int_max_str_digits() to increase the limit")).

(** [int(s)] for a string of any length: a literal with too many digits
    is refused. *)
Definition py_int_limited (s : string) : result Z :=
  match py_int s with
  | Some n =>
      if (int_max_str_digits <? count_digits s)%nat
      then inl (int_limit_error (count_digits s))
      else inr n
  | None => inl (ValueError None)
  end.

Fixpoint assoc (key : string) (fields : list (string * json)) : option json :=
  match fields with
  | [] => None
  | (k, v) :: rest => if String.eqb k key then Some v else assoc key rest
  end.

(** [j[key]] for a string key. *)
Definition getitem (j : json) (key : string) : result json :=
  match j with
  | JDict fields =>
      match assoc key fields with
      | Some v => inr v
      | None => inl (KeyError key)
      end
  | _ => inl TypeError
  end.

Fixpoint is_substring (sub s : string) : bool :=
  match s with
  | EmptyString => String.eqb sub ""
  | String _ r => (String.prefix sub s || is_substring sub r)%bool
  end.

Definition is_str (key : string) (j : json) : bool :=
  match j with
  | JStr s => String.eqb s key
  | _ => false
  end.

(** [key in j] for a string key: a key test on a dict, an element test on
    a list, a substring test on a string. *)
Definition has_key (key : string) (j : json) : result bool :=
  match j with
  | JDict fields => inr (bool_decide (is_Some (assoc key fields)))
  | JList items => inr (existsb (is_str key) items)
  | JStr s => inr (is_substring key s)
  | _ => inl TypeError
  end.

Fixpoint chars (s : string) : list json :=
  match s with
  | EmptyString => []
  | String a r => JStr (String a EmptyString) :: chars r
  end.

(** The items a [for] loop visits: the elements of a list, the keys of a
    dict, the characters of a string. *)
Definition py_iter (j : json) : result (list json) :=
  match j with
  | JList items => inr items
  | JDict fields => inr (map (fun kv => JStr (fst kv)) fields)
  | JStr s => inr (chars s)
  | _ => inl TypeError
  end.

(** Truth value of a value in an [if]. *)
Definition truthy (j : json) : bool :=
  match j with
  | JNull => false
  | JBool b => b
  | JInt n => negb (n =? 0)
  | JFloat x => negb (Qeq_bool x 0)
  | JStr s => negb (String.eqb s "")
  | JList items => negb (Nat.eqb (length items) 0)
  | JDict fields => negb (Nat.eqb (length fields) 0)
  end.

(** The numeric value of ints, floats and bools. *)
Definition num_val (j : json) : option Q :=
  match j with
  | JInt n => Some (inject_Z n)
  | JFloat x => Some x
  | JBool b => Some (inject_Z (if b then 1 else 0))
  | _ => None
  end.

(** The call [decimal_to_vtt_time(v)] on a decoded value: [int(v)] fails
    on anything but a number or a numeric string, and the subtraction
    fails on a string. *)
Definition decimal_to_vtt_time_dyn (v : json) : result string :=
  match v with
  | JStr s => match py_int_limited s with
              | inr _ => inl TypeError
              | inl e => inl e
              end
  | _ => match num_val v with
         | Some x => inr (decimal_to_vtt_time x)
         | None => inl TypeError
         end
  end.

(** ** The world outside the program *)

Inductive response :=
| Ok200 (body : json)
| Failed (cause : string).

(** [net k url] is the outcome of the [k]-th GET of the run when it asks
    for [url]: a decoded body, or a [RequestException] with its text
    (transport error, non-2xx status or undecodable body).  [jitter k] is
    the [k]-th value of [random.uniform(0, 1)].  [listing] is the content
    of the directory [transcripts], if it exists.  The last three fields
    are library behaviour that is not modelled: [sanitize] of
    sanitize_filename, [str()] of a float, list or dict, and the values
    other than ints that pydantic accepts for an int field. *)
Record world := {
  net : nat -> string -> response;
  jitter : nat -> Q;
  listing : option (list string);
  sanitize : string -> string;
  repr_other : json -> string;
  coerce_int : json -> option Z
}.

Inductive event :=
| EvPrint (line : string)
| EvPrintExn (prefix : string) (e : exn)
| EvSessionOpen
| EvSessionClose
| EvGet (url : string)
| EvSleep (seconds : Q)
| EvMakedirs (path : string)
| EvOpen (path : string)
| EvWrite (path : string) (content : string).

(** How many requests and random draws the run has made so far. *)
Record cursor := { gets : nat; draws : nat }.

(** An effectful computation: from the cursor, the events it emits, the
    new cursor and its outcome. *)
Definition M (A : Type) : Type := cursor -> list event * cursor * result A.

#[export] Instance M_ret : MRet M := fun A a c => ([], c, inr a).
#[export] Instance M_bind : MBind M := fun A B f m c =>
  match m c with
  | (evs, c', inl e) => (evs, c', inl e)
  | (evs, c', inr a) =>
      match f a c' with
      | (evs', c'', r) => (evs ++ evs', c'', r)
      end
  end.

Definition raise {A : Type} (e : exn) : M A := fun c => ([], c, inl e).

Definition lift {A : Type} (r : result A) : M A := fun c => ([], c, r).

Definition emit (ev : event) : M unit := fun c => ([ev], c, inr tt).

Definition print (line : string) : M unit := emit (EvPrint line).

(** [print(f"{prefix}{e}")]. *)
Definition print_exn (prefix : string) (e : exn) : M unit :=
  match exn_text e with
  | Some text => emit (EvPrint (prefix +:+ text))
  | None => emit (EvPrintExn prefix e)
  end.

(** [try: m  except Exception as e: h e]. *)
Definition try_except {A : Type} (m : M A) (h : exn -> M A) : M A := fun c =>
  match m c with
  | (evs, c', inl e) =>
      match h e c' with
      | (evs', c'', r) => (evs ++ evs', c'', r)
      end
  | (evs, c', inr a) => (evs, c', inr a)
  end.

(** [with requests.Session() as session: body]: the session is closed on
    the way out, also when [body] raises. *)
Definition with_session {A : Type} (body : M A) : M A := fun c =>
  match body c with
  | (evs, c', r) => (EvSessionOpen :: evs ++ [EvSessionClose], c', r)
  end.

(** [session.get(url)], [raise_for_status()] and [response.json()]. *)
Definition session_get (w : world) (url : string) : M response := fun c =>
  ([EvGet url], {| gets := S (gets c); draws := draws c |}, inr (net w (gets c) url)).

(** [random.uniform(0, 1)]. *)
Definition uniform01 (w : world) : M Q := fun c =>
  ([], {| gets := gets c; draws := S (draws c) |}, inr (jitter w (draws c))).

(** [time.sleep(seconds)]: a negative length is a [ValueError]. *)
Definition sleep (seconds : Q) : M unit :=
  if Qle_bool 0 seconds then emit (EvSleep seconds) else raise (ValueError None).

(** ** BackoffFetcher *)

(** [f"{x:.2f}"] for a double: two decimals, its exact value rounded
    half to even. *)
Definition format_2f (x : Q) : string :=
  let scaled := (Qabs x * inject_Z 100)%Q in
  let lo := Qfloor scaled in
  let rest := (scaled - inject_Z lo)%Q in
  let cents :=
    match (rest ?= 1 # 2)%Q with
    | Lt => lo
    | Gt => lo + 1
    | Eq => if Z.even lo then lo else lo + 1
    end in
  (if Qlt_le_dec x 0 then "-" else "") +:+
  str_Z (cents / 100) +:+ "." +:+ format_0wd 2 (cents mod 100).

(** The double [initial_delay * (2**attempt) + j] that the program
    computes, [j] being a float: the product is converted or rounded, and
    the sum is rounded. *)
Definition delay_double (initial_delay : Q) (attempt : Z) (j : Q) : Q :=
  fl (fl (py_number initial_delay * inject_Z (2 ^ attempt)) + fl j).

(** The body of the loop of [fetch_with_backoff] over the attempts that
    remain; falling off the loop returns [None].  The notice shows the
    double that the program computes; the length of the pause is idealised
    as the exact sum, from which the double differs by its rounding. *)
Fixpoint fetch_attempts (w : world) (url : string) (max_retries : Z)
    (initial_delay : Q) (attempts : list Z) : M json :=
  match attempts with
  | [] => mret JNull
  | attempt :: rest =>
      r ← session_get w url;
      match r with
      | Ok200 body => mret body
      | Failed e =>
          if (attempt =? max_retries - 1)%Z
          then raise (Exception ("Failed to fetch after " +:+ str_Z max_retries
                                   +:+ " attempts: " +:+ e))
          else
            j ← uniform01 w;
            let delay := (initial_delay * inject_Z (2 ^ attempt) + j)%Q in
            print ("Attempt " +:+ str_Z (attempt + 1) +:+ " failed. Retrying in "
                     +:+ format_2f (delay_double initial_delay attempt j)
                     +:+ " seconds...");;
            sleep delay;;
            fetch_attempts w url max_retries initial_delay rest
      end
  end.

Definition fetch_with_backoff (w : world) (url : string) (max_retries : Z)
    (initial_delay : Q) : M json :=
  fetch_attempts w url max_retries initial_delay (seqZ 0 max_retries).

(** ** TranscriptTranscoder *)

Record Video := { video_id : Z; title : string; transcript_id : Z }.

(** [f"{v}"] for a decoded value. *)
Definition py_str (w : world) (v : json) : string :=
  match v with
  | JStr s => s
  | JInt n => str_Z n
  | JBool true => "True"
  | JBool false => "False"
  | JNull => "None"
  | _ => repr_other w v
  end.

(** [raw += v]: only a string can be appended to a string. *)
Definition str_concat (raw : string) (v : json) : result string :=
  match v with
  | JStr s => inr (raw +:+ s)
  | _ => inl TypeError
  end.

(** The loop over [enumerate(cues)] in [process_video]: the subtitle text
    and the plain text built so far are [vtt] and [raw]. *)
Fixpoint transcode_from (w : world) (idx : Z) (cues : list json)
    (vtt raw : string) : result (string * string) :=
  match cues with
  | [] => inr (vtt, raw)
  | cue :: rest =>
      let vtt := vtt +:+ str_Z idx +:+ nl in
      t ← getitem cue "time";
      start ← getitem t "start";
      start ← decimal_to_vtt_time_dyn start;
      t ← getitem cue "time";
      end_ ← getitem t "end";
      end_ ← decimal_to_vtt_time_dyn end_;
      let vtt := vtt +:+ start +:+ " --> " +:+ end_ +:+ nl in
      text ← getitem cue "text";
      let vtt := vtt +:+ py_str w text +:+ nl +:+ nl in
      flag ← getitem cue "newParagraph";
      let raw := if truthy flag then raw +:+ nl else raw in
      text ← getitem cue "text";
      raw ← str_concat raw text;
      transcode_from w (idx + 1) rest vtt raw
  end.

Definition transcode (w : world) (cues : list json) : result (string * string) :=
  transcode_from w 0 cues ("WEBVTT" +:+ nl +:+ nl) "".

Definition transcript_url (video : Video) : string :=
  "https://cijapanese.com/api/v1/transcript?transcriptId=" +:+ str_Z (transcript_id video).

Definition output_path (w : world) (video : Video) (ext : string) : string :=
  "transcripts/" +:+ format_0wd 4 (video_id video) +:+ " "
    +:+ sanitize w (title video) +:+ ext.

(** The operations of the program on the file system, and a disk: the
    exception, if any, that an operation meets. *)
Inductive fs_op :=
| Makedirs (path : string)
| Open (path : string)
| Write (path : string) (content : string).

Definition disk : Type := fs_op -> option exn.

(** A disk on which every operation succeeds. *)
Definition sound_disk : disk := fun _ => None.

(** An operation on the disk: it raises, or it happens. *)
Definition fs_step (d : disk) (op : fs_op) (ev : event) : M unit :=
  match d op with
  | Some e => raise e
  | None => emit ev
  end.

(** [with open(path, "w", encoding="utf-8") as f: f.write(content)]:
    opening creates or empties the file; writing includes the flush when
    the file is closed. *)
Definition write_file (d : disk) (path content : string) : M unit :=
  fs_step d (Open path) (EvOpen path);;
  fs_step d (Write path content) (EvWrite path content).

Definition process_video_on (d : disk) (w : world) (video : Video) : M unit :=
  transcript_data ← fetch_with_backoff w (transcript_url video) 5 1;
  out ← lift (data ← getitem transcript_data "data";
              cues ← getitem data "cues";
              cues ← py_iter cues;
              transcode w cues);
  fs_step d (Makedirs "transcripts") (EvMakedirs "transcripts");;
  write_file d (output_path w video ".vtt") (fst out);;
  write_file d (output_path w video ".txt") (snd out).

(** [process_video] on a disk that does not fail. *)
Definition process_video (w : world) (video : Video) : M unit :=
  process_video_on sound_disk w video.

(** ** IdentifierResolver *)

(** Regular expressions, matched by derivatives.  [re.fullmatch] tries
    every alternative, so it succeeds exactly on the words of the
    language. *)
Inductive regex :=
| Never
| Empty
| Class (p : ascii -> bool)
| Alt (r1 r2 : regex)
| Cat (r1 r2 : regex)
| Star (r : regex).

Fixpoint nullable (r : regex) : bool :=
  match r with
  | Never => false
  | Empty => true
  | Class _ => false
  | Alt r1 r2 => nullable r1 || nullable r2
  | Cat r1 r2 => nullable r1 && nullable r2
  | Star _ => true
  end.

Fixpoint deriv (c : ascii) (r : regex) : regex :=
  match r with
  | Never => Never
  | Empty => Never
  | Class p => if p c then Empty else Never
  | Alt r1 r2 => Alt (deriv c r1) (deriv c r2)
  | Cat r1 r2 =>
      if nullable r1 then Alt (Cat (deriv c r1) r2) (deriv c r2)
      else Cat (deriv c r1) r2
  | Star r1 => Cat (deriv c r1) (Star r1)
  end.

Fixpoint fullmatch (r : regex) (s : string) : bool :=
  match s with
  | EmptyString => nullable r
  | String c rest => fullmatch (deriv c r) rest
  end.

Definition Plus (r : regex) : regex := Cat r (Star r).
Definition digit : regex := Class is_digit.
Definition lit (c : ascii) : regex := Class (Ascii.eqb c).

(** [(\d+|\d+-\d+)] *)
Definition item : regex :=
  Alt (Plus digit) (Cat (Plus digit) (Cat (lit "-") (Plus digit))).

(** [^(\d+|\d+-\d+)(,(\d+|\d+-\d+))*$]; under [fullmatch] the anchors add
    nothing. *)
Definition pattern : regex := Cat item (Star (Cat (lit ",") item)).

(** [range(start, stop)] as a set. *)
Definition range_set (start stop : Z) : gset Z :=
  list_to_set (seqZ start (stop - start)).

(** The loop over [parts] in [validate_and_parse_input].  The two ints
    of a range are read in order; a part with another number of pieces
    fails in [int] or in the unpacking, with a [ValueError] either way. *)
Fixpoint parse_parts (parts : list string) (numbers : gset Z) : result (gset Z) :=
  match parts with
  | [] => inr numbers
  | part :: rest =>
      if contains_char "-" part then
        match split_on "-" part with
        | [a; b] =>
            start ← py_int_limited a;
            end_ ← py_int_limited b;
            if end_ <? start
            then inl (ValueError (Some
                   ("Invalid range: " +:+ part +:+ ". Start must be <= end.")))
            else parse_parts rest (numbers ∪ range_set start (end_ + 1))
        | _ => inl (ValueError None)
        end
      else
        n ← py_int_limited part;
        parse_parts rest (numbers ∪ {[ n ]})
  end.

Definition validate_and_parse_input (input_str : string) : result (gset Z) :=
  if String.eqb input_str "all" then inr ∅
  else if negb (fullmatch pattern input_str)
  then inl (ValueError (Some
         ("Invalid input format: " +:+ input_str
            +:+ ". Expected numbers or ranges (e.g., 1,4-6,9-10).")))
  else parse_parts (split_on "," input_str) ∅.

(** ** ExistingIdIndex *)

(** [int(filename.split()[0])]; the name of a directory entry is too
    short to meet the limit on the digits. *)
Definition leading_id (filename : string) : result Z :=
  match split_ws filename with
  | [] => inl IndexError
  | id_str :: _ =>
      match py_int id_str with
      | Some n => inr n
      | None => inl (ValueError None)
      end
  end.

(** The loop over [os.listdir("transcripts")]. *)
Fixpoint scan_filenames (filenames : list string) (existing_ids : gset Z) : M (gset Z) :=
  match filenames with
  | [] => mret existing_ids
  | filename :: rest =>
      if endswith filename ".vtt" then
        match leading_id filename with
        | inr n => scan_filenames rest (existing_ids ∪ {[ n ]})
        | inl _ =>
            print ("Skipped " +:+ filename +:+ ".");;
            scan_filenames rest existing_ids
        end
      else scan_filenames rest existing_ids
  end.

Definition get_existing_ids (w : world) : M (gset Z) :=
  existing_ids ← match listing w with
                 | Some filenames => scan_filenames filenames ∅
                 | None => mret ∅
                 end;
  (if (0 <? size existing_ids)%nat
   then print ("Found " +:+ str_Z (Z.of_nat (size existing_ids))
                 +:+ " already existing videos. Will skip them.")
   else mret tt);;
  mret existing_ids.

(** ** CatalogFilter *)

(** [v in ids] for a decoded value and a set of ints: lists and dicts are
    unhashable; floats and bools are found through their integer value. *)
Definition in_ids (v : json) (ids : gset Z) : result bool :=
  match v with
  | JInt n => inr (bool_decide (n ∈ ids))
  | JBool b => inr (bool_decide ((if b then 1 else 0) ∈ ids))
  | JFloat x =>
      inr (Pos.eqb (Qden (Qred x)) 1 && bool_decide (Qnum (Qred x) ∈ ids))
  | JNull | JStr _ => inr false
  | JList _ | JDict _ => inl TypeError
  end.

(** What pydantic does with a value given for an [int] field. *)
Definition as_int (w : world) (v : json) : result Z :=
  match v with
  | JInt n => inr n
  | _ => match coerce_int w v with
         | Some n => inr n
         | None => inl ValidationError
         end
  end.

(** The body of the loop that collects the videos: [None] when the entry
    is passed over by a [continue]. *)
Definition collect_video (w : world) (ids : gset Z) (video : json) : result (option Video) :=
  id ← getitem video "id";
  member ← in_ids id ids;
  if negb member then inr None else
  has_plan ← has_key "plan" video;
  if negb has_plan then inr None else
  plan ← getitem video "plan";
  has_transcript ← has_key "transcriptId" plan;
  if negb has_transcript then inr None else
  id ← getitem video "id";
  plan ← getitem video "plan";
  titleJP ← getitem plan "titleJP";
  plan ← getitem video "plan";
  titleEN ← getitem plan "titleEN";
  plan ← getitem video "plan";
  transcriptId ← getitem plan "transcriptId";
  video_id ← as_int w id;
  transcript_id ← as_int w transcriptId;
  inr (Some {| video_id := video_id;
               title := py_str w titleJP +:+ " | " +:+ py_str w titleEN;
               transcript_id := transcript_id |}).

Fixpoint collect_videos (w : world) (ids : gset Z) (modules : list json) : result (list Video) :=
  match modules with
  | [] => inr []
  | video :: rest =>
      o ← collect_video w ids video;
      videos ← collect_videos w ids rest;
      inr (match o with
           | Some v => v :: videos
           | None => videos
           end)
  end.

(** ** Orchestrator *)

Definition catalog_url : string := "https://cijapanese.com/api/v1/content".

(** [max(max_id, v)]: the second argument wins only when it is strictly
    greater; values that are not numbers cannot be compared with one. *)
Definition py_max (max_id v : json) : result json :=
  match num_val max_id, num_val v with
  | Some a, Some b => inr (if Qlt_le_dec a b then v else max_id)
  | _, _ => inl TypeError
  end.

Fixpoint max_id_over (max_id : json) (modules : list json) : result json :=
  match modules with
  | [] => inr max_id
  | video :: rest =>
      id ← getitem video "id";
      max_id ← py_max max_id id;
      max_id_over max_id rest
  end.

(** [set(range(1, max_id + 1))]: a float is not accepted by [range]. *)
Definition ids_up_to (max_id : json) : result (gset Z) :=
  match max_id with
  | JInt n => inr (range_set 1 (n + 1))
  | JBool b => inr (range_set 1 ((if b then 1 else 0) + 1))
  | _ => inl TypeError
  end.

(** The branch of [main] taken when the set of ids is empty. *)
Definition resolve_all (w : world) (website_content : json) : M (gset Z) :=
  max_id ← lift (data ← getitem website_content "data";
                 modules ← getitem data "modules";
                 modules ← py_iter modules;
                 max_id_over (JInt 1) modules);
  print ("Fetching up everything up until " +:+ py_str w max_id);;
  lift (ids_up_to max_id).

(** The loop over [videos] at the end of [main]. *)
Fixpoint process_videos (w : world) (videos : list Video) : M unit :=
  match videos with
  | [] => mret tt
  | video :: rest =>
      try_except
        (process_video w video;;
         print ("Video ID " +:+ str_Z (video_id video) +:+ ": Done"))
        (fun e => print_exn ("Video ID " +:+ str_Z (video_id video) +:+ ": Error - ") e);;
      sleep (1 # 5);;
      process_videos w rest
  end.

(** The same loop on disks that can fail: [disks i] is the disk as the
    [i]-th video of the list finds it. *)
Fixpoint process_videos_on (disks : nat -> disk) (w : world) (videos : list Video) : M unit :=
  match videos with
  | [] => mret tt
  | video :: rest =>
      try_except
        (process_video_on (disks O) w video;;
         print ("Video ID " +:+ str_Z (video_id video) +:+ ": Done"))
        (fun e => print_exn ("Video ID " +:+ str_Z (video_id video) +:+ ": Error - ") e);;
      sleep (1 # 5);;
      process_videos_on (fun i => disks (S i)) w rest
  end.

(** The final set of ids of [main]: what is left of [ids] after the ids
    found on disk are removed. *)
Definition remove_existing (ids existing_ids : gset Z) : gset Z :=
  if (0 <? size existing_ids)%nat then ids ∖ existing_ids else ids.

(** The block of [main] that collects the videos: the loop over
    [website_content["data"]["modules"]]. *)
Definition filter_catalog (w : world) (website_content : json) (ids : gset Z) :
    result (list Video) :=
  data ← getitem website_content "data";
  modules ← getitem data "modules";
  modules ← py_iter modules;
  collect_videos w ids modules.

(** The step of [main] that settles the ids when the catalog is there:
    the empty set stands for everything up to the largest id. *)
Definition resolve_ids (w : world) (ids : gset Z) (website_content : json) : M (gset Z) :=
  if Nat.eqb (size ids) 0 then resolve_all w website_content else mret ids.

(** [main], given the command-line argument [ids].  A variable that was
    never assigned is [None]. *)
Definition main (w : world) (args_ids : string) : M unit :=
  ids ← match validate_and_parse_input args_ids with
        | inr ids => mret (Some ids)
        | inl (ValueError msg) => print_exn "Error: " (ValueError msg);; mret None
        | inl e => raise e
        end;
  with_session
    (website_content ← fetch_with_backoff w catalog_url 5 1;
     ids ← match ids with
           | Some ids => mret ids
           | None => raise (UnboundLocalError "ids")
           end;
     ids ← resolve_ids w ids website_content;
     existing_ids ← get_existing_ids w;
     let ids := remove_existing ids existing_ids in
     videos ← lift (filter_catalog w website_content ids);
     process_videos w videos).

(** Running a computation from the start of the process. *)
Definition start : cursor := {| gets := 0; draws := 0 |}.

Definition events_of {A : Type} (m : M A) (c : cursor) : list event := fst (fst (m c)).
Definition outcome_of {A : Type} (m : M A) (c : cursor) : result A := snd (m c).
Definition cursor_of {A : Type} (m : M A) (c : cursor) : cursor := snd (fst (m c)).

(** The observations the specification speaks about. *)
Definition requests (evs : list event) : list string :=
  omap (fun ev => match ev with EvGet url => Some url | _ => None end) evs.

Definition sleeps (evs : list event) : list Q :=
  omap (fun ev => match ev with EvSleep d => Some d | _ => None end) evs.

Definition writes (evs : list event) : list (string * string) :=
  omap (fun ev => match ev with EvWrite p c => Some (p, c) | _ => None end) evs.

Definition session_opened (evs : list event) : bool :=
  existsb (fun ev => match ev with EvSessionOpen => true | _ => false end) evs.

(** ** Vocabulary of the properties *)


(** The delay before the retry that follows attempt [attempt], when the
    jitter drawn is [j]. *)
Definition backoff_delay (initial_delay : Q) (attempt : Z) (j : Q) : Q :=
  (initial_delay * inject_Z (2 ^ attempt) + j)%Q.






Definition jitter_in_range (w : world) : Prop :=
  forall k, (0 <= jitter w k)%Q /\ (jitter w k < 1)%Q.

(** ** The data model of the specification *)

(** A cue: start and end time in seconds, text, paragraph flag. *)
Record Cue := {
  startTime : Q;
  endTime : Q;
  text : string;
  startsNewParagraph : bool
}.

(** A time in a transcript: a JSON number (the bools of Python count as
    the ints 0 and 1). *)
Definition seconds_of (v : json) : option Q :=
  match v with
  | JStr _ => None
  | _ => num_val v
  end.

(** The cue that a decoded JSON object carries, if it has the shape of
    the transcript endpoint: an object with a [time] object holding the
    numbers [start] and [end], a string [text] and a [newParagraph]
    flag.  The order of the fields and further fields do not matter. *)
Definition decode_cue (v : json) : option Cue :=
  match getitem v "time", getitem v "text", getitem v "newParagraph" with
  | inr t, inr (JStr s), inr flag =>
      match getitem t "start", getitem t "end" with
      | inr a, inr b =>
          match seconds_of a, seconds_of b with
          | Some x, Some y =>
              Some {| startTime := x; endTime := y; text := s;
                      startsNewParagraph := truthy flag |}
          | _, _ => None
          end
      | _, _ => None
      end
  | _, _, _ => None
  end.

Definition join (pieces : list string) : string :=
  fold_right String.append "" pieces.

(** Plain text: the texts in order, a newline before each text whose cue
    starts a paragraph. *)
Definition plain_text (cues : list Cue) : string :=
  join (map (fun c => (if startsNewParagraph c then nl else "") +:+ text c) cues).

(** The four lines of a cue in the subtitle file. *)
Definition cue_block (idx : Z) (c : Cue) : string :=
  str_Z idx +:+ nl
  +:+ decimal_to_vtt_time (startTime c) +:+ " --> " +:+ decimal_to_vtt_time (endTime c) +:+ nl
  +:+ text c +:+ nl
  +:+ nl.

(** Subtitle text: the header, a blank line, and the blocks of the cues
    numbered from 0. *)
Definition subtitle_text (cues : list Cue) : string :=
  "WEBVTT" +:+ nl +:+ nl
  +:+ join (zip_with cue_block (seqZ 0 (Z.of_nat (length cues))) cues).

(** The transcript of the paragraph example of the specification. *)
Definition cue_json (start end_ : json) (s : string) (flag : bool) : json :=
  JDict [("time", JDict [("start", start); ("end", end_)]);
         ("text", JStr s); ("newParagraph", JBool flag)].

Definition two_cues : list json :=
  [cue_json (JInt 0) (JFloat (3 # 2)) "A" false;
   cue_json (JFloat (3 # 2)) (JInt 4) "B" true].

Definition transcript_body (cues : list json) : json :=
  JDict [("data", JDict [("cues", JList cues)])].

Definition sample_video : Video :=
  {| video_id := 1; title := "JP | A"; transcript_id := 10 |}.

(** Every request is answered with the transcript [two_cues]. *)
Definition transcript_world : world :=
  {| net := fun _ _ => Ok200 (transcript_body two_cues);
     jitter := fun _ => 0%Q;
     listing := None;
     sanitize := fun s => s;
     repr_other := fun _ => "";
     coerce_int := fun _ => None |}.

(** The words of a regular expression. *)
Inductive Matches : regex -> string -> Prop :=
| MEmpty : Matches Empty ""
| MClass (p : ascii -> bool) (c : ascii) :
    p c = true -> Matches (Class p) (String c "")
| MAltL (r1 r2 : regex) (s : string) : Matches r1 s -> Matches (Alt r1 r2) s
| MAltR (r1 r2 : regex) (s : string) : Matches r2 s -> Matches (Alt r1 r2) s
| MCat (r1 r2 : regex) (s1 s2 s : string) :
    Matches r1 s1 -> Matches r2 s2 -> s = s1 +:+ s2 -> Matches (Cat r1 r2) s
| MStarNil (r : regex) : Matches (Star r) ""
| MStarApp (r : regex) (s1 s2 s : string) :
    Matches r s1 -> Matches (Star r) s2 -> s = s1 +:+ s2 -> Matches (Star r) s.

(** The grammar of the specification: tokens separated by commas, a
    token being a number or a range [start-end], a number being one or
    more decimal digits. *)
Fixpoint all_digits (s : string) : bool :=
  match s with
  | EmptyString => true
  | String c r => is_digit c && all_digits r
  end.

Definition is_number (s : string) : bool :=
  negb (String.eqb s "") && all_digits s.

Inductive token :=
| Single (a : string)
| Range (a b : string).

Definition valid_token (t : token) : bool :=
  match t with
  | Single a => is_number a
  | Range a b => is_number a && is_number b
  end.

Definition token_text (t : token) : string :=
  match t with
  | Single a => a
  | Range a b => a +:+ "-" +:+ b
  end.

Fixpoint comma_separated (pieces : list string) : string :=
  match pieces with
  | [] => ""
  | [p] => p
  | p :: rest => p +:+ "," +:+ comma_separated rest
  end.

Definition expression_text (ts : list token) : string :=
  comma_separated (map token_text ts).

Definition in_grammar (s : string) : Prop :=
  exists ts, ts <> [] /\ forallb valid_token ts = true /\ s = expression_text ts.

(** The value of a number of the grammar. *)
Fixpoint number_from (acc : Z) (s : string) : Z :=
  match s with
  | EmptyString => acc
  | String c r => number_from (10 * acc + Z.of_N (digit_val c)) r
  end.

Definition number_value (s : string) : Z := number_from 0 s.

(** A range of the grammar holds its bounds in order. *)
Definition ordered (t : token) : bool :=
  match t with
  | Single _ => true
  | Range a b => number_value a <=? number_value b
  end.

(** The ids a token stands for. *)
Definition denotes (t : token) (n : Z) : Prop :=
  match t with
  | Single a => n = number_value a
  | Range a b => number_value a <= n <= number_value b
  end.

(** The set of ids a token stands for. *)
Definition token_ids (t : token) : gset Z :=
  match t with
  | Single a => {[ number_value a ]}
  | Range a b => range_set (number_value a) (number_value b + 1)
  end.

Definition expression_ids (ts : list token) : gset Z :=
  ⋃ (map token_ids ts).

(** The message of the range error for a token. *)
Definition range_error (t : token) : exn :=
  ValueError (Some ("Invalid range: " +:+ token_text t +:+ ". Start must be <= end.")).

(** A number that [int] converts: it has no more digits than the limit
    of the interpreter. *)
Definition short_number (a : string) : bool :=
  (String.length a <=? int_max_str_digits)%nat.

Definition within_limit (t : token) : bool :=
  match t with
  | Single a => short_number a
  | Range a b => short_number a && short_number b
  end.

(** The error, if any, on which the loop stops at a token: a number that
    is too long, the first bound before the second, or else bounds out of
    order. *)
Definition token_error (t : token) : option exn :=
  match t with
  | Single a =>
      if short_number a then None else Some (int_limit_error (String.length a))
  | Range a b =>
      if negb (short_number a) then Some (int_limit_error (String.length a))
      else if negb (short_number b) then Some (int_limit_error (String.length b))
      else if ordered t then None else Some (range_error t)
  end.

Fixpoint first_error (ts : list token) : option exn :=
  match ts with
  | [] => None
  | t :: rest =>
      match token_error t with
      | Some e => Some e
      | None => first_error rest
      end
  end.

(** The id a file name contributes to the index: the name ends in
    [.vtt] and its first whitespace-delimited token reads as an int. *)
Definition indexed_id (filename : string) : option Z :=
  if endswith filename ".vtt" then
    match split_ws filename with
    | id_str :: _ => py_int id_str
    | [] => None
    end
  else None.

(** A subtitle file whose name does not start with an id. *)
Definition malformed (filename : string) : bool :=
  endswith filename ".vtt" && negb (bool_decide (is_Some (indexed_id filename))).

Definition skipped_line (filename : string) : event :=
  EvPrint ("Skipped " +:+ filename +:+ ".").

Definition directory (w : world) : list string :=
  match listing w with
  | Some filenames => filenames
  | None => []
  end.

(** A directory with two subtitle files, one of them without an id. *)
Definition disk_world : world :=
  {| net := fun _ _ => Ok200 (JDict [("data", JDict [("modules", JList [])])]);
     jitter := fun _ => 0%Q;
     listing := Some ["0003 x.vtt"; "notes.vtt"; "0007 y.txt"];
     sanitize := fun s => s;
     repr_other := fun _ => "";
     coerce_int := fun _ => None |}.

Fixpoint no_space (s : string) : bool :=
  match s with
  | EmptyString => true
  | String c r => negb (is_space c) && no_space r
  end.

(** The name, inside [transcripts], of the subtitle file written for a
    video. *)
Definition subtitle_filename (w : world) (video : Video) : string :=
  format_0wd 4 (video_id video) +:+ " " +:+ sanitize w (title video) +:+ ".vtt".

(** The index of the ids found on disk. *)
Definition existing_ids (w : world) : gset Z :=
  list_to_set (omap indexed_id (directory w)).

(** A catalog entry as the catalog endpoint describes it: an integer id
    and, optionally, a plan holding two titles and the reference of a
    transcript, each of which may be missing. *)
Record Plan := {
  titleJP : option string;
  titleEN : option string;
  transcriptRef : option Z
}.

Record Entry := { entry_id : Z; entry_plan : option Plan }.

Definition opt_str (key : string) (fields : list (string * json)) : option (option string) :=
  match assoc key fields with
  | None => Some None
  | Some (JStr s) => Some (Some s)
  | Some _ => None
  end.

Definition opt_int (key : string) (fields : list (string * json)) : option (option Z) :=
  match assoc key fields with
  | None => Some None
  | Some (JInt n) => Some (Some n)
  | Some _ => None
  end.

Definition decode_plan (p : json) : option Plan :=
  match p with
  | JDict fields =>
      match opt_str "titleJP" fields, opt_str "titleEN" fields,
            opt_int "transcriptId" fields with
      | Some jp, Some en, Some t =>
          Some {| titleJP := jp; titleEN := en; transcriptRef := t |}
      | _, _, _ => None
      end
  | _ => None
  end.

Definition decode_entry (v : json) : option Entry :=
  match v with
  | JDict fields =>
      match assoc "id" fields with
      | Some (JInt i) =>
          match assoc "plan" fields with
          | None => Some {| entry_id := i; entry_plan := None |}
          | Some p =>
              option_map (fun pl => {| entry_id := i; entry_plan := Some pl |})
                         (decode_plan p)
          end
      | _ => None
      end
  | _ => None
  end.

(** The three conditions of the filter: requested, with a plan, with a
    transcript reference in the plan. *)
Definition selected (ids : gset Z) (e : Entry) : bool :=
  bool_decide (entry_id e ∈ ids)
  && match entry_plan e with
     | Some p => bool_decide (is_Some (transcriptRef p))
     | None => false
     end.

Definition titled (e : Entry) : bool :=
  match entry_plan e with
  | Some p => bool_decide (is_Some (titleJP p)) && bool_decide (is_Some (titleEN p))
  | None => true
  end.

(** The work item of a selected entry that has its titles. *)
Definition work_item (ids : gset Z) (e : Entry) : option Video :=
  if selected ids e then
    match entry_plan e with
    | Some {| titleJP := Some jp; titleEN := Some en; transcriptRef := Some t |} =>
        Some {| video_id := entry_id e; title := jp +:+ " | " +:+ en; transcript_id := t |}
    | _ => None
    end
  else None.

(** The key whose lookup fails on a plan that lacks a title. *)
Definition missing_title (fields : list (string * json)) : string :=
  match assoc "titleJP" fields with
  | None => "titleJP"
  | Some _ => "titleEN"
  end.

(** A requested entry with a transcript reference and no titles. *)
Definition untitled_entry : json :=
  JDict [("id", JInt 1); ("plan", JDict [("transcriptId", JInt 10)])].

Definition untitled_decoded : Entry :=
  {| entry_id := 1;
     entry_plan := Some {| titleJP := None; titleEN := None; transcriptRef := Some 10 |} |}.

Definition titled_entry : json :=
  JDict [("id", JInt 2);
         ("plan", JDict [("titleJP", JStr "JP"); ("titleEN", JStr "EN");
                         ("transcriptId", JInt 20)])].

Definition catalog_body (modules : list json) : json :=
  JDict [("data", JDict [("modules", JList modules)])].

(** The catalog holds [untitled_entry]; nothing is on disk. *)
Definition untitled_world : world :=
  {| net := fun _ _ => Ok200 (catalog_body [titled_entry; untitled_entry]);
     jitter := fun _ => 0%Q;
     listing := None;
     sanitize := fun s => s;
     repr_other := fun _ => "";
     coerce_int := fun _ => None |}.

(** The events a fetch of [url] can emit. *)
Definition fetch_event (url : string) (ev : event) : bool :=
  match ev with
  | EvGet u => String.eqb u url
  | EvPrint _ | EvSleep _ => true
  | _ => false
  end.

(** Console lines only. *)
Definition console_event (ev : event) : bool :=
  match ev with
  | EvPrint _ | EvPrintExn _ _ => true
  | _ => false
  end.

(** ** Sample times *)

(** The doubles nearest to 3725.4567 and to 0.29
    ([float.as_integer_ratio] gives these fractions). *)
Definition double_3725_4567 : Q := 8192365920852011 # 2199023255552.

Definition double_0_29 : Q := 5224175567749775 # 18014398509481984.

(** The value of a finite float of [SpecFloat], the specification of
    IEEE 754 arithmetic in the standard library, whose operations take
    the precision (53 bits) and the exponent bound (1024) of binary64. *)
Definition SF2Q (f : spec_float) : option Q :=
  match f with
  | S754_zero _ => Some 0%Q
  | S754_finite s m e =>
      let v := if 0 <=? e then inject_Z (Zpos m * 2 ^ e)
               else Zpos m # Z.to_pos (2 ^ (- e)) in
      Some (if s then (- v)%Q else v)
  | _ => None
  end.

(** 0.29, 1.001, 3725.4567, 1, 3725 and 1000 as such floats. *)
Definition sf_0_29 : spec_float := S754_finite false 5224175567749775 (-54).
Definition sf_1_001 : spec_float := S754_finite false 2254051613498933 (-51).
Definition sf_3725_4567 : spec_float := S754_finite false 8192365920852011 (-41).
Definition sf_1 : spec_float := S754_finite false 1 0.
Definition sf_3725 : spec_float := S754_finite false 3725 0.
Definition sf_1000 : spec_float := S754_finite false 1000 0.

(** ** Sample worlds *)

(** Every request fails. *)
Definition failing_world : world :=
  {| net := fun _ _ => Failed "503 Server Error";
     jitter := fun _ => 1 # 4;
     listing := None;
     sanitize := fun s => s;
     repr_other := fun _ => "";
     coerce_int := fun _ => None |}.

(** The first two requests fail, the following ones answer with an empty
    object. *)
Definition flaky_world : world :=
  {| net := fun k _ => if (k <? 2)%nat then Failed "timed out" else Ok200 (JDict []);
     jitter := fun k => if (k =? 0)%nat then 3 # 4 else 1 # 10;
     listing := None;
     sanitize := fun s => s;
     repr_other := fun _ => "";
     coerce_int := fun _ => None |}.

(** ** Vocabulary of the further properties *)

(** What [process_video] asks of the disk once the transcript is
    transcoded into [vtt] and [raw], in order, each operation with the
    event that records it when it succeeds. *)
Definition disk_steps (w : world) (video : Video) (vtt raw : string) :
    list (fs_op * event) :=
  [(Makedirs "transcripts", EvMakedirs "transcripts");
   (Open (output_path w video ".vtt"), EvOpen (output_path w video ".vtt"));
   (Write (output_path w video ".vtt") vtt, EvWrite (output_path w video ".vtt") vtt);
   (Open (output_path w video ".txt"), EvOpen (output_path w video ".txt"));
   (Write (output_path w video ".txt") raw, EvWrite (output_path w video ".txt") raw)].

Definition disk_events (w : world) (video : Video) (vtt raw : string) : list event :=
  map snd (disk_steps w video vtt raw).

(** The operations that happen on a disk, up to the first one that
    fails, and the exception of that one. *)
Fixpoint done_steps (d : disk) (steps : list (fs_op * event)) : list event :=
  match steps with
  | [] => []
  | (op, ev) :: rest =>
      match d op with
      | Some _ => []
      | None => ev :: done_steps d rest
      end
  end.

Fixpoint first_failure (d : disk) (steps : list (fs_op * event)) : option exn :=
  match steps with
  | [] => None
  | (op, _) :: rest =>
      match d op with
      | Some e => Some e
      | None => first_failure d rest
      end
  end.

(** The paths of the files a run opens or writes. *)
Definition touched (evs : list event) : list string :=
  omap (fun ev => match ev with
                  | EvOpen path | EvWrite path _ => Some path
                  | _ => None
                  end) evs.

(** The characters that separate the parts of a path. *)
Definition is_sep (c : ascii) : bool := Ascii.eqb c "/" || Ascii.eqb c "\".

Fixpoint no_sep (s : string) : bool :=
  match s with
  | EmptyString => true
  | String c r => negb (is_sep c) && no_sep r
  end.

(** A file directly inside the directory [transcripts]: its name holds
    no separator and is neither [.] nor [..]. *)
Definition child_of_transcripts (path : string) : Prop :=
  exists name, path = "transcripts/" +:+ name
               /\ no_sep name = true /\ name <> "." /\ name <> "..".

(** A [sanitize] that drops the separators, and a world with it: the
    catalog holds one video, every other request gives its transcript. *)
Fixpoint drop_seps (s : string) : string :=
  match s with
  | EmptyString => EmptyString
  | String c r => if is_sep c then drop_seps r else String c (drop_seps r)
  end.

Definition tidy_world : world :=
  {| net := fun _ url => if String.eqb url catalog_url
                         then Ok200 (catalog_body [titled_entry])
                         else Ok200 (transcript_body two_cues);
     jitter := fun _ => 0%Q;
     listing := None;
     sanitize := drop_seps;
     repr_other := fun _ => "";
     coerce_int := fun _ => None |}.

(** A disk on which the text file cannot be written. *)
Definition full_disk : disk := fun op =>
  match op with
  | Write path _ => if endswith path ".txt" then Some (OSError "No space left on device")
                    else None
  | _ => None
  end.

(** The line [main] prints for a video once it has been handled. *)
Definition report_line (video : Video) (r : result unit) : event :=
  match r with
  | inr _ => EvPrint ("Video ID " +:+ str_Z (video_id video) +:+ ": Done")
  | inl e =>
      match exn_text e with
      | Some text =>
          EvPrint (("Video ID " +:+ str_Z (video_id video) +:+ ": Error - ") +:+ text)
      | None => EvPrintExn ("Video ID " +:+ str_Z (video_id video) +:+ ": Error - ") e
      end
  end.

(** What the handling of the videos may do: requests, console lines and
    sleeps, and the directory and files under [transcripts]; it never
    touches the session. *)
Definition item_event (ev : event) : bool :=
  match ev with
  | EvSessionOpen | EvSessionClose => false
  | EvMakedirs path => String.eqb path "transcripts"
  | EvOpen path | EvWrite path _ => String.prefix "transcripts/" path
  | _ => true
  end.

Definition opens (evs : list event) : nat :=
  length (List.filter (fun ev => match ev with EvSessionOpen => true | _ => false end) evs).

Definition closes (evs : list event) : nat :=
  length (List.filter (fun ev => match ev with EvSessionClose => true | _ => false end) evs).

(** * Properties *)

(** ** Text *)

Lemma string_app_cons (a : ascii) (s t : string) :
  String a s +:+ t = String a (s +:+ t).
Proof. reflexivity. Qed.

Lemma string_app_nil_l (t : string) : "" +:+ t = t.
Proof. reflexivity. Qed.

Lemma string_length_app (s t : string) :
  String.length (s +:+ t) = (String.length s + String.length t)%nat.
Proof.
  induction s as [| a s IH]; [reflexivity |].
  rewrite string_app_cons. simpl. by rewrite IH.
Qed.

Lemma string_app_assoc (s t u : string) : (s +:+ t) +:+ u = s +:+ (t +:+ u).
Proof.
  induction s as [| a s IH]; [reflexivity |].
  rewrite !string_app_cons. by rewrite IH.
Qed.

Lemma string_app_nil_r (s : string) : s +:+ "" = s.
Proof.
  induction s as [| a s IH]; [reflexivity |].
  rewrite string_app_cons. by rewrite IH.
Qed.

(** ** Time stamps *)

Section Floats.

Local Open Scope Z_scope.

Lemma round_half_even_bounds (y : Q) :
  (y - (1 # 2) <= inject_Z (round_half_even y))%Q
  /\ (inject_Z (round_half_even y) <= y + (1 # 2))%Q.
Proof.
  unfold round_half_even.
  pose proof (Qfloor_le y) as Hlo. pose proof (Qlt_floor y) as Hhi.
  rewrite inject_Z_plus in Hhi. change (inject_Z 1) with 1%Q in Hhi.
  destruct (Qcompare_spec (y - inject_Z (Qfloor y)) (1 # 2)) as [He | Hl | Hg].
  - destruct (Z.even (Qfloor y)); rewrite ?inject_Z_plus; change (inject_Z 1) with 1%Q; lra.
  - lra.
  - rewrite inject_Z_plus. change (inject_Z 1) with 1%Q. lra.
Qed.

Lemma round_half_even_ge (y : Q) (k : Z) :
  (inject_Z k <= y)%Q -> k <= round_half_even y.
Proof.
  intros Hk. assert (k <= Qfloor y).
  { rewrite <- (Qfloor_Z k). by apply Qfloor_resp_le. }
  unfold round_half_even.
  destruct (_ ?= _)%Q; [destruct (Z.even _) | |]; lia.
Qed.

Lemma round_half_even_le (y : Q) (k : Z) :
  (y <= inject_Z k)%Q -> round_half_even y <= k.
Proof.
  intros Hk.
  pose proof (Qfloor_le y) as Hlo. pose proof (Qlt_floor y) as Hhi.
  assert (Hf : Qfloor y <= k).
  { rewrite Zle_Qle. lra. }
  destruct (Z.eq_dec (Qfloor y) k) as [Heq | Hne].
  - (* y = k exactly *)
    assert (Hy : (y == inject_Z k)%Q) by (rewrite <- Heq in Hk |- *; lra).
    unfold round_half_even. rewrite Heq.
    destruct (Qcompare_spec (y - inject_Z k) (1 # 2)) as [He | Hl | Hg]; try lra; lia.
  - assert (Qfloor y + 1 <= k) by lia.
    unfold round_half_even.
    destruct (_ ?= _)%Q; [destruct (Z.even _) | |]; lia.
Qed.

Lemma round_half_even_Z (k : Z) : round_half_even (inject_Z k) = k.
Proof.
  apply Z.le_antisymm.
  - apply round_half_even_le. lra.
  - apply round_half_even_ge. lra.
Qed.

Lemma round_half_even_comp (y y' : Q) :
  (y == y')%Q -> round_half_even y = round_half_even y'.
Proof.
  intros Hy. unfold round_half_even.
  rewrite (Qfloor_comp y y' Hy).
  assert (Hc : (y - inject_Z (Qfloor y') ?= 1 # 2)%Q = (y' - inject_Z (Qfloor y') ?= 1 # 2)%Q).
  { apply Qcompare_comp; [by rewrite Hy | reflexivity]. }
  by rewrite Hc.
Qed.

Lemma sgn_num_comp (q q' : Q) : (q == q')%Q -> Z.sgn (Qnum q) = Z.sgn (Qnum q').
Proof.
  destruct q as [n d], q' as [n' d']. unfold Qeq. simpl. intros H.
  destruct n, n'; simpl; try reflexivity; lia.
Qed.

Lemma fl_comp (q q' : Q) : (q == q')%Q -> (fl q == fl q')%Q.
Proof.
  intros Hq. unfold fl.
  assert (Hy : (Qabs q * inject_Z (2 ^ 1074) == Qabs q' * inject_Z (2 ^ 1074))%Q)
    by (by rewrite Hq).
  rewrite (Qfloor_comp _ _ Hy).
  set (s := Z.max _ 0).
  assert (Hr : (Qabs q * inject_Z (2 ^ 1074) / inject_Z (2 ^ s)
                == Qabs q' * inject_Z (2 ^ 1074) / inject_Z (2 ^ s))%Q) by (by rewrite Hy).
  rewrite (round_half_even_comp _ _ Hr), (sgn_num_comp q q' Hq). reflexivity.
Qed.

Lemma fl_proper : Proper (Qeq ==> Qeq) fl.
Proof. intros q q' H. by apply fl_comp. Qed.

#[local] Existing Instance fl_proper.

Lemma pow2_pos (e : Z) : 0 <= e -> (0 < inject_Z (2 ^ e))%Q.
Proof.
  intros He. change 0%Q with (inject_Z 0). rewrite <- Zlt_Qlt.
  apply Z.pow_pos_nonneg; lia.
Qed.

(** For a non-negative number the sign plays no part. *)
Lemma fl_nonneg (q : Q) :
  (0 <= q)%Q ->
  let y := (q * inject_Z (2 ^ 1074))%Q in
  let s := Z.max (Z.log2 (Qfloor y) - 52) 0 in
  (fl q == inject_Z (round_half_even (y / inject_Z (2 ^ s)) * 2 ^ s) / inject_Z (2 ^ 1074))%Q.
Proof.
  intros Hq y s. unfold fl.
  assert (Hy : (Qabs q * inject_Z (2 ^ 1074) == y)%Q) by (by rewrite (Qabs_pos q Hq)).
  rewrite (Qfloor_comp _ _ Hy). fold s.
  assert (Hr : (Qabs q * inject_Z (2 ^ 1074) / inject_Z (2 ^ s) == y / inject_Z (2 ^ s))%Q)
    by (by rewrite Hy).
  rewrite (round_half_even_comp _ _ Hr).
  destruct (Qle_lt_or_eq _ _ Hq) as [Hpos | Hzero].
  - assert (Z.sgn (Qnum q) = 1) as ->; [| by rewrite Z.mul_1_l].
    destruct q as [n d]. unfold Qlt in Hpos. simpl in *. lia.
  - assert (Hy0 : (y / inject_Z (2 ^ s) == inject_Z 0)%Q).
    { unfold y. rewrite <- Hzero. unfold Qdiv. change (inject_Z 0) with 0%Q. ring. }
    rewrite (round_half_even_comp _ _ Hy0), round_half_even_Z.
    by rewrite Z.mul_0_l, Z.mul_0_r.
Qed.

Lemma inject_Z_div_exact (K P : Z) :
  0 < P -> (P | K) -> (inject_Z K / inject_Z P == inject_Z (K / P))%Q.
Proof.
  intros HP [j ->]. rewrite Z.div_mul by lia. rewrite inject_Z_mult.
  assert (~ inject_Z P == 0)%Q.
  { change 0%Q with (inject_Z 0). rewrite inject_Z_injective. lia. }
  field. done.
Qed.

Lemma scale_cancel (q : Q) (e : Z) :
  0 <= e -> (q * inject_Z (2 ^ e) / inject_Z (2 ^ e) == q)%Q.
Proof.
  intros He. pose proof (pow2_pos e He). field. lra.
Qed.

Lemma unscale_cancel (K e : Z) :
  0 <= e -> (inject_Z K / inject_Z (2 ^ e) * inject_Z (2 ^ e) == inject_Z K)%Q.
Proof.
  intros He. pose proof (pow2_pos e He). field. lra.
Qed.

(** A number with at most 53 significant bits above the least exponent
    is left as it is. *)
Lemma fl_exact (M t : Z) :
  0 <= M < 2 ^ 53 -> 0 <= t ->
  (fl (inject_Z (M * 2 ^ t) / inject_Z (2 ^ 1074)) == inject_Z (M * 2 ^ t) / inject_Z (2 ^ 1074))%Q.
Proof.
  intros HM Ht.
  pose proof (pow2_pos 1074 ltac:(lia)) as HD.
  assert (HK : 0 <= M * 2 ^ t) by (apply Z.mul_nonneg_nonneg; [lia | apply Z.pow_nonneg; lia]).
  assert (Hq : (0 <= inject_Z (M * 2 ^ t) / inject_Z (2 ^ 1074))%Q).
  { apply Qle_shift_div_l; [exact HD |]. rewrite Qmult_0_l.
    change 0%Q with (inject_Z 0). by rewrite <- Zle_Qle. }
  rewrite (fl_nonneg _ Hq). cbv zeta.
  pose proof (unscale_cancel (M * 2 ^ t) 1074 ltac:(lia)) as Hy.
  rewrite (Qfloor_comp _ _ Hy), Qfloor_Z.
  set (s := Z.max (Z.log2 (M * 2 ^ t) - 52) 0).
  assert (Hs : 0 <= s) by lia.
  assert (Hdiv : (2 ^ s | M * 2 ^ t)).
  { destruct (Z.eq_dec M 0) as [-> | HM0]; [rewrite Z.mul_0_l; apply Z.divide_0_r |].
    assert (Hst : s <= t).
    { unfold s. rewrite Z.log2_mul_pow2 by lia.
      assert (Z.log2 M < 53) by (apply Z.log2_lt_pow2; lia). lia. }
    apply Z.divide_mul_r. exists (2 ^ (t - s)). rewrite <- Z.pow_add_r by lia. f_equal. lia. }
  assert (Hr : (inject_Z (M * 2 ^ t) / inject_Z (2 ^ 1074) * inject_Z (2 ^ 1074) / inject_Z (2 ^ s)
                == inject_Z (M * 2 ^ t / 2 ^ s))%Q).
  { rewrite Hy. apply inject_Z_div_exact; [apply Z.pow_pos_nonneg; lia | exact Hdiv]. }
  rewrite (round_half_even_comp _ _ Hr), round_half_even_Z.
  destruct Hdiv as [j Hj]. rewrite Hj, Z.div_mul by (pose proof (Z.pow_pos_nonneg 2 s); lia).
  reflexivity.
Qed.

(** Rounding a number below 1024: the error is at most half a unit in
    the last place of that range, and whole numbers are not crossed. *)
Lemma fl_small (q : Q) :
  (0 <= q)%Q -> (q < inject_Z 1024)%Q ->
  (fl q <= q + (1 # 2 ^ 44))%Q
  /\ (q - (1 # 2 ^ 44) <= fl q)%Q
  /\ (forall n : Z, (inject_Z n <= q)%Q -> (inject_Z n <= fl q)%Q)
  /\ (forall n : Z, (q <= inject_Z n)%Q -> (fl q <= inject_Z n)%Q).
Proof.
  intros Hq0 Hq1.
  pose proof (pow2_pos 1074 ltac:(lia)) as HD.
  pose proof (fl_nonneg q Hq0) as Hfl. cbv zeta in Hfl.
  set (y := (q * inject_Z (2 ^ 1074))%Q) in *.
  set (s := Z.max (Z.log2 (Qfloor y) - 52) 0) in *.
  assert (Hy0 : (0 <= y)%Q) by (unfold y; nra).
  assert (Hy1 : (y < inject_Z (2 ^ 1084))%Q).
  { change (2 ^ 1084) with (1024 * 2 ^ 1074). rewrite inject_Z_mult. unfold y. nra. }
  assert (Hs : 0 <= s <= 1031).
  { split; [lia |]. unfold s.
    assert (HF0 : 0 <= Qfloor y) by (rewrite <- (Qfloor_Z 0); by apply Qfloor_resp_le).
    assert (HF1 : Qfloor y < 2 ^ 1084).
    { rewrite Zlt_Qlt. pose proof (Qfloor_le y). lra. }
    destruct (Z.eq_dec (Qfloor y) 0) as [-> | Hne]; [simpl; lia |].
    assert (Z.log2 (Qfloor y) < 1084) by (apply Z.log2_lt_pow2; lia). lia. }
  pose proof (pow2_pos s ltac:(lia)) as HP.
  assert (Hsplit : inject_Z (2 ^ 1074) = inject_Z (2 ^ (1074 - s) * 2 ^ s)).
  { rewrite <- Z.pow_add_r by lia. do 2 f_equal. lia. }
  pose proof (round_half_even_bounds (y / inject_Z (2 ^ s))) as [Hdown Hup].
  set (r := round_half_even (y / inject_Z (2 ^ s))) in *.
  assert (Hhalf : (inject_Z (2 ^ s) <= 2 * inject_Z (2 ^ 1030))%Q).
  { change 2%Q with (inject_Z 2). rewrite <- inject_Z_mult, <- Zle_Qle.
    change (2 * 2 ^ 1030) with (2 ^ 1031). apply Z.pow_le_mono_r; lia. }
  assert (Hk : (inject_Z (r * 2 ^ s) <= y + inject_Z (2 ^ 1030))%Q).
  { rewrite inject_Z_mult.
    assert (Hmul : (inject_Z r * inject_Z (2 ^ s)
                    <= (y / inject_Z (2 ^ s) + (1 # 2)) * inject_Z (2 ^ s))%Q)
      by (apply Qmult_le_compat_r; lra).
    assert (Heq : ((y / inject_Z (2 ^ s) + (1 # 2)) * inject_Z (2 ^ s)
                   == y + (1 # 2) * inject_Z (2 ^ s))%Q) by (field; lra).
    lra. }
  assert (Hk' : (y - inject_Z (2 ^ 1030) <= inject_Z (r * 2 ^ s))%Q).
  { rewrite inject_Z_mult.
    assert (Hmul : ((y / inject_Z (2 ^ s) - (1 # 2)) * inject_Z (2 ^ s)
                    <= inject_Z r * inject_Z (2 ^ s))%Q)
      by (apply Qmult_le_compat_r; lra).
    assert (Heq : ((y / inject_Z (2 ^ s) - (1 # 2)) * inject_Z (2 ^ s)
                   == y - (1 # 2) * inject_Z (2 ^ s))%Q) by (field; lra).
    lra. }
  assert (Heps : ((1 # 2 ^ 44) * inject_Z (2 ^ 1074) == inject_Z (2 ^ 1030))%Q).
  { change (2 ^ 1074) with (2 ^ 44 * 2 ^ 1030). rewrite inject_Z_mult.
    change (inject_Z (2 ^ 44)) with (2 ^ 44 # 1)%Q.
    change (1 # 2 ^ 44)%Q with (/ (2 ^ 44 # 1))%Q. field. done. }
  split; [| split; [| split]].
  - rewrite Hfl. apply Qle_shift_div_r; [exact HD |].
    rewrite Qmult_plus_distr_l, Heps. fold y. exact Hk.
  - rewrite Hfl. apply Qle_shift_div_l; [exact HD |].
    assert (Heq : ((q - (1 # 2 ^ 44)) * inject_Z (2 ^ 1074) == y - inject_Z (2 ^ 1030))%Q).
    { unfold y. rewrite <- Heps. ring. }
    rewrite Heq. exact Hk'.
  - intros n Hn. rewrite Hfl. apply Qle_shift_div_l; [exact HD |].
    rewrite Hsplit, <- inject_Z_mult, Z.mul_assoc, <- Zle_Qle.
    apply Z.mul_le_mono_nonneg_r; [apply Z.pow_nonneg; lia |].
    apply round_half_even_ge. rewrite inject_Z_mult.
    apply Qle_shift_div_l; [exact HP |].
    rewrite <- Qmult_assoc, <- inject_Z_mult, <- Hsplit. unfold y. nra.
  - intros n Hn. rewrite Hfl. apply Qle_shift_div_r; [exact HD |].
    rewrite Hsplit, <- inject_Z_mult, Z.mul_assoc, <- Zle_Qle.
    apply Z.mul_le_mono_nonneg_r; [apply Z.pow_nonneg; lia |].
    apply round_half_even_le. rewrite inject_Z_mult.
    apply Qle_shift_div_r; [exact HP |].
    rewrite <- Qmult_assoc, <- inject_Z_mult, <- Hsplit. unfold y. nra.
Qed.

(** On the sample times, [fsub] and [fmul] give what the subtraction
    and the multiplication of [SpecFloat] give. *)
Example fl_agrees_with_SpecFloat :
  option_map Qred (SF2Q sf_0_29) = Some (Qred double_0_29)
  /\ option_map Qred (SF2Q sf_1_001) = Some (Qred (fl (1001 # 1000)))
  /\ option_map Qred (SF2Q sf_3725_4567) = Some (Qred double_3725_4567)
  /\ option_map Qred (SF2Q (SFmul 53 1024 sf_0_29 sf_1000))
     = Some (Qred (fmul double_0_29 (inject_Z 1000)))
  /\ option_map Qred (SF2Q (SFsub 53 1024 sf_1_001 sf_1))
     = Some (Qred (fsub (fl (1001 # 1000)) (inject_Z 1)))
  /\ option_map Qred (SF2Q (SFmul 53 1024 (SFsub 53 1024 sf_1_001 sf_1) sf_1000))
     = Some (Qred (fmul (fsub (fl (1001 # 1000)) (inject_Z 1)) (inject_Z 1000)))
  /\ option_map Qred (SF2Q (SFmul 53 1024 (SFsub 53 1024 sf_3725_4567 sf_3725) sf_1000))
     = Some (Qred (fmul (fsub double_3725_4567 (inject_Z 3725)) (inject_Z 1000))).
Proof. vm_compute. repeat split. Qed.

(** A non-negative double is a whole number of units of the least
    subnormal, with at most 53 significant bits. *)
Lemma is_double_repr (x : Q) :
  (0 <= x)%Q -> is_double x = true ->
  exists M t, 0 <= M < 2 ^ 53 /\ 0 <= t
              /\ (x == inject_Z (M * 2 ^ t) / inject_Z (2 ^ 1074))%Q.
Proof.
  intros Hx Hd. unfold is_double in Hd. apply andb_true_iff in Hd as [Hd _].
  apply Qeq_bool_iff in Hd.
  pose proof (pow2_pos 1074 ltac:(lia)) as HD.
  pose proof (fl_nonneg x Hx) as Hfl. cbv zeta in Hfl. rewrite Hd in Hfl.
  set (y := (x * inject_Z (2 ^ 1074))%Q) in *.
  set (s := Z.max (Z.log2 (Qfloor y) - 52) 0) in *.
  set (r := round_half_even (y / inject_Z (2 ^ s))) in *.
  assert (Hs : 0 <= s) by lia.
  pose proof (pow2_pos s Hs) as HP.
  assert (Hy0 : (0 <= y)%Q) by (unfold y; nra).
  assert (Hr0 : 0 <= r).
  { apply round_half_even_ge. apply Qle_shift_div_l; [exact HP |].
    change (inject_Z 0) with 0%Q. lra. }
  assert (Hr1 : r <= 2 ^ 53).
  { apply round_half_even_le. apply Qle_shift_div_r; [exact HP |].
    rewrite <- inject_Z_mult, <- Z.pow_add_r by lia.
    assert (HF0 : 0 <= Qfloor y) by (rewrite <- (Qfloor_Z 0); by apply Qfloor_resp_le).
    pose proof (Qlt_floor y) as Hlt.
    assert (Hpow : Qfloor y + 1 <= 2 ^ (53 + s)).
    { destruct (Z.eq_dec (Qfloor y) 0) as [-> | Hne].
      - pose proof (Z.pow_pos_nonneg 2 (53 + s)). lia.
      - pose proof (Z.log2_spec (Qfloor y) ltac:(lia)) as [_ Hlog].
        assert (2 ^ Z.succ (Z.log2 (Qfloor y)) <= 2 ^ (53 + s))
          by (apply Z.pow_le_mono_r; lia).
        lia. }
    rewrite Zle_Qle in Hpow. lra. }
  destruct (Z.eq_dec r (2 ^ 53)) as [Heq | Hne].
  - exists (2 ^ 52), (s + 1).
    split; [split; [apply Z.pow_nonneg; lia | apply Z.pow_lt_mono_r; lia] |].
    split; [lia |].
    replace (2 ^ 52 * 2 ^ (s + 1)) with (r * 2 ^ s); [exact Hfl |].
    rewrite Heq, (Z.pow_add_r 2 s 1) by lia. change (2 ^ 53) with (2 ^ 52 * 2 ^ 1). ring.
  - exists r, s. split; [lia |]. split; [lia |]. exact Hfl.
Qed.

Lemma Qfloor_unique (q : Q) (n : Z) :
  (inject_Z n <= q)%Q -> (q < inject_Z (n + 1))%Q -> Qfloor q = n.
Proof.
  intros Hlo Hhi.
  pose proof (Qfloor_le q) as Hf. pose proof (Qlt_floor q) as Hg.
  assert (n < Qfloor q + 1) by (rewrite Zlt_Qlt; lra).
  assert (Qfloor q < n + 1) by (rewrite Zlt_Qlt; lra).
  lia.
Qed.

Lemma Qfloor_div_pow2 (M u : Z) :
  0 <= u -> Qfloor (inject_Z M / inject_Z (2 ^ u)) = M / 2 ^ u.
Proof.
  intros Hu. pose proof (pow2_pos u Hu) as HP.
  pose proof (Z.pow_pos_nonneg 2 u ltac:(lia) Hu) as HPz.
  pose proof (Z.div_mod M (2 ^ u) ltac:(lia)) as Hdm.
  pose proof (Z.mod_pos_bound M (2 ^ u) HPz) as Hmod.
  apply Qfloor_unique.
  - apply Qle_shift_div_l; [exact HP |]. rewrite <- inject_Z_mult, <- Zle_Qle. lia.
  - apply Qlt_shift_div_r; [exact HP |]. rewrite <- inject_Z_mult, <- Zlt_Qlt. lia.
Qed.

Lemma fl_0 : (fl 0 == 0)%Q.
Proof. vm_compute. reflexivity. Qed.

(** The whole part and the fraction of a non-negative double are doubles:
    converting the one and subtracting it are exact; the fraction is at
    most [1 - 2^-53]. *)
Lemma double_fraction (x : Q) :
  (0 <= x)%Q -> is_double x = true ->
  (fl (inject_Z (Qfloor x)) == inject_Z (Qfloor x))%Q
  /\ (fl (x - inject_Z (Qfloor x)) == x - inject_Z (Qfloor x))%Q
  /\ (x - inject_Z (Qfloor x) <= 1 - (1 # 2 ^ 53))%Q.
Proof.
  intros Hx Hd. destruct (is_double_repr x Hx Hd) as (M & t & HM & Ht & Hrep).
  pose proof (pow2_pos 1074 ltac:(lia)) as HD.
  destruct (Z_le_gt_dec 1074 t) as [Hbig | Hsmall].
  - (* a whole number *)
    assert (Hdiv : (2 ^ 1074 | M * 2 ^ t)).
    { apply Z.divide_mul_r. exists (2 ^ (t - 1074)).
      rewrite <- Z.pow_add_r by lia. f_equal. lia. }
    assert (HDz : 0 < 2 ^ 1074) by (apply Z.pow_pos_nonneg; lia).
    rewrite (inject_Z_div_exact (M * 2 ^ t) (2 ^ 1074) HDz Hdiv) in Hrep.
    set (N := M * 2 ^ t / 2 ^ 1074) in *.
    assert (Hfloor : Qfloor x = N) by (by rewrite (Qfloor_comp _ _ Hrep), Qfloor_Z).
    rewrite Hfloor.
    assert (Hfrac : (x - inject_Z N == 0)%Q) by (rewrite Hrep; ring).
    split; [| split].
    + rewrite <- Hrep. unfold is_double in Hd. apply andb_true_iff in Hd as [Hd _].
      by apply Qeq_bool_iff in Hd.
    + rewrite Hfrac. exact fl_0.
    + rewrite Hfrac. done.
  - set (u := 1074 - t).
    assert (Hu : 0 < u) by (unfold u; lia).
    pose proof (pow2_pos u ltac:(lia)) as HP.
    pose proof (pow2_pos t Ht) as HT.
    pose proof (Z.pow_pos_nonneg 2 u ltac:(lia) ltac:(lia)) as HPz.
    assert (HDsplit : inject_Z (2 ^ 1074) = inject_Z (2 ^ t * 2 ^ u)).
    { rewrite <- Z.pow_add_r by lia. do 2 f_equal. unfold u. lia. }
    assert (Hx' : (x == inject_Z M / inject_Z (2 ^ u))%Q).
    { rewrite Hrep, HDsplit, !inject_Z_mult. field. lra. }
    assert (Hfloor : Qfloor x = M / 2 ^ u).
    { rewrite (Qfloor_comp _ _ Hx'). apply Qfloor_div_pow2. lia. }
    rewrite Hfloor.
    pose proof (Z.div_mod M (2 ^ u) ltac:(lia)) as Hdm.
    pose proof (Z.mod_pos_bound M (2 ^ u) HPz) as Hmod.
    assert (HW : 0 <= M / 2 ^ u <= M).
    { split; [apply Z.div_pos; lia |]. apply Z.div_le_upper_bound; [lia |]. nia. }
    assert (Hfrac : (x - inject_Z (M / 2 ^ u)
                     == inject_Z (M mod 2 ^ u * 2 ^ t) / inject_Z (2 ^ 1074))%Q).
    { rewrite Hx', HDsplit, !inject_Z_mult.
      assert (HMq : (inject_Z M == inject_Z (2 ^ u) * inject_Z (M / 2 ^ u)
                                  + inject_Z (M mod 2 ^ u))%Q).
      { rewrite <- inject_Z_mult, <- inject_Z_plus. by rewrite <- Hdm. }
      rewrite HMq. field. lra. }
    split; [| split].
    + assert (Hw : (inject_Z (M / 2 ^ u)
                    == inject_Z (M / 2 ^ u * 2 ^ 1074) / inject_Z (2 ^ 1074))%Q).
      { rewrite inject_Z_mult. field. lra. }
      rewrite Hw. apply fl_exact; lia.
    + rewrite Hfrac. apply fl_exact; [| lia].
      split; [lia |]. pose proof (Z.mod_le M (2 ^ u) ltac:(lia) HPz). lia.
    + assert (Hfrac' : (x - inject_Z (M / 2 ^ u)
                        == inject_Z (M mod 2 ^ u) / inject_Z (2 ^ u))%Q).
      { rewrite Hfrac, HDsplit, !inject_Z_mult. field. lra. }
      rewrite Hfrac'. apply Qle_shift_div_r; [exact HP |].
      assert (Hz : (M mod 2 ^ u) * 2 ^ 53 <= (2 ^ 53 - 1) * 2 ^ u).
      { destruct (Z_le_gt_dec u 53) as [Hle | Hgt].
        - assert (2 ^ u <= 2 ^ 53) by (apply Z.pow_le_mono_r; lia). nia.
        - assert (2 ^ 54 <= 2 ^ u) by (apply Z.pow_le_mono_r; lia).
          pose proof (Z.mod_le M (2 ^ u) ltac:(lia) HPz).
          assert (M mod 2 ^ u < 2 ^ 53) by lia.
          change (2 ^ 54) with (2 * 2 ^ 53) in *.
          change (2 ^ 53) with 9007199254740992 in *. nia. }
      assert (Hq : ((1 - (1 # 2 ^ 53)) * inject_Z (2 ^ u)
                    == inject_Z ((2 ^ 53 - 1) * 2 ^ u) / inject_Z (2 ^ 53))%Q).
      { rewrite inject_Z_mult.
        change (inject_Z (2 ^ 53 - 1)) with (inject_Z (2 ^ 53) - 1)%Q.
        change (inject_Z (2 ^ 53)) with (2 ^ 53 # 1)%Q.
        change (1 # 2 ^ 53)%Q with (/ (2 ^ 53 # 1))%Q. field. done. }
      rewrite Hq. apply Qle_shift_div_l; [by apply pow2_pos |].
      rewrite <- inject_Z_mult, <- Zle_Qle. exact Hz.
Qed.

(** The milliseconds: the fraction times 1000, rounded to a double and
    truncated. *)
Lemma milliseconds_bounds (frac : Q) :
  (0 <= frac)%Q -> (frac <= 1 - (1 # 2 ^ 53))%Q ->
  let exact := (frac * inject_Z 1000)%Q in
  let product := fmul frac (inject_Z 1000) in
  (exact - (1 # 2 ^ 44) <= product)%Q /\ (product <= exact + (1 # 2 ^ 44))%Q
  /\ Qfloor exact <= Qfloor product <= Qfloor exact + 1
  /\ (Qfloor product = Qfloor exact + 1 -> (product == inject_Z (Qfloor exact + 1))%Q)
  /\ 0 <= Qfloor product < 1000.
Proof.
  intros H0 H1 exact product.
  change (1 # 2 ^ 53)%Q with (1 # 9007199254740992)%Q in H1.
  assert (He0 : (0 <= exact)%Q) by (unfold exact; change (inject_Z 1000) with 1000%Q; lra).
  assert (He1 : (exact <= 1000 - (1000 # 9007199254740992))%Q)
    by (unfold exact; change (inject_Z 1000) with 1000%Q; lra).
  destruct (fl_small exact He0) as (Hup & Hdown & Hge & Hle).
  { change (inject_Z 1024) with 1024%Q. lra. }
  assert (Hpe : product = fl exact) by reflexivity. clearbody product. subst product.
  pose proof (Qfloor_le exact) as Hfe. pose proof (Qlt_floor exact) as Hge'.
  pose proof (Hge (Qfloor exact) Hfe) as Hlo.
  pose proof (Hle (Qfloor exact + 1) ltac:(lra)) as Hhi.
  pose proof (Qfloor_le (fl exact)) as Hfp. pose proof (Qlt_floor (fl exact)) as Hgp.
  assert (Hp0 : (0 <= fl exact)%Q) by (apply (Hge 0); exact He0).
  assert (Hms0 : 0 <= Qfloor (fl exact)) by (rewrite <- (Qfloor_Z 0); by apply Qfloor_resp_le).
  assert (Hlow : Qfloor exact <= Qfloor (fl exact)).
  { rewrite <- (Qfloor_Z (Qfloor exact)). by apply Qfloor_resp_le. }
  assert (Hhigh : Qfloor (fl exact) <= Qfloor exact + 1).
  { rewrite <- (Qfloor_Z (Qfloor exact + 1)). by apply Qfloor_resp_le. }
  split; [exact Hdown |]. split; [exact Hup |]. split; [lia |]. split; [| split; [exact Hms0 |]].
  - intros Heq. rewrite Heq in Hfp. by apply Qle_antisym.
  - rewrite Zlt_Qlt. change (1 # 2 ^ 44)%Q with (1 # 17592186044416)%Q in Hup.
    change (inject_Z 1000) with 1000%Q. lra.
Qed.

End Floats.

Section TimeStamps.

Local Open Scope Z_scope.

Lemma py_trunc_nonneg (x : Q) : (0 <= x)%Q -> py_trunc x = Qfloor x.
Proof.
  destruct x as [n d]. unfold Qle, py_trunc, Qfloor. simpl. intros Hn.
  apply Z.quot_div_nonneg; lia.
Qed.

Lemma format_0wd_nonneg (w : nat) (n : Z) : 0 <= n -> format_0wd w n = zero_pad w n.
Proof.
  intros Hn. unfold format_0wd, zero_pad.
  destruct (Z.ltb_spec n 0) as [Hlt | _]; [lia |].
  assert (Z.abs_N n = Z.to_N n) as -> by (destruct n; [reflexivity .. | lia]).
  simpl. by rewrite Nat.sub_0_r.
Qed.

Lemma zero_pad_length_table (w : nat) (bound : nat) :
  forallb (fun k => Nat.eqb (String.length (zero_pad w (Z.of_nat k))) w) (seq 0 bound) = true ->
  forall n, 0 <= n < Z.of_nat bound -> String.length (zero_pad w n) = w.
Proof.
  intros Htab n Hn. rewrite forallb_forall in Htab.
  specialize (Htab (Z.to_nat n)).
  rewrite Z2Nat.id in Htab by lia.
  apply Nat.eqb_eq, Htab, in_seq. lia.
Qed.

Lemma zero_pad_2_length (n : Z) : 0 <= n < 100 -> String.length (zero_pad 2 n) = 2%nat.
Proof. apply (zero_pad_length_table 2 100). vm_compute. reflexivity. Qed.

Lemma zero_pad_3_length (n : Z) : 0 <= n < 1000 -> String.length (zero_pad 3 n) = 3%nat.
Proof. apply (zero_pad_length_table 3 1000). vm_compute. reflexivity. Qed.

Lemma frac_bounds (x : Q) :
  (0 <= x - inject_Z (Qfloor x))%Q /\ (x - inject_Z (Qfloor x) < 1)%Q.
Proof.
  pose proof (Qfloor_le x) as Hlo. pose proof (Qlt_floor x) as Hhi.
  rewrite inject_Z_plus in Hhi. change (inject_Z 1) with 1%Q in Hhi.
  split; lra.
Qed.

(** A double is the number Python holds for it. *)
Lemma py_number_double (x : Q) : is_double x = true -> (py_number x == x)%Q.
Proof.
  intros Hd. unfold py_number. destruct (is_whole x); [reflexivity |].
  unfold is_double in Hd. apply andb_true_iff in Hd as [Hd _]. by apply Qeq_bool_iff.
Qed.

Lemma is_whole_Z (n : Z) : is_whole (inject_Z n) = true.
Proof.
  unfold is_whole, inject_Z, Qred.
  pose proof (Z.ggcd_gcd n 1) as Hg. pose proof (Z.ggcd_correct_divisors n 1) as Hc.
  destruct (Z.ggcd n 1) as [g [aa bb]]. cbn [fst] in Hg. destruct Hc as [_ Hb].
  rewrite Z.gcd_1_r in Hg. subst g. rewrite Z.mul_1_l in Hb. by subst bb.
Qed.

(** The conversions of [decimal_to_vtt_time] from int to float change
    nothing: 1000 is a double, and so is the whole part of a double. *)
Lemma conversions_exact (x : Q) :
  (0 <= x)%Q -> is_double x = true ->
  (fl (inject_Z 1000) == inject_Z 1000)%Q
  /\ (fl (inject_Z (py_trunc x)) == inject_Z (py_trunc x))%Q.
Proof.
  intros Hx Hd. split; [vm_compute; reflexivity |].
  rewrite (py_trunc_nonneg x Hx). by destruct (double_fraction x Hx Hd) as (Hw & _).
Qed.

(** The time stamp of a non-negative double, field by field: the whole
    seconds, and the milliseconds that the two float operations give. *)
Lemma decimal_to_vtt_time_double (x : Q) :
  (0 <= x)%Q -> is_double x = true ->
  let whole := Qfloor x in
  let frac := (x - inject_Z whole)%Q in
  let ms := Qfloor (fmul frac (inject_Z 1000)) in
  (fsub x (inject_Z whole) == frac)%Q
  /\ 0 <= whole /\ 0 <= ms < 1000
  /\ decimal_to_vtt_time x =
       zero_pad 2 (whole / 3600) +:+ ":" +:+ zero_pad 2 ((whole mod 3600) / 60) +:+ ":" +:+
       zero_pad 2 (whole mod 60) +:+ "." +:+ zero_pad 3 ms.
Proof.
  intros Hx Hd whole frac ms.
  destruct (double_fraction x Hx Hd) as (_ & Hexact & Hfrac).
  destruct (frac_bounds x) as [Hf0 _].
  fold whole in Hexact, Hfrac, Hf0. fold frac in Hexact, Hfrac, Hf0.
  destruct (milliseconds_bounds frac Hf0 Hfrac) as (_ & _ & _ & _ & Hms).
  fold ms in Hms.
  assert (Hwhole : 0 <= whole).
  { change 0 with (Qfloor 0). by apply Qfloor_resp_le. }
  assert (Hsub : (fsub x (inject_Z whole) == frac)%Q) by exact Hexact.
  split; [exact Hsub |]. split; [exact Hwhole |]. split; [exact Hms |].
  unfold decimal_to_vtt_time. cbv zeta.
  pose proof (py_number_double x Hd) as Hnum.
  assert (Hx' : (0 <= py_number x)%Q) by (by rewrite Hnum).
  rewrite (py_trunc_nonneg _ Hx'), (Qfloor_comp _ _ Hnum). fold whole.
  assert (Hprod : (fmul (fsub (py_number x) (inject_Z whole)) (inject_Z 1000)
                   == fmul frac (inject_Z 1000))%Q).
  { unfold fmul. apply fl_comp.
    assert (Hsub' : (fsub (py_number x) (inject_Z whole) == frac)%Q).
    { rewrite <- Hsub. unfold fsub. apply fl_comp. by rewrite Hnum. }
    by rewrite Hsub'. }
  assert (Hp0 : (0 <= fmul (fsub (py_number x) (inject_Z whole)) (inject_Z 1000))%Q).
  { rewrite Hprod. pose proof (Qfloor_le (fmul frac (inject_Z 1000))) as Hle.
    fold ms in Hle. assert (0 <= inject_Z ms)%Q by (change 0%Q with (inject_Z 0); rewrite <- Zle_Qle; lia).
    lra. }
  rewrite (py_trunc_nonneg _ Hp0), (Qfloor_comp _ _ Hprod). fold ms.
  assert (Hm : 0 <= (whole mod 3600) / 60).
  { pose proof (Z.mod_pos_bound whole 3600 ltac:(lia)). apply Z.div_pos; lia. }
  assert (Hs : 0 <= whole mod 60) by (apply Z.mod_pos_bound; lia).
  assert (Hh : 0 <= whole / 3600) by (apply Z.div_pos; lia).
  by rewrite !format_0wd_nonneg by lia.
Qed.

(** The time stamp of a non-negative int: the arithmetic is exact and
    the milliseconds are 0. *)
Lemma decimal_to_vtt_time_int (n : Z) :
  0 <= n ->
  decimal_to_vtt_time (inject_Z n) =
    zero_pad 2 (n / 3600) +:+ ":" +:+ zero_pad 2 ((n mod 3600) / 60) +:+ ":" +:+
    zero_pad 2 (n mod 60) +:+ "." +:+ "000".
Proof.
  intros Hn. unfold decimal_to_vtt_time, py_number. rewrite is_whole_Z. cbv zeta.
  assert (Hq : (0 <= inject_Z n)%Q) by (change 0%Q with (inject_Z 0); by rewrite <- Zle_Qle).
  rewrite (py_trunc_nonneg _ Hq), Qfloor_Z.
  assert (Hsub : (fsub (inject_Z n) (inject_Z n) == 0)%Q).
  { unfold fsub. rewrite <- fl_0. apply fl_comp. ring. }
  assert (Hprod : (fmul (fsub (inject_Z n) (inject_Z n)) (inject_Z 1000) == 0)%Q).
  { unfold fmul. rewrite <- fl_0. apply fl_comp. rewrite Hsub. ring. }
  rewrite py_trunc_nonneg by (rewrite Hprod; done).
  rewrite (Qfloor_comp _ _ Hprod). change (Qfloor 0) with 0.
  assert (Hm : 0 <= (n mod 3600) / 60).
  { pose proof (Z.mod_pos_bound n 3600 ltac:(lia)). apply Z.div_pos; lia. }
  assert (Hs : 0 <= n mod 60) by (apply Z.mod_pos_bound; lia).
  assert (Hh : 0 <= n / 3600) by (apply Z.div_pos; lia).
  by rewrite !format_0wd_nonneg by lia.
Qed.

(** C4, amended: for a non-negative double the result is [HH:MM:SS.mmm],
    where the first three fields come from the whole seconds by integer
    division and are zero-padded to two digits, and the milliseconds,
    zero-padded to three digits, are the product of the fractional part
    and 1000, rounded to a double, and then truncated.  The subtraction
    that gives the fractional part is exact; the product is off by at most
    [2^-44]; so the milliseconds are those of the exact product truncated,
    or one more, the latter only when the product rounds up to a whole
    number.  The double 3725.4567 gives 01:02:05.456. *)
Theorem decimal_to_vtt_time_fields (x : Q) :
  (0 <= x)%Q -> is_double x = true ->
  let whole := Qfloor x in
  let frac := (x - inject_Z whole)%Q in
  let product := fmul frac (inject_Z 1000) in
  let ms := Qfloor product in
  let h := whole / 3600 in
  let m := (whole mod 3600) / 60 in
  let s := whole mod 60 in
  decimal_to_vtt_time x =
    zero_pad 2 h +:+ ":" +:+ zero_pad 2 m +:+ ":" +:+ zero_pad 2 s +:+ "." +:+ zero_pad 3 ms
  /\ (inject_Z whole <= x)%Q /\ (x < inject_Z (whole + 1))%Q
  /\ (fsub x (inject_Z whole) == frac)%Q
  /\ (frac * inject_Z 1000 - (1 # 2 ^ 44) <= product)%Q
  /\ (product <= frac * inject_Z 1000 + (1 # 2 ^ 44))%Q
  /\ Qfloor (frac * inject_Z 1000) <= ms <= Qfloor (frac * inject_Z 1000) + 1
  /\ (ms = Qfloor (frac * inject_Z 1000) + 1 -> (product == inject_Z ms)%Q)
  /\ 0 <= h /\ 0 <= m < 60 /\ 0 <= s < 60 /\ 0 <= ms < 1000
  /\ whole = h * 3600 + m * 60 + s
  /\ String.length (zero_pad 2 m) = 2%nat
  /\ String.length (zero_pad 2 s) = 2%nat
  /\ String.length (zero_pad 3 ms) = 3%nat
  /\ (h < 100 -> String.length (decimal_to_vtt_time x) = 12%nat)
  /\ decimal_to_vtt_time double_3725_4567 = "01:02:05.456".
Proof.
  intros Hx Hd whole frac product ms h m s.
  destruct (decimal_to_vtt_time_double x Hx Hd) as (Hsub & Hwhole & Hms & Heq).
  fold whole in Hsub, Hwhole, Hms, Heq. fold frac in Hsub, Hms, Heq.
  fold product in Hms, Heq. fold ms in Hms, Heq. fold h in Heq. fold m in Heq. fold s in Heq.
  destruct (double_fraction x Hx Hd) as (_ & _ & Hfrac).
  destruct (frac_bounds x) as [Hf0 _].
  fold whole in Hfrac, Hf0. fold frac in Hfrac, Hf0.
  destruct (milliseconds_bounds frac Hf0 Hfrac) as (Hdown & Hup & Hnear & Hone & _).
  fold product in Hdown, Hup, Hnear, Hone. fold ms in Hnear, Hone.
  assert (Hh : 0 <= h) by (apply Z.div_pos; lia).
  assert (Hm : 0 <= m < 60).
  { unfold m. pose proof (Z.mod_pos_bound whole 3600 ltac:(lia)).
    split; [apply Z.div_pos; lia | apply Z.div_lt_upper_bound; lia]. }
  assert (Hs : 0 <= s < 60) by (apply Z.mod_pos_bound; lia).
  pose proof (zero_pad_2_length m ltac:(lia)) as Lm.
  pose proof (zero_pad_2_length s ltac:(lia)) as Ls.
  pose proof (zero_pad_3_length ms ltac:(lia)) as Lms.
  split; [exact Heq |]. split; [apply Qfloor_le |]. split; [apply Qlt_floor |].
  split; [exact Hsub |]. split; [exact Hdown |]. split; [exact Hup |].
  split; [exact Hnear |]. split.
  { intros Hplus. rewrite Hplus. by apply Hone. }
  split; [exact Hh |]. split; [exact Hm |]. split; [exact Hs |]. split; [exact Hms |].
  split.
  { unfold h, m, s. pose proof (Z.div_mod whole 3600 ltac:(lia)).
    pose proof (Z.div_mod (whole mod 3600) 60 ltac:(lia)).
    pose proof (Z.mod_mod_divide whole 3600 60 ltac:(exists 60; lia)).
    lia. }
  split; [exact Lm |]. split; [exact Ls |]. split; [exact Lms |]. split.
  - intros Hh100. rewrite Heq.
    pose proof (zero_pad_2_length h ltac:(lia)) as Lh.
    rewrite !string_length_app, Lh, Lm, Ls, Lms. reflexivity.
  - vm_compute. reflexivity.
Qed.

(** The statement applied to the double 3725.4567. *)
Lemma decimal_to_vtt_time_fields_witness :
  decimal_to_vtt_time double_3725_4567 = "01:02:05.456"
  /\ (0 <= Qfloor (fmul (double_3725_4567 - inject_Z (Qfloor double_3725_4567))
                        (inject_Z 1000)) < 1000).
Proof.
  pose proof (decimal_to_vtt_time_fields double_3725_4567
                ltac:(vm_compute; discriminate) ltac:(vm_compute; reflexivity)) as H.
  cbv zeta in H. split; [apply H | apply H].
Defined.

(** C4 as stated fails, whether the number of seconds is taken to be
    the double or the decimal number it stands for.  The double 0.29 lies
    below 29/100: the product of its fraction and 1000 truncates to 289,
    and the program, which rounds the product first, prints 290.  The
    number 1.001, whose fraction times 1000 is 1, reaches the program as
    the nearest double, which lies below it, and the program prints
    000. *)
Lemma product_rounded_before_truncation :
  is_double double_0_29 = true
  /\ (0 <= double_0_29)%Q
  /\ Qfloor ((double_0_29 - inject_Z (Qfloor double_0_29)) * inject_Z 1000) = 289
  /\ decimal_to_vtt_time double_0_29 = "00:00:00.290"
  /\ Qfloor (((1001 # 1000) - inject_Z (Qfloor (1001 # 1000))) * inject_Z 1000) = 1
  /\ decimal_to_vtt_time (1001 # 1000) = "00:00:01.000"
  /\ decimal_to_vtt_time (fl (1001 # 1000)) = "00:00:01.000".
Proof. vm_compute. repeat split; discriminate. Qed.

End TimeStamps.

(** ** The monad *)

Lemma bind_run {A B : Type} (m : M A) (f : A -> M B) (c : cursor) :
  (m ≫= f) c =
  match m c with
  | (evs, c', inl e) => (evs, c', inl e)
  | (evs, c', inr a) =>
      match f a c' with
      | (evs', c'', r) => (evs ++ evs', c'', r)
      end
  end.
Proof. reflexivity. Qed.

Lemma requests_app (a b : list event) : requests (a ++ b) = requests a ++ requests b.
Proof. apply omap_app. Qed.

Lemma writes_app (a b : list event) : writes (a ++ b) = writes a ++ writes b.
Proof. apply omap_app. Qed.

Lemma sleep_nonneg (d : Q) (c : cursor) :
  (0 <= d)%Q -> sleep d c = ([EvSleep d], c, inr tt).
Proof.
  intros Hd. unfold sleep.
  destruct (Qle_bool 0 d) eqn:E; [reflexivity |].
  apply Qle_bool_iff in Hd. congruence.
Qed.

(** ** BackoffFetcher *)

(** The notice shows the double: with the jitter 0.015 the sum is the
    double below 1.015 and reads 1.01, where the exact sum would read
    1.02. *)
Example retry_notice_of_double :
  format_2f (delay_double 1 0 (15 # 1000)) = "1.01"
  /\ format_2f (1 + (15 # 1000)) = "1.02".
Proof. vm_compute. repeat split. Qed.

Section Backoff.

Variable w : world.
Variable url : string.
Variable max_retries : Z.
Variable initial_delay : Q.

Hypothesis jitter_ok : jitter_in_range w.
Hypothesis delay_ok : (1 <= initial_delay)%Q.




Abbreviation attempts_from i :=
  (fetch_attempts w url max_retries initial_delay
     (seqZ (Z.of_nat i) (max_retries - Z.of_nat i))).









End Backoff.



(** ** TranscriptTranscoder *)

Lemma decode_cue_fields (v : json) (c : Cue) :
  decode_cue v = Some c ->
  exists t a b flag,
    getitem v "time" = inr t
    /\ getitem t "start" = inr a /\ seconds_of a = Some (startTime c)
    /\ getitem t "end" = inr b /\ seconds_of b = Some (endTime c)
    /\ getitem v "text" = inr (JStr (text c))
    /\ getitem v "newParagraph" = inr flag
    /\ truthy flag = startsNewParagraph c.
Proof.
  unfold decode_cue. intros H.
  destruct (getitem v "time") as [? | t] eqn:Ht; [discriminate |].
  destruct (getitem v "text") as [? | [| | | | s | |]] eqn:Hs; try discriminate.
  destruct (getitem v "newParagraph") as [? | flag] eqn:Hf; [discriminate |].
  destruct (getitem t "start") as [? | a] eqn:Hta; [discriminate |].
  destruct (getitem t "end") as [? | b] eqn:Htb; [discriminate |].
  destruct (seconds_of a) as [x |] eqn:Ha; [| discriminate].
  destruct (seconds_of b) as [y |] eqn:Hb; [| discriminate].
  injection H as <-. exists t, a, b, flag. by repeat split.
Qed.

Lemma decimal_to_vtt_time_dyn_seconds (v : json) (x : Q) :
  seconds_of v = Some x -> decimal_to_vtt_time_dyn v = inr (decimal_to_vtt_time x).
Proof.
  destruct v; simpl; intros H; try discriminate; by injection H as <-.
Qed.

Lemma join_cons (s : string) (l : list string) : join (s :: l) = s +:+ join l.
Proof. reflexivity. Qed.

Lemma join_app (l1 l2 : list string) : join (l1 ++ l2) = join l1 +:+ join l2.
Proof.
  induction l1 as [| s l1 IH]; [reflexivity |].
  rewrite <- app_comm_cons, !join_cons, IH. by rewrite string_app_assoc.
Qed.

(** One turn of the loop on a cue of the expected shape. *)
Lemma transcode_from_cons (w : world) (idx : Z) (v : json) (rest : list json)
    (c : Cue) (vtt raw : string) :
  decode_cue v = Some c ->
  transcode_from w idx (v :: rest) vtt raw =
  transcode_from w (idx + 1) rest
    (vtt +:+ cue_block idx c)
    (raw +:+ ((if startsNewParagraph c then nl else "") +:+ text c)).
Proof.
  intros Hc.
  destruct (decode_cue_fields v c Hc)
    as (t & a & b & flag & Ht & Ha & Hx & Hb & Hy & Htext & Hflag & Htruthy).
  simpl. unfold mbind, result_bind.
  rewrite Ht, Ha, (decimal_to_vtt_time_dyn_seconds a _ Hx).
  rewrite Hb, (decimal_to_vtt_time_dyn_seconds b _ Hy).
  rewrite Htext, Hflag. simpl. rewrite Htruthy.
  f_equal.
  - unfold cue_block. by rewrite !string_app_assoc.
  - destruct (startsNewParagraph c); [by rewrite string_app_assoc | reflexivity].
Qed.

Lemma transcode_from_decoded (w : world) (vs : list json) (cues : list Cue) :
  Forall2 (fun v c => decode_cue v = Some c) vs cues ->
  forall (idx : Z) (vtt raw : string),
    transcode_from w idx vs vtt raw =
    inr (vtt +:+ join (zip_with cue_block (seqZ idx (Z.of_nat (length cues))) cues),
         raw +:+ plain_text cues).
Proof.
  induction 1 as [| v c vs cues Hc _ IH]; intros idx vtt raw.
  - simpl. by rewrite !string_app_nil_r.
  - rewrite (transcode_from_cons w idx v vs c vtt raw Hc), IH.
    rewrite (seqZ_cons idx) by (simpl; lia).
    replace (Z.pred (Z.of_nat (length (c :: cues)))) with (Z.of_nat (length cues))
      by (simpl; lia).
    replace (Z.succ idx) with (idx + 1) by lia.
    simpl zip_with. unfold plain_text. simpl map. rewrite !join_cons.
    by rewrite !string_app_assoc.
Qed.

Lemma transcode_decoded (w : world) (vs : list json) (cues : list Cue) :
  Forall2 (fun v c => decode_cue v = Some c) vs cues ->
  transcode w vs = inr (subtitle_text cues, plain_text cues).
Proof.
  intros H. unfold transcode. rewrite (transcode_from_decoded w vs cues H).
  unfold subtitle_text. by rewrite !string_app_assoc.
Qed.

(** [process_video] on a transcript of the expected shape: after the
    fetch, the directory is made and the two files are written. *)
(** [process_video_on], step by step: the fetch, the transcoding, and
    then the operations on the disk up to the first that fails. *)
Lemma process_video_on_run (d : disk) (w : world) (video : Video) (c : cursor) :
  process_video_on d w video c =
  match fetch_with_backoff w (transcript_url video) 5 1 c with
  | (evs, c1, inl e) => (evs, c1, inl e)
  | (evs, c1, inr transcript_data) =>
      match (data ← getitem transcript_data "data";
             cues ← getitem data "cues";
             cues ← py_iter cues;
             transcode w cues) with
      | inl e => (evs, c1, inl e)
      | inr out =>
          (evs ++ done_steps d (disk_steps w video (fst out) (snd out)), c1,
           match first_failure d (disk_steps w video (fst out) (snd out)) with
           | Some e => inl e
           | None => inr tt
           end)
      end
  end.
Proof.
  unfold process_video_on. rewrite bind_run.
  destruct (fetch_with_backoff w (transcript_url video) 5 1 c) as [[evs c1] [e | body]];
    [reflexivity |].
  rewrite bind_run. unfold lift at 1.
  destruct (getitem body "data" ≫= _) as [e | out].
  - by rewrite app_nil_r.
  - unfold write_file, fs_step, disk_steps, done_steps, first_failure.
    unfold mbind, M_bind, emit, raise.
    destruct (d (Makedirs "transcripts")); [by rewrite ?app_nil_r |].
    destruct (d (Open (output_path w video ".vtt"))); [reflexivity |].
    destruct (d (Write (output_path w video ".vtt") (fst out))); [reflexivity |].
    destruct (d (Open (output_path w video ".txt"))); [reflexivity |].
    destruct (d (Write (output_path w video ".txt") (snd out))); reflexivity.
Qed.

(** [process_video] on a transcript of the expected shape: after the
    fetch, the directory is made and the two files are written. *)
Lemma process_video_decoded (w : world) (video : Video) (c c' : cursor)
    (evs : list event) (body data : json) (vs : list json) (cues : list Cue) :
  fetch_with_backoff w (transcript_url video) 5 1 c = (evs, c', inr body) ->
  getitem body "data" = inr data ->
  getitem data "cues" = inr (JList vs) ->
  Forall2 (fun v c => decode_cue v = Some c) vs cues ->
  process_video w video c =
    (evs ++ disk_events w video (subtitle_text cues) (plain_text cues), c', inr tt).
Proof.
  intros Hfetch Hdata Hcues Hdec. unfold process_video.
  rewrite process_video_on_run, Hfetch.
  unfold mbind at 1 2 3, result_bind. rewrite Hdata, Hcues. simpl py_iter. cbv iota beta.
  rewrite (transcode_decoded w vs cues Hdec).
  reflexivity.
Qed.

(** C6: the plain text is the texts of the cues in order, with nothing
    between them except a newline before the text of each cue whose
    paragraph flag is set, the first cue included; the cues
    [A] (flag unset), [B] (flag set) give [A], newline, [B]. *)
Theorem plain_text_rule (w : world) (vs : list json) (cues : list Cue) :
  Forall2 (fun v c => decode_cue v = Some c) vs cues ->
  (exists vtt, transcode w vs = inr (vtt, plain_text cues))
  /\ (forall video c c' evs body data,
        fetch_with_backoff w (transcript_url video) 5 1 c = (evs, c', inr body) ->
        getitem body "data" = inr data ->
        getitem data "cues" = inr (JList vs) ->
        outcome_of (process_video w video) c = inr tt
        /\ last (events_of (process_video w video) c)
           = Some (EvWrite (output_path w video ".txt") (plain_text cues)))
  /\ plain_text [] = ""
  /\ (forall c rest,
        plain_text (c :: rest) =
        (if startsNewParagraph c then nl else "") +:+ text c +:+ plain_text rest)
  /\ (forall a b, plain_text (a ++ b) = plain_text a +:+ plain_text b)
  /\ (snd <$> transcode w two_cues) = inr ("A" +:+ nl +:+ "B").
Proof.
  intros Hdec. split; [| split; [| split; [| split; [| split]]]].
  - eexists. by apply transcode_decoded.
  - intros video c c' evs body data Hfetch Hdata Hcues.
    unfold outcome_of, events_of.
    rewrite (process_video_decoded w video c c' evs body data vs cues Hfetch Hdata Hcues Hdec).
    simpl. split; [reflexivity |].
    change (disk_events w video (subtitle_text cues) (plain_text cues))
      with ([EvMakedirs "transcripts";
             EvOpen (output_path w video ".vtt");
             EvWrite (output_path w video ".vtt") (subtitle_text cues);
             EvOpen (output_path w video ".txt")]
              ++ [EvWrite (output_path w video ".txt") (plain_text cues)]).
    by rewrite app_assoc, last_snoc.
  - reflexivity.
  - intros c rest. unfold plain_text. simpl map. rewrite join_cons.
    by rewrite string_app_assoc.
  - intros a b. unfold plain_text. by rewrite map_app, join_app.
  - vm_compute. reflexivity.
Qed.

(** The rule at the two cues of the example. *)
Lemma plain_text_rule_witness :
  exists vtt, transcode transcript_world two_cues =
    inr (vtt, plain_text [ {| startTime := 0; endTime := 3 # 2; text := "A";
                              startsNewParagraph := false |};
                           {| startTime := 3 # 2; endTime := 4; text := "B";
                              startsNewParagraph := true |} ]).
Proof.
  refine (proj1 (plain_text_rule transcript_world two_cues _ _)).
  repeat constructor.
Defined.

Lemma subtitle_text_snoc (cues : list Cue) (c : Cue) :
  subtitle_text (cues ++ [c]) =
  subtitle_text cues +:+ cue_block (Z.of_nat (length cues)) c.
Proof.
  unfold subtitle_text.
  rewrite length_app, Nat.add_1_r, seqZ_S, Z.add_0_l.
  rewrite zip_with_app by (by rewrite length_seqZ, Nat2Z.id).
  rewrite join_app. simpl zip_with. rewrite join_cons. simpl join.
  by rewrite string_app_nil_r, !string_app_assoc.
Qed.

(** C7: the subtitle text starts with the line WEBVTT and a blank line;
    then each cue, in input order, gives its index counted from 0, the
    line [start --> end] of the two time stamps, its text and a blank
    line. *)
Theorem subtitle_format (w : world) (vs : list json) (cues : list Cue) :
  Forall2 (fun v c => decode_cue v = Some c) vs cues ->
  (exists raw, transcode w vs = inr (subtitle_text cues, raw))
  /\ (forall video c c' evs body data,
        fetch_with_backoff w (transcript_url video) 5 1 c = (evs, c', inr body) ->
        getitem body "data" = inr data ->
        getitem data "cues" = inr (JList vs) ->
        writes (events_of (process_video w video) c) =
          writes evs ++ [(output_path w video ".vtt", subtitle_text cues);
                         (output_path w video ".txt", plain_text cues)])
  /\ subtitle_text [] = "WEBVTT" +:+ nl +:+ nl
  /\ (forall before c,
        subtitle_text (before ++ [c]) =
        subtitle_text before
          +:+ str_Z (Z.of_nat (length before)) +:+ nl
          +:+ decimal_to_vtt_time (startTime c) +:+ " --> "
          +:+ decimal_to_vtt_time (endTime c) +:+ nl
          +:+ text c +:+ nl
          +:+ nl)
  /\ (exists body, subtitle_text cues = "WEBVTT" +:+ nl +:+ nl +:+ body).
Proof.
  intros Hdec. split; [| split; [| split; [| split]]].
  - eexists. by apply transcode_decoded.
  - intros video c c' evs body data Hfetch Hdata Hcues.
    unfold events_of.
    rewrite (process_video_decoded w video c c' evs body data vs cues Hfetch Hdata Hcues Hdec).
    simpl. unfold writes. by rewrite omap_app.
  - reflexivity.
  - intros before c. by rewrite subtitle_text_snoc.
  - eexists. unfold subtitle_text. reflexivity.
Qed.

(** The format at the two cues of the example. *)
Lemma subtitle_format_witness :
  exists raw, transcode transcript_world two_cues =
    inr ("WEBVTT" +:+ nl +:+ nl
         +:+ "0" +:+ nl +:+ "00:00:00.000 --> 00:00:01.500" +:+ nl +:+ "A" +:+ nl +:+ nl
         +:+ "1" +:+ nl +:+ "00:00:01.500 --> 00:00:04.000" +:+ nl +:+ "B" +:+ nl +:+ nl,
         raw).
Proof.
  refine (proj1 (subtitle_format transcript_world two_cues
    [ {| startTime := 0; endTime := 3 # 2; text := "A"; startsNewParagraph := false |};
      {| startTime := 3 # 2; endTime := 4; text := "B"; startsNewParagraph := true |} ] _)).
  repeat constructor.
Defined.

(** ** Regular expressions *)

Lemma string_app_eq_nil (s t : string) : s +:+ t = "" -> s = "" /\ t = "".
Proof.
  destruct s as [| a s]; intros H.
  - by rewrite string_app_nil_l in H.
  - by rewrite string_app_cons in H.
Qed.

Lemma nullable_spec (r : regex) : nullable r = true <-> Matches r "".
Proof.
  induction r as [| | p | r1 IH1 r2 IH2 | r1 IH1 r2 IH2 | r IH]; simpl.
  - split; [discriminate | inversion 1].
  - split; [constructor | reflexivity].
  - split; [discriminate | inversion 1].
  - rewrite orb_true_iff, IH1, IH2. split.
    + intros [H | H]; [by apply MAltL | by apply MAltR].
    + inversion 1; subst; auto.
  - rewrite andb_true_iff, IH1, IH2. split.
    + intros [H1 H2]. by apply (MCat r1 r2 "" "").
    + inversion 1 as [| | | | ? ? s1 s2 ? H1 H2 Heq | |]; subst.
      symmetry in Heq. apply string_app_eq_nil in Heq as [-> ->]. auto.
  - split; [constructor | reflexivity].
Qed.

(** A non-empty word of [Star r] starts with a non-empty word of [r]. *)
Lemma star_cons_inv (r : regex) (c : ascii) (s : string) :
  Matches (Star r) (String c s) ->
  exists s1 s2, s = s1 +:+ s2 /\ Matches r (String c s1) /\ Matches (Star r) s2.
Proof.
  intros H. remember (Star r) as r' eqn:Hr. remember (String c s) as t eqn:Ht.
  induction H as [| | | | | | r0 s1 s2 t H1 _ H2 IH2 Heq]; try discriminate.
  injection Hr as ->. subst t.
  destruct s1 as [| a s1].
  - apply IH2; [reflexivity | by rewrite string_app_nil_l in Heq].
  - rewrite string_app_cons in Heq. injection Heq as <- ->. eauto.
Qed.

Lemma cat_cons_inv (r1 r2 : regex) (c : ascii) (s : string) :
  Matches (Cat r1 r2) (String c s) ->
  (exists s1 s2, s = s1 +:+ s2 /\ Matches r1 (String c s1) /\ Matches r2 s2)
  \/ (Matches r1 "" /\ Matches r2 (String c s)).
Proof.
  inversion 1 as [| | | | ? ? s1 s2 ? H1 H2 Heq | |]; subst.
  destruct s1 as [| a s1].
  - right. rewrite string_app_nil_l in Heq. by subst.
  - left. rewrite string_app_cons in Heq. injection Heq as <- ->. eauto.
Qed.

Lemma deriv_spec (r : regex) (c : ascii) (s : string) :
  Matches (deriv c r) s <-> Matches r (String c s).
Proof.
  revert s. induction r as [| | p | r1 IH1 r2 IH2 | r1 IH1 r2 IH2 | r IH]; intros s; simpl.
  - split; inversion 1.
  - split; inversion 1.
  - destruct (p c) eqn:Hp; split.
    + inversion 1. by constructor.
    + inversion 1; subst. constructor.
    + inversion 1.
    + inversion 1; subst. congruence.
  - split.
    + inversion 1; subst; [apply MAltL | apply MAltR]; first [by apply IH1 | by apply IH2].
    + inversion 1; subst; [apply MAltL | apply MAltR]; first [by apply IH1 | by apply IH2].
  - destruct (nullable r1) eqn:Hn; split.
    + inversion 1 as [| | ? ? ? H1 | ? ? ? H2 | | |]; subst.
      * inversion H1 as [| | | | ? ? s1 s2 ? Ha Hb Heq | |]; subst.
        apply (MCat r1 r2 (String c s1) s2); [by apply IH1 | done | done].
      * apply (MCat r1 r2 "" (String c s)); [by apply nullable_spec | by apply IH2 | done].
    + intros H. destruct (cat_cons_inv _ _ _ _ H) as [(s1 & s2 & -> & H1 & H2) | [_ H2]].
      * apply MAltL, (MCat _ _ s1 s2); [by apply IH1 | done | done].
      * by apply MAltR, IH2.
    + inversion 1 as [| | | | ? ? s1 s2 ? Ha Hb Heq | |]; subst.
      apply (MCat r1 r2 (String c s1) s2); [by apply IH1 | done | done].
    + intros H. destruct (cat_cons_inv _ _ _ _ H) as [(s1 & s2 & -> & H1 & H2) | [H1 _]].
      * apply (MCat _ _ s1 s2); [by apply IH1 | done | done].
      * apply nullable_spec in H1. congruence.
  - split.
    + inversion 1 as [| | | | ? ? s1 s2 ? Ha Hb Heq | |]; subst.
      apply (MStarApp r (String c s1) s2); [by apply IH | done | done].
    + intros H. destruct (star_cons_inv _ _ _ H) as (s1 & s2 & -> & H1 & H2).
      apply (MCat _ _ s1 s2); [by apply IH | done | done].
Qed.

Lemma fullmatch_spec (r : regex) (s : string) : fullmatch r s = true <-> Matches r s.
Proof.
  revert r. induction s as [| c s IH]; intros r; simpl.
  - apply nullable_spec.
  - rewrite IH. apply deriv_spec.
Qed.

(** ** The language of the selection pattern *)

Lemma lit_spec (c : ascii) (s : string) : Matches (lit c) s <-> s = String c "".
Proof.
  unfold lit. split.
  - inversion 1 as [| ? c' Hc | | | | |]; subst.
    apply Ascii.eqb_eq in Hc. by subst.
  - intros ->. constructor. apply Ascii.eqb_refl.
Qed.

Lemma star_digit_spec (s : string) : Matches (Star digit) s <-> all_digits s = true.
Proof.
  induction s as [| c s IH]; simpl.
  - split; [reflexivity | constructor].
  - rewrite andb_true_iff, <- IH. split.
    + intros H. destruct (star_cons_inv _ _ _ H) as (s1 & s2 & -> & H1 & H2).
      inversion H1; subst. by rewrite string_app_nil_l.
    + intros [Hc Hs]. apply (MStarApp digit (String c "") s); [by constructor | done | done].
Qed.

Lemma plus_digit_spec (s : string) : Matches (Plus digit) s <-> is_number s = true.
Proof.
  unfold Plus, is_number. split.
  - inversion 1 as [| | | | ? ? s1 s2 ? H1 H2 Heq | |]; subst.
    inversion H1; subst. rewrite string_app_cons, string_app_nil_l. simpl.
    apply star_digit_spec in H2. by rewrite H2, andb_true_r.
  - destruct s as [| c s]; simpl; [discriminate |].
    rewrite andb_true_iff. intros [Hc Hs].
    apply (MCat digit (Star digit) (String c "") s);
      [by constructor | by apply star_digit_spec | done].
Qed.

Lemma item_spec (s : string) :
  Matches item s <-> exists t, valid_token t = true /\ s = token_text t.
Proof.
  unfold item. split.
  - inversion 1 as [| | ? ? ? H1 | ? ? ? H2 | | |]; subst.
    + exists (Single s). split; [by apply plus_digit_spec | done].
    + inversion H2 as [| | | | ? ? a s2 ? Ha Hb Heq | |]; subst.
      inversion Hb as [| | | | ? ? d b ? Hd Hb' Heq' | |]; subst.
      apply lit_spec in Hd as ->.
      exists (Range a b). simpl. split; [| done].
      apply plus_digit_spec in Ha, Hb'. by rewrite Ha, Hb'.
  - intros [[a | a b] [Hv ->]]; simpl in *.
    + by apply MAltL, plus_digit_spec.
    + apply andb_true_iff in Hv as [Ha Hb].
      apply MAltR, (MCat _ _ a ("-" +:+ b)); [by apply plus_digit_spec | | done].
      apply (MCat _ _ "-" b); [by apply lit_spec | by apply plus_digit_spec | done].
Qed.

(** The words of [Star r] are the concatenations of words of [r]. *)
Lemma star_words (r : regex) (s : string) :
  Matches (Star r) s -> exists ws, Forall (Matches r) ws /\ s = join ws.
Proof.
  intros H. remember (Star r) as r' eqn:Hr.
  induction H as [| | | | | | r0 s1 s2 t H1 _ H2 IH2 Heq]; try discriminate.
  - exists []. by split.
  - injection Hr as ->. destruct (IH2 eq_refl) as (ws & Hws & ->).
    exists (s1 :: ws). split; [by constructor | done].
Qed.

Lemma words_star (r : regex) (ws : list string) :
  Forall (Matches r) ws -> Matches (Star r) (join ws).
Proof.
  induction 1 as [| w ws Hw _ IH]; [constructor |].
  by apply (MStarApp r w (join ws)).
Qed.

Lemma comma_separated_cons (p : string) (rest : list string) :
  comma_separated (p :: rest) = p +:+ join (map (String.append ",") rest).
Proof.
  revert p. induction rest as [| q rest IH]; intros p.
  - simpl. by rewrite string_app_nil_r.
  - change (comma_separated (p :: q :: rest)) with (p +:+ "," +:+ comma_separated (q :: rest)).
    rewrite IH. simpl map. rewrite join_cons. by rewrite !string_app_assoc.
Qed.

Lemma pattern_spec (s : string) : Matches pattern s <-> in_grammar s.
Proof.
  unfold pattern, in_grammar. split.
  - inversion 1 as [| | | | ? ? s1 s2 ? H1 H2 Heq | |]; subst.
    apply item_spec in H1 as (t & Ht & ->).
    apply star_words in H2 as (ws & Hws & ->).
    match goal with H : Matches (Cat _ _) _ |- _ => clear H end.
    assert (exists ts, forallb valid_token ts = true
                       /\ ws = map (String.append ",") (map token_text ts))
      as (ts & Hts & ->).
    { induction Hws as [| w ws Hw _ IH]; [by exists [] |].
      destruct IH as (ts & Hts & ->).
      inversion Hw as [| | | | ? ? d u ? Hd Hu Heq | |]; subst.
      apply lit_spec in Hd as ->. apply item_spec in Hu as (t' & Ht' & ->).
      exists (t' :: ts). simpl. by rewrite Ht', Hts. }
    exists (t :: ts). split; [done |]. split; [simpl; by rewrite Ht, Hts |].
    unfold expression_text. simpl map. by rewrite comma_separated_cons.
  - intros (ts & Hne & Hv & ->). destruct ts as [| t ts]; [done |].
    simpl in Hv. apply andb_true_iff in Hv as [Ht Hts].
    unfold expression_text. simpl map. rewrite comma_separated_cons.
    apply (MCat _ _ (token_text t) (join (map (String.append ",") (map token_text ts))));
      [apply item_spec; eauto | | done].
    apply words_star. clear Hne Ht.
    induction ts as [| u ts IH]; [constructor |].
    simpl in Hts. apply andb_true_iff in Hts as [Hu Hts].
    constructor; [| by apply IH].
    apply (MCat _ _ "," (token_text u)); [by apply lit_spec | apply item_spec; eauto | done].
Qed.

Lemma fullmatch_pattern (s : string) : fullmatch pattern s = true <-> in_grammar s.
Proof. rewrite fullmatch_spec. apply pattern_spec. Qed.

(** ** Splitting and reading numbers *)

Lemma digit_is_plain (c : ascii) :
  is_digit c = true ->
  Ascii.eqb c "," = false /\ Ascii.eqb c "-" = false /\ Ascii.eqb c "+" = false
  /\ Ascii.eqb c "_" = false /\ Ascii.eqb c "a" = false /\ is_space c = false.
Proof.
  destruct c as [[|] [|] [|] [|] [|] [|] [|] [|]]; vm_compute; try discriminate; auto 10.
Qed.

Lemma contains_char_app (sep : ascii) (a b : string) :
  contains_char sep (a +:+ b) = contains_char sep a || contains_char sep b.
Proof.
  induction a as [| c a IH]; [reflexivity |].
  rewrite string_app_cons. simpl. by destruct (Ascii.eqb c sep).
Qed.

Lemma digits_free_of (sep : ascii) (a : string) :
  is_digit sep = false -> all_digits a = true -> contains_char sep a = false.
Proof.
  intros Hsep. induction a as [| c a IH]; simpl; [reflexivity |].
  rewrite andb_true_iff. intros [Hc Ha].
  destruct (Ascii.eqb_spec c sep) as [-> | _]; [congruence | by apply IH].
Qed.

Lemma split_on_free (sep : ascii) (a : string) :
  contains_char sep a = false -> split_on sep a = [a].
Proof.
  induction a as [| c a IH]; simpl; [reflexivity |].
  destruct (Ascii.eqb c sep); [discriminate |].
  intros Ha. by rewrite (IH Ha).
Qed.

Lemma split_on_app (sep : ascii) (a b : string) :
  contains_char sep a = false ->
  split_on sep (a +:+ String sep b) = a :: split_on sep b.
Proof.
  induction a as [| c a IH].
  - intros _. rewrite string_app_nil_l. simpl. by rewrite Ascii.eqb_refl.
  - simpl contains_char. destruct (Ascii.eqb c sep) eqn:Hc; [discriminate |].
    intros Ha. rewrite string_app_cons. simpl. by rewrite Hc, (IH Ha).
Qed.

Lemma is_number_digits (a : string) : is_number a = true -> all_digits a = true.
Proof. unfold is_number. rewrite andb_true_iff. tauto. Qed.

Lemma token_text_no_comma (t : token) :
  valid_token t = true -> contains_char "," (token_text t) = false.
Proof.
  destruct t as [a | a b]; simpl.
  - intros Ha. by apply digits_free_of, is_number_digits.
  - rewrite andb_true_iff. intros [Ha Hb].
    rewrite !contains_char_app.
    rewrite (digits_free_of "," a), (digits_free_of "," b) by (done || by apply is_number_digits).
    reflexivity.
Qed.

Lemma split_expression (ts : list token) :
  ts <> [] -> forallb valid_token ts = true ->
  split_on "," (expression_text ts) = map token_text ts.
Proof.
  unfold expression_text. induction ts as [| t ts IH]; [done |].
  intros _. simpl forallb. rewrite andb_true_iff. intros [Ht Hts].
  destruct ts as [| u ts].
  - simpl. by apply split_on_free, token_text_no_comma.
  - change (comma_separated (map token_text (t :: u :: ts)))
      with (token_text t +:+ String "," (comma_separated (map token_text (u :: ts)))).
    rewrite split_on_app by (by apply token_text_no_comma).
    by rewrite IH.
Qed.

Lemma range_parts (a b : string) :
  is_number a = true -> is_number b = true ->
  contains_char "-" (token_text (Range a b)) = true
  /\ split_on "-" (token_text (Range a b)) = [a; b].
Proof.
  intros Ha Hb. simpl. split.
  - rewrite contains_char_app. simpl. apply orb_true_r.
  - change (a +:+ "-" +:+ b) with (a +:+ String "-" b).
    rewrite split_on_app by (by apply digits_free_of, is_number_digits).
    by rewrite split_on_free by (by apply digits_free_of, is_number_digits).
Qed.

Lemma lstrip_number (a : string) : is_number a = true -> lstrip a = a.
Proof.
  destruct a as [| c a]; [reflexivity |]. unfold is_number. simpl.
  rewrite andb_true_iff. intros [Hc _].
  by destruct (digit_is_plain c Hc) as (_ & _ & _ & _ & _ & ->).
Qed.

Lemma rstrip_digits (a : string) : all_digits a = true -> rstrip a = a.
Proof.
  induction a as [| c a IH]; simpl; [reflexivity |].
  rewrite andb_true_iff. intros [Hc Ha]. rewrite (IH Ha).
  destruct (digit_is_plain c Hc) as (_ & _ & _ & _ & _ & ->).
  by destruct a.
Qed.

Lemma int_digits_number (a : string) (acc : N) (after_digit : bool) :
  all_digits a = true -> a <> "" \/ after_digit = true ->
  exists n, int_digits acc after_digit a = Some n
            /\ Z.of_N n = number_from (Z.of_N acc) a.
Proof.
  revert acc after_digit. induction a as [| c a IH]; intros acc after_digit; simpl.
  - intros _ [? | ->]; [done | eauto].
  - rewrite andb_true_iff. intros [Hc Ha] _. rewrite Hc.
    destruct (IH (10 * acc + digit_val c)%N true Ha (or_intror eq_refl)) as (n & Hn & Hval).
    exists n. split; [exact Hn |]. rewrite Hval. f_equal. lia.
Qed.

Lemma py_int_number (a : string) :
  is_number a = true -> py_int a = Some (number_value a).
Proof.
  intros Ha. unfold py_int. rewrite (lstrip_number a Ha).
  rewrite (rstrip_digits a (is_number_digits a Ha)).
  destruct (int_digits_number a 0 false (is_number_digits a Ha)) as (n & Hn & Hval).
  { left. intros ->. discriminate. }
  assert (Hplain : option_map Z.of_N (int_digits 0 false a) = Some (number_value a)).
  { rewrite Hn. simpl. by rewrite Hval. }
  destruct a as [| c r]; [exact Hplain |].
  unfold is_number in Ha. simpl in Ha. apply andb_true_iff in Ha as [Hc _].
  destruct c as [[|] [|] [|] [|] [|] [|] [|] [|]]; try discriminate Hc; exact Hplain.
Qed.

(** ** IdentifierResolver *)

Lemma elem_of_range_set (n start stop : Z) :
  n ∈ range_set start stop <-> start <= n < stop.
Proof.
  unfold range_set. rewrite elem_of_list_to_set, elem_of_seqZ. lia.
Qed.

Lemma elem_of_token_ids (t : token) (n : Z) : n ∈ token_ids t <-> denotes t n.
Proof.
  destruct t as [a | a b]; simpl.
  - apply elem_of_singleton.
  - rewrite elem_of_range_set. lia.
Qed.

Lemma elem_of_expression_ids (ts : list token) (n : Z) :
  n ∈ expression_ids ts <-> exists t, t ∈ ts /\ denotes t n.
Proof.
  unfold expression_ids. rewrite elem_of_union_list. split.
  - intros (X & HX & Hn). apply list_elem_of_fmap in HX as (t & -> & Ht).
    exists t. split; [exact Ht | by apply elem_of_token_ids].
  - intros (t & Ht & Hn). exists (token_ids t). split.
    + apply list_elem_of_fmap. eauto.
    + by apply elem_of_token_ids.
Qed.

Lemma count_digits_all_digits (a : string) :
  all_digits a = true -> count_digits a = String.length a.
Proof.
  induction a as [| c a IH]; simpl; [reflexivity |].
  rewrite andb_true_iff. intros [-> Ha]. by rewrite (IH Ha).
Qed.

(** [int] on a number of the grammar. *)
Lemma py_int_limited_number (a : string) :
  is_number a = true ->
  py_int_limited a = if short_number a then inr (number_value a)
                     else inl (int_limit_error (String.length a)).
Proof.
  intros Ha. unfold py_int_limited, short_number.
  rewrite (py_int_number a Ha), (count_digits_all_digits a (is_number_digits a Ha)).
  rewrite Nat.ltb_antisym. by destruct (String.length a <=? int_max_str_digits)%nat.
Qed.

(** The loop over the parts of a word of the grammar: it stops at the
    first token with a number that is too long or with bounds out of
    order. *)
Lemma parse_parts_tokens (ts : list token) (numbers : gset Z) :
  forallb valid_token ts = true ->
  parse_parts (map token_text ts) numbers =
  match first_error ts with
  | Some e => inl e
  | None => inr (numbers ∪ expression_ids ts)
  end.
Proof.
  revert numbers. induction ts as [| t ts IH]; intros numbers; simpl.
  - intros _. unfold expression_ids. simpl. f_equal. set_solver.
  - rewrite andb_true_iff. intros [Ht Hts]. destruct t as [a | a b]; simpl in Ht |- *.
    + rewrite (digits_free_of "-" a eq_refl (is_number_digits a Ht)).
      unfold mbind, result_bind. rewrite (py_int_limited_number a Ht).
      destruct (short_number a); [| reflexivity].
      rewrite (IH _ Hts).
      destruct (first_error ts); [reflexivity |].
      f_equal. unfold expression_ids. simpl. set_solver.
    + apply andb_true_iff in Ht as [Ha Hb].
      destruct (range_parts a b Ha Hb) as [Hc Hs]. simpl in Hc, Hs.
      rewrite Hc, Hs.
      unfold mbind, result_bind.
      rewrite (py_int_limited_number a Ha), (py_int_limited_number b Hb).
      destruct (short_number a); simpl; [| reflexivity].
      destruct (short_number b); simpl; [| reflexivity].
      rewrite (Z.ltb_antisym (number_value a) (number_value b)).
      destruct (number_value a <=? number_value b); simpl; [| reflexivity].
      rewrite (IH _ Hts).
      destruct (first_error ts); [reflexivity |].
      f_equal. unfold expression_ids. simpl. set_solver.
Qed.

Lemma token_error_none (t : token) :
  token_error t = None <-> within_limit t = true /\ ordered t = true.
Proof.
  destruct t as [a | a b]; simpl.
  - destruct (short_number a); simpl; split; try done. by intros [? _].
  - destruct (short_number a), (short_number b); simpl;
      try (split; [discriminate | by intros [? _]]).
    destruct (number_value a <=? number_value b); split; try done. by intros [_ ?].
Qed.

Lemma first_error_none (ts : list token) :
  first_error ts = None <-> forallb within_limit ts = true /\ forallb ordered ts = true.
Proof.
  induction ts as [| t ts IH]; simpl; [done |].
  rewrite !andb_true_iff.
  destruct (token_error t) as [e |] eqn:Ht.
  - split; [discriminate |]. intros [[Hw _] [Ho _]].
    assert (token_error t = None) by (by apply token_error_none). congruence.
  - apply token_error_none in Ht as [Hw Ho]. rewrite IH. tauto.
Qed.

Lemma first_error_text (ts : list token) (e : exn) :
  first_error ts = Some e -> exists msg, e = ValueError (Some msg).
Proof.
  induction ts as [| t ts IH]; simpl; [discriminate |].
  destruct (token_error t) as [e' |] eqn:Ht; [| exact IH].
  intros [= <-]. destruct t as [a | a b]; simpl in Ht.
  - destruct (short_number a); [discriminate |]. injection Ht as <-.
    unfold int_limit_error. eauto.
  - destruct (short_number a); simpl in Ht;
      [| injection Ht as <-; unfold int_limit_error; eauto].
    destruct (short_number b); simpl in Ht;
      [| injection Ht as <-; unfold int_limit_error; eauto].
    destruct (number_value a <=? number_value b); [discriminate |].
    injection Ht as <-. unfold range_error. eauto.
Qed.

Lemma all_not_in_grammar : ~ in_grammar "all".
Proof.
  intros H. apply fullmatch_pattern in H. vm_compute in H. discriminate.
Qed.

Lemma validate_and_parse_input_tokens (ts : list token) :
  ts <> [] -> forallb valid_token ts = true ->
  validate_and_parse_input (expression_text ts) =
  match first_error ts with
  | Some e => inl e
  | None => inr (expression_ids ts)
  end.
Proof.
  intros Hne Hv. unfold validate_and_parse_input.
  assert (Hg : in_grammar (expression_text ts)) by (exists ts; auto).
  destruct (String.eqb_spec (expression_text ts) "all") as [Heq | _].
  { rewrite Heq in Hg. by destruct all_not_in_grammar. }
  apply fullmatch_pattern in Hg. rewrite Hg. simpl negb. cbv iota.
  rewrite (split_expression ts Hne Hv), (parse_parts_tokens ts ∅ Hv).
  destruct (first_error ts); [reflexivity |]. f_equal. set_solver.
Qed.

Lemma validate_and_parse_input_outside (s : string) :
  s <> "all" -> ~ in_grammar s ->
  validate_and_parse_input s =
  inl (ValueError (Some ("Invalid input format: " +:+ s
         +:+ ". Expected numbers or ranges (e.g., 1,4-6,9-10)."))).
Proof.
  intros Hall Hg. unfold validate_and_parse_input.
  destruct (String.eqb_spec s "all") as [? | _]; [done |].
  destruct (fullmatch pattern s) eqn:Hm; [| reflexivity].
  apply fullmatch_pattern in Hm. done.
Qed.

(** The only exception of the parser is a [ValueError] with a message:
    its own, or that of [int] on a number that is too long. *)
Lemma validate_and_parse_input_error (s : string) (e : exn) :
  validate_and_parse_input s = inl e -> exists msg, e = ValueError (Some msg).
Proof.
  intros He.
  destruct (String.eqb_spec s "all") as [-> | Hall]; [discriminate |].
  destruct (fullmatch pattern s) eqn:Hm.
  - apply fullmatch_pattern in Hm as (ts & Hne & Hv & ->).
    rewrite (validate_and_parse_input_tokens ts Hne Hv) in He.
    destruct (first_error ts) as [e' |] eqn:Hf; [| discriminate].
    injection He as <-. by apply (first_error_text ts).
  - rewrite validate_and_parse_input_outside in He; [injection He as <-; eauto | done |].
    intros Hg. apply fullmatch_pattern in Hg. congruence.
Qed.

(** An accepted explicit expression is a word of the grammar whose
    numbers are within the limit and whose ranges are in order. *)
Lemma accepted_tokens (s : string) (ids : gset Z) :
  validate_and_parse_input s = inr ids -> s <> "all" ->
  exists ts, ts <> [] /\ forallb valid_token ts = true
             /\ forallb within_limit ts = true /\ forallb ordered ts = true
             /\ s = expression_text ts /\ ids = expression_ids ts.
Proof.
  intros Hparse Hall.
  assert (Hg : in_grammar s).
  { apply fullmatch_pattern. unfold validate_and_parse_input in Hparse.
    destruct (String.eqb_spec s "all") as [? | _]; [done |].
    by destruct (fullmatch pattern s). }
  destruct Hg as (ts & Hne & Hv & ->).
  rewrite (validate_and_parse_input_tokens ts Hne Hv) in Hparse.
  destruct (first_error ts) eqn:Hf; [discriminate |]. injection Hparse as <-.
  apply first_error_none in Hf as [Hw Ho]. exists ts. by repeat split.
Qed.

(** C5, amended: [all] gives the empty set without raising; a word of
    the grammar whose numbers have at most 4300 digits each and whose
    ranges are in order gives exactly the ids its tokens stand for, each
    number and each inclusive range; an error is raised exactly for the
    other inputs, that is when the input is outside the grammar, holds a
    range with start above end, or holds a number of more than 4300
    digits, which [int] refuses; the error is always a [ValueError] with
    a message; [1,4-6,9-10] gives 1, 4, 5, 6, 9, 10.  Strings are over
    the code points below 256, among which the decimal digits are 0 to
    9. *)
Theorem validate_and_parse_input_spec :
  validate_and_parse_input "all" = inr ∅
  /\ (forall ts,
        ts <> [] -> forallb valid_token ts = true ->
        forallb within_limit ts = true -> forallb ordered ts = true ->
        exists ids,
          validate_and_parse_input (expression_text ts) = inr ids
          /\ forall n, n ∈ ids <-> exists t, t ∈ ts /\ denotes t n)
  /\ (forall s,
        (exists e, validate_and_parse_input s = inl e)
        <-> s <> "all"
            /\ (~ in_grammar s
                \/ exists ts, ts <> [] /\ forallb valid_token ts = true
                              /\ s = expression_text ts
                              /\ (forallb ordered ts = false
                                  \/ forallb within_limit ts = false)))
  /\ (forall s e, validate_and_parse_input s = inl e -> exists msg, e = ValueError (Some msg))
  /\ validate_and_parse_input "1,4-6,9-10" = inr (list_to_set [1; 4; 5; 6; 9; 10])
  /\ (exists e, validate_and_parse_input "5-3" = inl e)
  /\ (exists e, validate_and_parse_input "1, 2" = inl e)
  /\ (exists e, validate_and_parse_input "1-2-3" = inl e).
Proof.
  assert (Hword : forall s, in_grammar s -> s <> "all").
  { intros s Hg ->. by apply all_not_in_grammar. }
  pose proof validate_and_parse_input_outside as Hout.
  split; [reflexivity |]. split; [| split; [| split; [| split]]].
  - intros ts Hne Hv Hlim Hord. exists (expression_ids ts). split.
    + rewrite (validate_and_parse_input_tokens ts Hne Hv).
      assert (first_error ts = None) as -> by (by apply first_error_none).
      reflexivity.
    + apply elem_of_expression_ids.
  - intros s. split.
    + intros [e He]. split.
      { intros ->. discriminate He. }
      destruct (fullmatch pattern s) eqn:Hm.
      * right. apply fullmatch_pattern in Hm as (ts & Hne & Hv & ->).
        exists ts. repeat split; try done.
        rewrite (validate_and_parse_input_tokens ts Hne Hv) in He.
        destruct (forallb ordered ts) eqn:Hord; [| by left].
        destruct (forallb within_limit ts) eqn:Hlim; [| by right].
        assert (first_error ts = None) as Hf by (by apply first_error_none).
        rewrite Hf in He. discriminate.
      * left. intros Hg. apply fullmatch_pattern in Hg. congruence.
    + intros [Hall [Hg | (ts & Hne & Hv & -> & Hbad)]].
      * eexists. by apply Hout.
      * rewrite (validate_and_parse_input_tokens ts Hne Hv).
        destruct (first_error ts) as [e |] eqn:Hf; [eauto |].
        apply first_error_none in Hf as [Hlim Hord]. destruct Hbad; congruence.
  - exact validate_and_parse_input_error.
  - vm_compute. reflexivity.
  - split; [| split]; eexists; vm_compute; reflexivity.
Qed.

(** A number of 4300 digits is still read. *)
Example longest_number_accepted :
  validate_and_parse_input (zeros 4300) = inr {[ 0 ]}.
Proof.
  assert (Hv : forallb valid_token [Single (zeros 4300)] = true) by (vm_compute; reflexivity).
  change (zeros 4300) with (expression_text [Single (zeros 4300)]) at 1.
  rewrite (validate_and_parse_input_tokens [Single (zeros 4300)] ltac:(discriminate) Hv).
  vm_compute. reflexivity.
Qed.

(** C5 as stated fails: a number of 4301 digits is a word of the
    grammar and holds no range, and yet the parser raises, because [int]
    refuses it. *)
Lemma long_number_rejected :
  in_grammar (zeros 4301)
  /\ contains_char "-" (zeros 4301) = false
  /\ validate_and_parse_input (zeros 4301) = inl (int_limit_error 4301).
Proof.
  assert (Hv : forallb valid_token [Single (zeros 4301)] = true) by (vm_compute; reflexivity).
  split; [| split].
  - exists [Single (zeros 4301)]. by repeat split.
  - vm_compute. reflexivity.
  - change (zeros 4301) with (expression_text [Single (zeros 4301)]) at 1.
    rewrite (validate_and_parse_input_tokens [Single (zeros 4301)] ltac:(discriminate) Hv).
    vm_compute. reflexivity.
Qed.

(** ** ExistingIdIndex *)

Lemma leading_id_indexed (filename : string) :
  endswith filename ".vtt" = true ->
  indexed_id filename = match leading_id filename with
                        | inr n => Some n
                        | inl _ => None
                        end.
Proof.
  intros He. unfold indexed_id, leading_id. rewrite He.
  destruct (split_ws filename) as [| id_str rest]; [reflexivity |].
  by destruct (py_int id_str).
Qed.

Lemma scan_filenames_spec (filenames : list string) (ids : gset Z) (c : cursor) :
  scan_filenames filenames ids c =
    (map skipped_line (List.filter malformed filenames), c,
     inr (ids ∪ list_to_set (omap indexed_id filenames))).
Proof.
  revert ids. induction filenames as [| f rest IH]; intros ids.
  - simpl. unfold mret, M_ret. do 2 f_equal. set_solver.
  - simpl scan_filenames. simpl List.filter. unfold malformed at 1.
    destruct (endswith f ".vtt") eqn:He.
    + pose proof (leading_id_indexed f He) as Hi.
      destruct (leading_id f) as [e | n] eqn:Hl; rewrite Hi.
      * rewrite bind_run. unfold print, emit at 1. rewrite IH. simpl.
        by rewrite Hi.
      * rewrite IH. simpl. rewrite Hi. simpl. do 2 f_equal. set_solver.
    + rewrite IH. simpl.
      assert (Hi : indexed_id f = None) by (unfold indexed_id; by rewrite He).
      by rewrite Hi.
Qed.

Lemma get_existing_ids_spec (w : world) (c : cursor) :
  exists found,
    get_existing_ids w c =
      (map skipped_line (List.filter malformed (directory w)) ++ found,
       c, inr (list_to_set (omap indexed_id (directory w))))
    /\ (found = [] \/ exists line, found = [EvPrint line]).
Proof.
  unfold get_existing_ids, directory. rewrite bind_run.
  destruct (listing w) as [filenames |].
  - rewrite scan_filenames_spec.
    replace (∅ ∪ list_to_set (omap indexed_id filenames))
      with (list_to_set (omap indexed_id filenames) : gset Z) by set_solver.
    rewrite bind_run.
    destruct (0 <? size _)%nat; simpl; eexists; (split; [reflexivity |]); eauto.
  - unfold mret at 1, M_ret. rewrite bind_run.
    simpl. exists []. split; [reflexivity | by left].
Qed.

(** *** Reading back the names the program writes *)

Lemma all_digits_app (a b : string) :
  all_digits (a +:+ b) = all_digits a && all_digits b.
Proof.
  induction a as [| c a IH]; [reflexivity |].
  rewrite string_app_cons. simpl. by rewrite IH, andb_assoc.
Qed.

Lemma all_digits_zeros (k : nat) : all_digits (zeros k) = true.
Proof. induction k as [| k IH]; [reflexivity | exact IH]. Qed.

Lemma number_from_zeros (k : nat) (s : string) :
  number_from 0 (zeros k +:+ s) = number_from 0 s.
Proof.
  induction k as [| k IH]; [reflexivity |].
  simpl zeros. rewrite string_app_cons. exact IH.
Qed.

Lemma all_digits_uint (d : Decimal.uint) :
  all_digits (NilEmpty.string_of_uint d) = true.
Proof. induction d; simpl; auto. Qed.

Lemma number_from_uint (d d0 : Decimal.uint) :
  number_from (Z.of_N (Unsigned.of_lu d0)) (NilEmpty.string_of_uint d) =
  Z.of_N (Unsigned.of_lu (Decimal.revapp d d0)).
Proof.
  revert d0. induction d as [| d IH | d IH | d IH | d IH | d IH | d IH | d IH | d IH | d IH | d IH];
    intros d0; [reflexivity | ..];
    simpl NilEmpty.string_of_uint; simpl Decimal.revapp; rewrite <- IH;
    simpl number_from; f_equal; lia.
Qed.

Lemma str_N_spec (n : N) :
  all_digits (str_N n) = true /\ str_N n <> "" /\ number_value (str_N n) = Z.of_N n.
Proof.
  unfold str_N, NilZero.string_of_uint.
  pose proof (DecimalN.Unsigned.of_to n) as Hn.
  assert (Hval : number_value (NilEmpty.string_of_uint (N.to_uint n)) = Z.of_N n).
  { unfold number_value.
    change 0 with (Z.of_N (Unsigned.of_lu Decimal.Nil)).
    rewrite (number_from_uint (N.to_uint n) Decimal.Nil).
    fold (Decimal.rev (N.to_uint n)). rewrite <- Unsigned.of_uint_alt.
    change (Pos.of_uint (N.to_uint n)) with (N.of_uint (N.to_uint n)). by rewrite Hn. }
  destruct (N.to_uint n) as [| d | d | d | d | d | d | d | d | d | d] eqn:Hd;
    [by (simpl in Hn; subst n) | ..];
    (split; [apply (all_digits_uint (_ d)) | split; [discriminate | exact Hval]]).
Qed.

Lemma no_space_digits (s : string) : all_digits s = true -> no_space s = true.
Proof.
  induction s as [| c s IH]; simpl; [reflexivity |].
  rewrite andb_true_iff. intros [Hc Hs].
  destruct (digit_is_plain c Hc) as (_ & _ & _ & _ & _ & ->). by apply IH.
Qed.

Lemma py_int_format_0wd (width : nat) (n : Z) : py_int (format_0wd width n) = Some n.
Proof.
  unfold format_0wd.
  destruct (str_N_spec (Z.abs_N n)) as (Hd & Hne & Hval).
  set (digits := str_N (Z.abs_N n)) in *.
  set (k := (width - _ - _)%nat). clearbody k.
  assert (Hnum : is_number (zeros k +:+ digits) = true).
  { unfold is_number. rewrite all_digits_app, all_digits_zeros, Hd.
    destruct k; [| reflexivity]. rewrite string_app_nil_l.
    by destruct digits. }
  assert (Hv : number_value (zeros k +:+ digits) = Z.abs n).
  { unfold number_value. rewrite number_from_zeros. fold (number_value digits).
    rewrite Hval. lia. }
  destruct (Z.ltb_spec n 0) as [Hneg | Hpos].
  - change ("-" +:+ zeros k +:+ digits) with (String "-" (zeros k +:+ digits)).
    pose proof (py_int_number _ Hnum) as Hp. unfold py_int in Hp |- *.
    rewrite (lstrip_number _ Hnum), (rstrip_digits _ (is_number_digits _ Hnum)) in Hp.
    simpl lstrip. simpl rstrip. rewrite (rstrip_digits _ (is_number_digits _ Hnum)).
    destruct (zeros k +:+ digits) as [| c r] eqn:Ht; [discriminate Hnum |].
    destruct (int_digits_number (String c r) 0 false (is_number_digits _ Hnum)) as (m & Hm & Hmv);
      [by left |].
    rewrite Hm. simpl. f_equal.
    unfold number_value in Hv. change (Z.of_N 0) with 0 in Hmv. lia.
  - rewrite string_app_nil_l, (py_int_number _ Hnum), Hv. f_equal. lia.
Qed.

Lemma no_space_app (a b : string) : no_space (a +:+ b) = no_space a && no_space b.
Proof.
  induction a as [| c a IH]; [reflexivity |].
  rewrite string_app_cons. simpl. by rewrite IH, andb_assoc.
Qed.

Lemma format_0wd_token (width : nat) (n : Z) :
  no_space (format_0wd width n) = true /\ format_0wd width n <> "".
Proof.
  unfold format_0wd. destruct (str_N_spec (Z.abs_N n)) as (Hd & Hne & _).
  set (digits := str_N (Z.abs_N n)) in *. set (k := (width - _ - _)%nat). clearbody k.
  split.
  - rewrite !no_space_app, (no_space_digits _ (all_digits_zeros k)), (no_space_digits _ Hd).
    by destruct (n <? 0).
  - intros H. apply string_app_eq_nil in H as [_ H].
    apply string_app_eq_nil in H as [_ H]. done.
Qed.

Lemma split_ws_aux_token (tok cur rest : string) :
  no_space tok = true -> cur +:+ tok <> "" ->
  exists others, split_ws_aux cur (tok +:+ String " " rest) = (cur +:+ tok) :: others.
Proof.
  revert cur. induction tok as [| c tok IH]; intros cur Hs Hne.
  - rewrite string_app_nil_l, string_app_nil_r in *. simpl.
    destruct (String.eqb_spec cur "") as [? | _]; [done | eauto].
  - simpl in Hs. apply andb_true_iff in Hs as [Hc Hs].
    rewrite string_app_cons. simpl. apply negb_true_iff in Hc. rewrite Hc.
    destruct (IH (cur +:+ String c "") Hs) as (others & Ho).
    + rewrite string_app_assoc. exact Hne.
    + exists others. rewrite Ho. by rewrite string_app_assoc.
Qed.

Lemma substring_app (a b : string) :
  String.substring (String.length a) (String.length b) (a +:+ b) = b.
Proof.
  induction a as [| c a IH].
  - rewrite string_app_nil_l. simpl String.length.
    induction b as [| d b IHb]; [reflexivity |]. simpl. by rewrite IHb.
  - rewrite string_app_cons. exact IH.
Qed.

Lemma endswith_app (a suffix : string) : endswith (a +:+ suffix) suffix = true.
Proof.
  unfold endswith. rewrite string_length_app.
  replace (String.length a + String.length suffix - String.length suffix)%nat
    with (String.length a) by lia.
  rewrite substring_app, String.eqb_refl, andb_true_r.
  apply Nat.leb_le. lia.
Qed.

(** The name the program gives to a subtitle file is read back as the
    id of its video. *)
Lemma indexed_id_written (width : nat) (n : Z) (name : string) :
  indexed_id (format_0wd width n +:+ " " +:+ name +:+ ".vtt") = Some n.
Proof.
  unfold indexed_id.
  replace (format_0wd width n +:+ " " +:+ name +:+ ".vtt")
    with ((format_0wd width n +:+ " " +:+ name) +:+ ".vtt") at 1
    by (by rewrite !string_app_assoc).
  rewrite endswith_app.
  destruct (format_0wd_token width n) as [Hs Hne].
  destruct (split_ws_aux_token (format_0wd width n) "" (name +:+ ".vtt") Hs)
    as (others & Ho); [by rewrite string_app_nil_l |].
  unfold split_ws.
  change (format_0wd width n +:+ " " +:+ name +:+ ".vtt")
    with (format_0wd width n +:+ String " " (name +:+ ".vtt")).
  rewrite Ho, string_app_nil_l. apply py_int_format_0wd.
Qed.

Lemma indexed_id_Some (filename : string) (n : Z) :
  indexed_id filename = Some n <->
  endswith filename ".vtt" = true
  /\ exists id_str rest, split_ws filename = id_str :: rest /\ py_int id_str = Some n.
Proof.
  unfold indexed_id. destruct (endswith filename ".vtt"); [| split; [discriminate | intros [? _]; discriminate]].
  destruct (split_ws filename) as [| id_str rest].
  - split; [discriminate | intros (_ & ? & ? & ? & _); discriminate].
  - split.
    + intros H. split; [reflexivity | eauto].
    + intros (_ & ? & ? & [= <- <-] & H). exact H.
Qed.

(** C8: an id is in the index exactly when the directory holds a file
    whose name ends in [.vtt] and whose first whitespace-delimited token
    reads as that id, as does the zero-padded id at the start of the
    names the program writes; the scan never fails, and it logs each
    subtitle file it cannot read an id from and goes on. *)
Theorem existing_ids_index (w : world) (c : cursor) :
  exists ids,
    outcome_of (get_existing_ids w) c = inr ids
    /\ cursor_of (get_existing_ids w) c = c
    /\ requests (events_of (get_existing_ids w) c) = []
    /\ (forall n,
          n ∈ ids <->
          exists filename,
            filename ∈ directory w
            /\ endswith filename ".vtt" = true
            /\ exists id_str rest,
                 split_ws filename = id_str :: rest /\ py_int id_str = Some n)
    /\ (forall filename,
          filename ∈ directory w -> malformed filename = true ->
          EvPrint ("Skipped " +:+ filename +:+ ".") ∈ events_of (get_existing_ids w) c)
    /\ (forall video,
          subtitle_filename w video ∈ directory w -> video_id video ∈ ids).
Proof.
  destruct (get_existing_ids_spec w c) as (found & Hrun & Hfound).
  exists (list_to_set (omap indexed_id (directory w))).
  unfold outcome_of, cursor_of, events_of. rewrite Hrun. simpl.
  assert (Hmem : forall n, n ∈ (list_to_set (omap indexed_id (directory w)) : gset Z)
                           <-> exists f, f ∈ directory w /\ indexed_id f = Some n).
  { intros n. rewrite elem_of_list_to_set, list_elem_of_omap. reflexivity. }
  split; [reflexivity |]. split; [reflexivity |]. split; [| split; [| split]].
  - unfold requests. rewrite omap_app.
    assert (Hskip : forall l, omap (fun ev => match ev with EvGet url => Some url | _ => None end)
                                (map skipped_line l) = []).
    { induction l as [| f l IH]; [reflexivity | exact IH]. }
    rewrite Hskip. by destruct Hfound as [-> | [line ->]].
  - intros n. rewrite Hmem. split.
    + intros (f & Hf & Hi). exists f. split; [exact Hf |]. by apply indexed_id_Some.
    + intros (f & Hf & He & Htok). exists f. split; [exact Hf |]. by apply indexed_id_Some.
  - intros f Hf Hbad. apply elem_of_app. left.
    apply list_elem_of_fmap. exists f. split; [reflexivity |].
    apply list_elem_of_In, filter_In. split; [by apply list_elem_of_In | exact Hbad].
  - intros video Hv. apply Hmem. eexists. split; [exact Hv |]. apply indexed_id_written.
Qed.

(** ** CatalogFilter *)

(** The loop body on an entry of the catalog shape. *)
Lemma collect_video_decoded (w : world) (ids : gset Z) (v : json) (e : Entry) :
  decode_entry v = Some e ->
  collect_video w ids v =
  if selected ids e then
    match entry_plan e with
    | Some {| titleJP := None |} => inl (KeyError "titleJP")
    | Some {| titleJP := Some _; titleEN := None |} => inl (KeyError "titleEN")
    | Some {| titleJP := Some jp; titleEN := Some en; transcriptRef := Some t |} =>
        inr (Some {| video_id := entry_id e; title := jp +:+ " | " +:+ en;
                     transcript_id := t |})
    | _ => inr None
    end
  else inr None.
Proof.
  unfold decode_entry, collect_video, selected.
  destruct v as [| | | | | | fields]; try discriminate.
  simpl getitem.
  destruct (assoc "id" fields) as [[| | i | | | |] |] eqn:Hid; try discriminate.
  unfold mbind at 1 2, result_bind. simpl in_ids.
  destruct (assoc "plan" fields) as [p |] eqn:Hplan.
  - destruct p as [| | | | | | pf]; try discriminate. simpl decode_plan.
    unfold opt_str, opt_int.
    destruct (assoc "titleJP" pf) as [[| | | | jp | |] |] eqn:Hjp; try discriminate;
    destruct (assoc "titleEN" pf) as [[| | | | en | |] |] eqn:Hen; try discriminate;
    destruct (assoc "transcriptId" pf) as [[| | t | | | |] |] eqn:Ht; try discriminate;
    intros [= <-]; simpl; destruct (bool_decide (i ∈ ids)); simpl; try reflexivity;
    unfold mbind, result_bind; simpl; rewrite ?Hplan; simpl;
    rewrite ?Ht, ?Hjp, ?Hen; simpl; try reflexivity;
    rewrite ?Hid, ?Hplan; simpl; rewrite ?Hjp, ?Hen, ?Ht; simpl; try reflexivity;
    rewrite ?Hplan; simpl; rewrite ?Hjp, ?Hen, ?Ht; simpl; try reflexivity.
  - intros [= <-]. simpl. rewrite andb_false_r.
    destruct (bool_decide (i ∈ ids)); simpl; [| reflexivity].
    unfold mbind, result_bind. simpl. by rewrite Hplan.
Qed.

Lemma collect_videos_app (w : world) (ids : gset Z) (pre post : list json) :
  collect_videos w ids (pre ++ post) =
  match collect_videos w ids pre with
  | inl e => inl e
  | inr vs =>
      match collect_videos w ids post with
      | inl e => inl e
      | inr vs' => inr (vs ++ vs')
      end
  end.
Proof.
  induction pre as [| v pre IH]; simpl.
  - by destruct (collect_videos w ids post).
  - unfold mbind, result_bind. destruct (collect_video w ids v) as [e | o]; [reflexivity |].
    rewrite IH. destruct (collect_videos w ids pre) as [e | vs]; [reflexivity |].
    destruct (collect_videos w ids post) as [e | vs']; [reflexivity |].
    by destruct o.
Qed.

Lemma work_item_titled (ids : gset Z) (e : Entry) :
  selected ids e = true -> titled e = true ->
  exists p jp en t,
    entry_plan e = Some p /\ titleJP p = Some jp /\ titleEN p = Some en
    /\ transcriptRef p = Some t
    /\ work_item ids e =
         Some {| video_id := entry_id e; title := jp +:+ " | " +:+ en; transcript_id := t |}.
Proof.
  unfold work_item, selected, titled. intros Hs Ht. rewrite Hs.
  apply andb_true_iff in Hs as [_ Hs].
  destruct (entry_plan e) as [[[jp |] [en |] [t |]] |]; try discriminate.
  exists {| titleJP := Some jp; titleEN := Some en; transcriptRef := Some t |}, jp, en, t.
  by repeat split.
Qed.

(** C9, amended: on a catalog of the endpoint's shape in which every
    entry that is requested and carries a plan with a transcript
    reference also carries both titles, the filter keeps an entry exactly
    when it is requested, has a plan and the plan has a transcript
    reference; the others are passed over without an error; the kept
    items are in catalog order with the title [titleJP | titleEN]. *)
Theorem filter_keeps_selected (w : world) (ids : gset Z) (modules : list json)
    (entries : list Entry) :
  Forall2 (fun v e => decode_entry v = Some e) modules entries ->
  Forall (fun e => selected ids e = true -> titled e = true) entries ->
  collect_videos w ids modules = inr (omap (work_item ids) entries)
  /\ filter_catalog w (catalog_body modules) ids = inr (omap (work_item ids) entries)
  /\ Forall2 (fun v e =>
       (selected ids e = false -> collect_video w ids v = inr None /\ work_item ids e = None)
       /\ (selected ids e = true ->
           exists p jp en t,
             entry_plan e = Some p /\ titleJP p = Some jp /\ titleEN p = Some en
             /\ transcriptRef p = Some t
             /\ collect_video w ids v =
                  inr (Some {| video_id := entry_id e; title := jp +:+ " | " +:+ en;
                               transcript_id := t |})
             /\ work_item ids e =
                  Some {| video_id := entry_id e; title := jp +:+ " | " +:+ en;
                          transcript_id := t |}))
       modules entries.
Proof.
  intros Hdec Htitled.
  assert (Hbody : Forall2 (fun v e => collect_video w ids v = inr (work_item ids e)) modules entries).
  { induction Hdec as [| v e vs es Hv _ IH]; [constructor |].
    apply Forall_cons in Htitled as [He Hes]. constructor; [| by apply IH].
    rewrite (collect_video_decoded w ids v e Hv).
    destruct (selected ids e) eqn:Hs; [| unfold work_item; by rewrite Hs].
    destruct (work_item_titled ids e Hs (He eq_refl)) as (p & jp & en & t & Hp & Hjp & Hen & Ht & Hw).
    rewrite Hw, Hp. destruct p as [a b c]. simpl in Hjp, Hen, Ht. by subst. }
  assert (Hall : collect_videos w ids modules = inr (omap (work_item ids) entries)).
  { clear Hdec Htitled. induction Hbody as [| v e vs es Hv _ IH]; [reflexivity |].
    simpl. rewrite Hv, IH. unfold mbind, result_bind. by destruct (work_item ids e). }
  split; [exact Hall |]. split.
  - unfold filter_catalog, catalog_body. simpl. exact Hall.
  - induction Hdec as [| v e vs es Hv Hrest IH]; [constructor |].
    apply Forall_cons in Htitled as [He Hes].
    apply Forall2_cons_1 in Hbody as [Hb Hbs].
    constructor.
    + split.
      * intros Hs. rewrite Hb. unfold work_item. by rewrite Hs.
      * intros Hs.
        destruct (work_item_titled ids e Hs (He Hs)) as (p & jp & en & t & Hp & Hjp & Hen & Ht & Hw).
        exists p, jp, en, t. rewrite Hb, Hw. by repeat split.
    + apply IH; [exact Hes | exact Hbs |].
      clear -Hbs. induction Hbs as [| v e vs es Hv _ IH]; [reflexivity |].
      simpl. rewrite Hv, IH. unfold mbind, result_bind. by destruct (work_item ids e).
Qed.

(** The filter on a catalog with a titled entry that is requested and an
    entry without a plan. *)
Lemma filter_keeps_selected_witness :
  collect_videos untitled_world {[ 2 ]} [titled_entry; JDict [("id", JInt 5)]] =
  inr [ {| video_id := 2; title := "JP | EN"; transcript_id := 20 |} ].
Proof.
  refine (proj1 (filter_keeps_selected untitled_world {[ 2 ]}
    [titled_entry; JDict [("id", JInt 5)]]
    [ {| entry_id := 2;
         entry_plan := Some {| titleJP := Some "JP"; titleEN := Some "EN";
                               transcriptRef := Some 20 |} |};
      {| entry_id := 5; entry_plan := None |} ] _ _)).
  - repeat constructor.
  - repeat constructor.
Defined.

(** C9 as stated fails: an entry that is requested and carries a plan
    with a transcript reference, but no title, is not kept; the filter
    raises instead. *)
Lemma filter_raises_on_untitled :
  decode_entry untitled_entry = Some untitled_decoded
  /\ selected {[ 1 ]} untitled_decoded = true
  /\ filter_catalog untitled_world (catalog_body [untitled_entry]) {[ 1 ]}
     = inl (KeyError "titleJP")
  /\ ~ exists items,
         filter_catalog untitled_world (catalog_body [untitled_entry]) {[ 1 ]} = inr items.
Proof.
  assert (H : filter_catalog untitled_world (catalog_body [untitled_entry]) {[ 1 ]}
              = inl (KeyError "titleJP")) by (vm_compute; reflexivity).
  repeat split; try (vm_compute; reflexivity); try exact H.
  intros [items Hitems]. rewrite H in Hitems. discriminate.
Qed.

(** ** Orchestrator *)

Lemma get_existing_ids_run (w : world) (c : cursor) :
  get_existing_ids w c = (events_of (get_existing_ids w) c, c, inr (existing_ids w)).
Proof.
  destruct (get_existing_ids_spec w c) as (found & Hrun & _).
  unfold events_of. by rewrite Hrun.
Qed.

(** A run whose selection expression is rejected. *)
Lemma main_invalid (w : world) (expr : string) (msg : string) (c : cursor) :
  validate_and_parse_input expr = inl (ValueError (Some msg)) ->
  main w expr c =
  match fetch_with_backoff w catalog_url 5 1 c with
  | (evs1, c1, r1) =>
      (EvPrint ("Error: " +:+ msg) :: EvSessionOpen :: evs1 ++ [EvSessionClose], c1,
       match r1 with
       | inl e => inl e
       | inr _ => inl (UnboundLocalError "ids")
       end)
  end.
Proof.
  intros Hparse. unfold main. rewrite Hparse.
  unfold with_session, print_exn, emit, raise. simpl exn_text. cbv iota.
  unfold mbind, M_bind, mret, M_ret.
  destruct (fetch_with_backoff w catalog_url 5 1 c) as [[evs1 c1] [e | content]].
  - reflexivity.
  - simpl. by rewrite !app_nil_r.
Qed.

(** A run whose selection expression is accepted, phase by phase. *)
Lemma main_valid (w : world) (expr : string) (ids0 : gset Z) (c : cursor) :
  validate_and_parse_input expr = inr ids0 ->
  main w expr c =
  match fetch_with_backoff w catalog_url 5 1 c with
  | (evs1, c1, inl e) => (EvSessionOpen :: evs1 ++ [EvSessionClose], c1, inl e)
  | (evs1, c1, inr content) =>
      match resolve_ids w ids0 content c1 with
      | (evsr, cr, inl e) => (EvSessionOpen :: evs1 ++ evsr ++ [EvSessionClose], cr, inl e)
      | (evsr, cr, inr ids1) =>
          let evs2 := events_of (get_existing_ids w) cr in
          match filter_catalog w content (remove_existing ids1 (existing_ids w)) with
          | inl e =>
              (EvSessionOpen :: evs1 ++ evsr ++ evs2 ++ [EvSessionClose], cr, inl e)
          | inr videos =>
              match process_videos w videos cr with
              | (evs3, c3, r) =>
                  (EvSessionOpen :: evs1 ++ evsr ++ evs2 ++ evs3 ++ [EvSessionClose], c3, r)
              end
          end
      end
  end.
Proof.
  intros Hparse. unfold main. rewrite Hparse.
  unfold with_session, lift, raise.
  unfold mbind, M_bind, mret, M_ret.
  destruct (fetch_with_backoff w catalog_url 5 1 c) as [[evs1 c1] [e | content]];
    [reflexivity |].
  destruct (resolve_ids w ids0 content c1) as [[evsr cr] [e | ids1]].
  { simpl. by rewrite ?app_nil_r, <- ?app_assoc. }
  rewrite (get_existing_ids_run w cr).
  destruct (filter_catalog w content (remove_existing ids1 (existing_ids w))) as [e | videos].
  { simpl. by rewrite ?app_nil_r, <- ?app_assoc. }
  destruct (process_videos w videos cr) as [[evs3 c3] r].
  simpl. by rewrite ?app_nil_r, <- ?app_assoc.
Qed.

Lemma fetch_attempts_events (w : world) (url : string) (n : Z) (d : Q)
    (attempts : list Z) (c : cursor) :
  forallb (fetch_event url) (events_of (fetch_attempts w url n d attempts) c) = true
  /\ (length (requests (events_of (fetch_attempts w url n d attempts) c)) <= length attempts)%nat
  /\ (attempts <> [] ->
      exists rest, events_of (fetch_attempts w url n d attempts) c = EvGet url :: rest).
Proof.
  revert c. induction attempts as [| a rest IH]; intros c.
  - repeat split; [simpl; lia | done].
  - unfold events_of in *. simpl fetch_attempts.
    unfold mbind, M_bind, session_get, uniform01, print, emit, raise, mret, M_ret, sleep.
    destruct (net w (gets c) url) as [body | cause].
    + simpl. rewrite String.eqb_refl. repeat split; [lia | eauto].
    + destruct (a =? n - 1).
      * simpl. rewrite String.eqb_refl. repeat split; [lia | eauto].
      * specialize (IH {| gets := S (gets c); draws := S (draws c) |}).
        destruct (Qle_bool 0 _).
        -- simpl.
           destruct (fetch_attempts w url n d rest _) as [[evs c'] r].
           simpl in IH |- *. destruct IH as (Hall & Hlen & _).
           rewrite String.eqb_refl. repeat split; [exact Hall | lia | eauto].
        -- simpl. rewrite String.eqb_refl. repeat split; [lia | eauto].
Qed.

Lemma fetch_events_requests (url : string) (evs : list event) :
  forallb (fetch_event url) evs = true ->
  requests evs = replicate (length (requests evs)) url /\ writes evs = []
  /\ session_opened evs = false.
Proof.
  induction evs as [| ev evs IH]; simpl; [done |].
  rewrite andb_true_iff. intros [Hev Hevs]. destruct (IH Hevs) as (Hr & Hw & Hs).
  destruct ev; simpl in *; try discriminate; try done.
  apply String.eqb_eq in Hev as ->. split; [by f_equal | done].
Qed.

(** The requests of one call of [fetch_with_backoff] with five attempts:
    between one and five, all for the same address. *)
Lemma fetch_with_backoff_requests (w : world) (url : string) (d : Q) (c : cursor) :
  exists k rest,
    (1 <= k <= 5)%nat
    /\ events_of (fetch_with_backoff w url 5 d) c = EvGet url :: rest
    /\ requests (events_of (fetch_with_backoff w url 5 d) c) = replicate k url
    /\ writes (events_of (fetch_with_backoff w url 5 d) c) = []
    /\ session_opened (events_of (fetch_with_backoff w url 5 d) c) = false.
Proof.
  unfold fetch_with_backoff.
  destruct (fetch_attempts_events w url 5 d (seqZ 0 5) c) as (Hall & Hlen & Hfirst).
  destruct Hfirst as [rest Hrest]; [done |].
  destruct (fetch_events_requests url _ Hall) as (Hr & Hw & Hs).
  exists (length (requests (events_of (fetch_attempts w url 5 d (seqZ 0 5)) c))), rest.
  repeat split; try done.
  rewrite Hrest. simpl. lia.
Qed.

Lemma console_events_quiet (evs : list event) :
  forallb console_event evs = true ->
  requests evs = [] /\ writes evs = [] /\ session_opened evs = false.
Proof.
  induction evs as [| ev evs IH]; simpl; [done |].
  rewrite andb_true_iff. intros [Hev Hevs]. destruct (IH Hevs) as (Hr & Hw & Hs).
  by destruct ev.
Qed.

Lemma get_existing_ids_console (w : world) (c : cursor) :
  forallb console_event (events_of (get_existing_ids w) c) = true.
Proof.
  destruct (get_existing_ids_spec w c) as (found & Hrun & Hfound).
  unfold events_of. rewrite Hrun. simpl. rewrite forallb_app.
  apply andb_true_iff. split.
  - generalize (List.filter malformed (directory w)).
    induction l as [| f l IH]; [reflexivity | exact IH].
  - by destruct Hfound as [-> | [line ->]].
Qed.

Lemma resolve_ids_console (w : world) (ids : gset Z) (content : json) (c : cursor) :
  forallb console_event (events_of (resolve_ids w ids content) c) = true
  /\ cursor_of (resolve_ids w ids content) c = c.
Proof.
  unfold resolve_ids, events_of, cursor_of.
  destruct (Nat.eqb (size ids) 0); [| done].
  unfold resolve_all, lift, print, emit. unfold mbind at 1 2, M_bind.
  destruct (getitem content "data" ≫= _) as [e | max_id]; [done |].
  simpl. by destruct (ids_up_to max_id).
Qed.

Lemma in_ids_empty (v : json) (b : bool) : in_ids v ∅ = inr b -> b = false.
Proof.
  destruct v as [| [|] | n | x | s | l | fs]; simpl; intros [= <-]; try reflexivity.
  by rewrite andb_false_r.
Qed.

Lemma collect_videos_empty (w : world) (modules : list json) (videos : list Video) :
  collect_videos w ∅ modules = inr videos -> videos = [].
Proof.
  revert videos. induction modules as [| v modules IH]; intros videos; simpl.
  - by intros [= <-].
  - unfold mbind, result_bind.
    destruct (collect_video w ∅ v) as [e | o] eqn:Hv; [discriminate |].
    destruct (collect_videos w ∅ modules) as [e | vs]; [discriminate |].
    assert (o = None) as ->.
    { unfold collect_video in Hv. unfold mbind at 1 2, result_bind in Hv.
      destruct (getitem v "id") as [e | id]; [discriminate |].
      destruct (in_ids id ∅) as [e | b] eqn:Hb; [discriminate |].
      apply in_ids_empty in Hb as ->. simpl in Hv. by injection Hv as <-. }
    intros [= <-]. by apply IH.
Qed.

Lemma filter_catalog_empty (w : world) (content : json) (videos : list Video) :
  filter_catalog w content ∅ = inr videos -> videos = [].
Proof.
  unfold filter_catalog. unfold mbind, result_bind.
  destruct (getitem content "data") as [e | data]; [discriminate |].
  destruct (getitem data "modules") as [e | modules]; [discriminate |].
  destruct (py_iter modules) as [e | l]; [discriminate |].
  apply collect_videos_empty.
Qed.

(** An explicit expression that is accepted names at least one id. *)
Lemma explicit_nonempty (expr : string) (ids : gset Z) :
  validate_and_parse_input expr = inr ids -> expr <> "all" -> ids <> ∅.
Proof.
  intros Hparse Hall.
  destruct (accepted_tokens expr ids Hparse Hall) as (ts & Hne & Hv & _ & Hf & -> & ->).
  destruct ts as [| t ts]; [done |]. simpl in Hf. apply andb_true_iff in Hf as [Ht _].
  assert (Hin : exists n, n ∈ expression_ids (t :: ts)).
  { destruct t as [a | a b].
    - exists (number_value a). apply elem_of_expression_ids.
      exists (Single a). split; [apply list_elem_of_here | reflexivity].
    - exists (number_value a). apply elem_of_expression_ids.
      exists (Range a b). split; [apply list_elem_of_here |].
      simpl in Ht |- *. apply Z.leb_le in Ht. lia. }
  destruct Hin as [n Hn]. set_solver.
Qed.

(** C1 does not hold of the code: after an invalid expression the
    error is printed, but the run is not aborted: the session is opened
    and the catalog is requested, between one and five times; the run
    then ends in an exception, which is the use of the unassigned
    variable [ids] once the catalog has arrived. *)
Theorem invalid_expression_still_fetches (w : world) (expr : string) (c : cursor) :
  (exists e, validate_and_parse_input expr = inl e) ->
  exists msg rest,
    validate_and_parse_input expr = inl (ValueError (Some msg))
    /\ events_of (main w expr) c =
         EvPrint ("Error: " +:+ msg) :: EvSessionOpen :: EvGet catalog_url :: rest
    /\ session_opened (events_of (main w expr) c) = true
    /\ (exists k, (1 <= k <= 5)%nat
                  /\ requests (events_of (main w expr) c) = replicate k catalog_url)
    /\ (exists e, outcome_of (main w expr) c = inl e)
    /\ (forall content,
          outcome_of (fetch_with_backoff w catalog_url 5 1) c = inr content ->
          outcome_of (main w expr) c = inl (UnboundLocalError "ids")).
Proof.
  intros [e He].
  destruct (validate_and_parse_input_error expr e He) as [msg ->].
  destruct (fetch_with_backoff_requests w catalog_url 1 c) as (k & rest & Hk & Hev & Hreq & _).
  unfold events_of, outcome_of in *. rewrite (main_invalid w expr msg c He).
  destruct (fetch_with_backoff w catalog_url 5 1 c) as [[evs1 c1] r1]. simpl in *.
  subst evs1. exists msg, (rest ++ [EvSessionClose]).
  split; [exact He |]. split; [reflexivity |]. split; [reflexivity |]. split; [| split].
  - exists k. split; [exact Hk |].
    change (EvGet catalog_url :: rest ++ [EvSessionClose])
      with ((EvGet catalog_url :: rest) ++ [EvSessionClose]).
    unfold requests in *. rewrite omap_app, Hreq. simpl. by rewrite app_nil_r.
  - destruct r1; eauto.
  - by intros content ->.
Qed.

(** The run on the expression [5-3], with nothing on disk and a catalog
    that answers at once. *)
Lemma invalid_expression_still_fetches_witness :
  exists msg rest,
    validate_and_parse_input "5-3" = inl (ValueError (Some msg))
    /\ events_of (main untitled_world "5-3") start =
         EvPrint ("Error: " +:+ msg) :: EvSessionOpen :: EvGet catalog_url :: rest
    /\ session_opened (events_of (main untitled_world "5-3") start) = true
    /\ (exists k, (1 <= k <= 5)%nat
                  /\ requests (events_of (main untitled_world "5-3") start)
                     = replicate k catalog_url)
    /\ (exists e, outcome_of (main untitled_world "5-3") start = inl e)
    /\ (forall content,
          outcome_of (fetch_with_backoff untitled_world catalog_url 5 1) start = inr content ->
          outcome_of (main untitled_world "5-3") start = inl (UnboundLocalError "ids")).
Proof.
  apply (invalid_expression_still_fetches untitled_world "5-3" start).
  eexists. vm_compute. reflexivity.
Defined.

(** The same run, evaluated. *)
Example main_on_reversed_range :
  main untitled_world "5-3" start =
  ([EvPrint "Error: Invalid range: 5-3. Start must be <= end.";
    EvSessionOpen; EvGet catalog_url; EvSessionClose],
   {| gets := 1; draws := 0 |}, inl (UnboundLocalError "ids")).
Proof. vm_compute. reflexivity. Qed.

Lemma remove_existing_subset (ids existing : gset Z) :
  ids ⊆ existing -> remove_existing ids existing = ∅.
Proof.
  intros Hsub. unfold remove_existing.
  destruct (Nat.ltb_spec 0 (size existing)) as [_ | Hzero]; [set_solver |].
  assert (existing ≡ ∅) by (apply size_empty_iff; lia). set_solver.
Qed.

(** C2: when every id of an explicit expression is already in the index
    of the ids on disk, the work set is empty and the re-run makes no
    network call in addition to the catalog fetch with which every run
    begins: its requests are those of that one fetch (one to five
    requests of the catalog address), no transcript is requested and no
    file is written; when the catalog arrives and the filter goes
    through, no video is collected and the run ends normally. *)
Theorem rerun_fetches_only_catalog (w : world) (expr : string) (ids : gset Z) (c : cursor) :
  validate_and_parse_input expr = inr ids ->
  expr <> "all" ->
  ids ⊆ existing_ids w ->
  remove_existing ids (existing_ids w) = ∅
  /\ requests (events_of (main w expr) c)
     = requests (events_of (fetch_with_backoff w catalog_url 5 1) c)
  /\ (exists k, (1 <= k <= 5)%nat
                /\ requests (events_of (main w expr) c) = replicate k catalog_url)
  /\ writes (events_of (main w expr) c) = []
  /\ (forall content videos,
        outcome_of (fetch_with_backoff w catalog_url 5 1) c = inr content ->
        filter_catalog w content ∅ = inr videos ->
        videos = [] /\ outcome_of (main w expr) c = inr tt).
Proof.
  intros Hparse Hall Hsub.
  pose proof (explicit_nonempty expr ids Hparse Hall) as Hne.
  pose proof (remove_existing_subset ids (existing_ids w) Hsub) as Hempty.
  assert (Hsize : Nat.eqb (size ids) 0 = false).
  { apply Nat.eqb_neq. intros Hz. apply size_empty_iff in Hz.
    apply Hne. by apply leibniz_equiv. }
  destruct (fetch_with_backoff_requests w catalog_url 1 c) as (k & rest & Hk & _ & Hreq & Hw & _).
  assert (Hrun : events_of (main w expr) c =
                 EvSessionOpen :: events_of (fetch_with_backoff w catalog_url 5 1) c ++
                   match outcome_of (fetch_with_backoff w catalog_url 5 1) c with
                   | inl _ => []
                   | inr _ => events_of (get_existing_ids w)
                                (cursor_of (fetch_with_backoff w catalog_url 5 1) c)
                   end ++ [EvSessionClose]
                 /\ forall content videos,
                      outcome_of (fetch_with_backoff w catalog_url 5 1) c = inr content ->
                      filter_catalog w content ∅ = inr videos ->
                      videos = [] /\ outcome_of (main w expr) c = inr tt).
  { unfold events_of, outcome_of, cursor_of. rewrite (main_valid w expr ids c Hparse).
    destruct (fetch_with_backoff w catalog_url 5 1 c) as [[evs1 c1] [e | content]]; simpl.
    { split; [reflexivity | discriminate]. }
    unfold resolve_ids. rewrite Hsize. unfold mret, M_ret. cbv zeta. rewrite Hempty.
    destruct (filter_catalog w content ∅) as [e | videos] eqn:Hf; simpl.
    { split; [reflexivity |]. intros ? ? [= <-] Hf'. congruence. }
    apply filter_catalog_empty in Hf as ->. simpl.
    split; [reflexivity |]. intros ? ? [= <-] Hf'. split; [| reflexivity].
    by apply filter_catalog_empty in Hf'. }
  destruct Hrun as [Hev Hok].
  assert (Hquiet : forall evs, forallb console_event evs = true ->
            requests (EvSessionOpen :: events_of (fetch_with_backoff w catalog_url 5 1) c
                        ++ evs ++ [EvSessionClose])
            = requests (events_of (fetch_with_backoff w catalog_url 5 1) c)
            /\ writes (EvSessionOpen :: events_of (fetch_with_backoff w catalog_url 5 1) c
                         ++ evs ++ [EvSessionClose]) = []).
  { intros evs Hevs. destruct (console_events_quiet evs Hevs) as (Hr & Hw' & _).
    unfold requests, writes in *. simpl. rewrite !omap_app, Hr, Hw', Hw. simpl.
    by rewrite !app_nil_r. }
  assert (Hmid : forallb console_event
            match outcome_of (fetch_with_backoff w catalog_url 5 1) c with
            | inl _ => []
            | inr _ => events_of (get_existing_ids w)
                         (cursor_of (fetch_with_backoff w catalog_url 5 1) c)
            end = true).
  { destruct (outcome_of _ c); [reflexivity | apply get_existing_ids_console]. }
  destruct (Hquiet _ Hmid) as [Hr Hw'].
  split; [exact Hempty |]. rewrite Hev, Hr, Hw'.
  split; [reflexivity |]. split; [eauto |]. split; [reflexivity | exact Hok].
Qed.

(** The re-run for the id 3, whose subtitle file is on disk. *)
Lemma rerun_fetches_only_catalog_witness :
  remove_existing {[ 3 ]} (existing_ids disk_world) = ∅
  /\ requests (events_of (main disk_world "3") start)
     = requests (events_of (fetch_with_backoff disk_world catalog_url 5 1) start)
  /\ writes (events_of (main disk_world "3") start) = [].
Proof.
  destruct (rerun_fetches_only_catalog disk_world "3" {[ 3 ]} start)
    as (Hset & Hreq & _ & Hw & _).
  - vm_compute. reflexivity.
  - discriminate.
  - assert (existing_ids disk_world = {[ 3 ]}) as -> by (vm_compute; reflexivity).
    reflexivity.
  - split; [exact Hset | split; [exact Hreq | exact Hw]].
Defined.

(** The calls that such a re-run does make: the id 3 is already on disk,
    the work set is empty, and the one request is that of the catalog. *)
Lemma rerun_requests_the_catalog :
  validate_and_parse_input "3" = inr {[ 3 ]}
  /\ existing_ids disk_world = {[ 3 ]}
  /\ remove_existing {[ 3 ]} (existing_ids disk_world) = ∅
  /\ requests (events_of (main disk_world "3") start) = [catalog_url]
  /\ length (requests (events_of (main disk_world "3") start)) <> 0%nat.
Proof.
  repeat split; try (vm_compute; reflexivity).
  vm_compute. discriminate.
Qed.

(** The loop body on a requested entry whose plan has a transcript
    reference and lacks a title. *)
Lemma collect_video_untitled (w : world) (ids : gset Z) (v id : json)
    (fields : list (string * json)) :
  getitem v "id" = inr id ->
  in_ids id ids = inr true ->
  getitem v "plan" = inr (JDict fields) ->
  is_Some (assoc "transcriptId" fields) ->
  assoc "titleJP" fields = None \/ assoc "titleEN" fields = None ->
  collect_video w ids v = inl (KeyError (missing_title fields)).
Proof.
  intros Hid Hin Hplan [t Ht] Htitle.
  destruct v as [| | | | | | vf]; try discriminate.
  unfold collect_video. rewrite Hid. unfold mbind at 1, result_bind at 1.
  rewrite Hin. unfold mbind at 1, result_bind at 1. simpl negb. cbv iota.
  assert (Hk : has_key "plan" (JDict vf) = inr true).
  { simpl in Hplan |- *. destruct (assoc "plan" vf); [reflexivity | discriminate]. }
  rewrite Hk. unfold mbind at 1, result_bind at 1. simpl negb. cbv iota.
  rewrite Hplan. unfold mbind at 1, result_bind at 1.
  simpl has_key. rewrite Ht. simpl.
  unfold mbind, result_bind. unfold missing_title. simpl. rewrite Ht.
  destruct (assoc "titleJP" fields) as [jp |]; [| reflexivity].
  destruct Htitle as [? | ->]; [discriminate | reflexivity].
Qed.

(** C10: a requested entry that carries a plan with a transcript
    reference but lacks [titleJP] or [titleEN] makes the filter raise the
    [KeyError] of the missing title; the error is not caught, so the
    whole run ends with it before any video is processed: no transcript
    is requested and no file is written; the entry is neither passed
    over nor reported as a failed item. *)
Theorem missing_title_aborts (w : world) (ids : gset Z) (v id : json)
    (fields : list (string * json)) :
  getitem v "id" = inr id ->
  in_ids id ids = inr true ->
  getitem v "plan" = inr (JDict fields) ->
  is_Some (assoc "transcriptId" fields) ->
  assoc "titleJP" fields = None \/ assoc "titleEN" fields = None ->
  collect_video w ids v = inl (KeyError (missing_title fields))
  /\ (forall pre post,
        (exists e, collect_videos w ids (pre ++ v :: post) = inl e)
        /\ (forall vs, collect_videos w ids pre = inr vs ->
              collect_videos w ids (pre ++ v :: post) = inl (KeyError (missing_title fields))))
  /\ (forall expr c ids0 ids1 content data pre post,
        validate_and_parse_input expr = inr ids0 ->
        outcome_of (fetch_with_backoff w catalog_url 5 1) c = inr content ->
        outcome_of (resolve_ids w ids0 content)
                   (cursor_of (fetch_with_backoff w catalog_url 5 1) c) = inr ids1 ->
        ids = remove_existing ids1 (existing_ids w) ->
        getitem content "data" = inr data ->
        getitem data "modules" = inr (JList (pre ++ v :: post)) ->
        (exists e, outcome_of (main w expr) c = inl e
                   /\ forall vs, collect_videos w ids pre = inr vs ->
                                 e = KeyError (missing_title fields))
        /\ requests (events_of (main w expr) c)
           = requests (events_of (fetch_with_backoff w catalog_url 5 1) c)
        /\ writes (events_of (main w expr) c) = []).
Proof.
  intros Hid Hin Hplan Ht Htitle.
  pose proof (collect_video_untitled w ids v id fields Hid Hin Hplan Ht Htitle) as Hbody.
  assert (Hlist : forall pre post,
            collect_videos w ids (pre ++ v :: post) =
            match collect_videos w ids pre with
            | inl e => inl e
            | inr _ => inl (KeyError (missing_title fields))
            end).
  { intros pre post. rewrite collect_videos_app. simpl. rewrite Hbody.
    by destruct (collect_videos w ids pre). }
  split; [exact Hbody |]. split.
  - intros pre post. rewrite Hlist. split.
    + destruct (collect_videos w ids pre); eauto.
    + by intros vs ->.
  - intros expr c ids0 ids1 content data pre post Hparse Hfetch Hres -> Hdata Hmods.
    destruct (fetch_with_backoff_requests w catalog_url 1 c) as (k & rest & _ & _ & _ & Hw & _).
    unfold outcome_of, events_of, cursor_of in *.
    rewrite (main_valid w expr ids0 c Hparse).
    destruct (fetch_with_backoff w catalog_url 5 1 c) as [[evs1 c1] r1]. simpl in *. subst r1.
    pose proof (resolve_ids_console w ids0 content c1) as [Hcons _].
    unfold events_of in Hcons.
    destruct (resolve_ids w ids0 content c1) as [[evsr cr] rr]. simpl in *. subst rr.
    assert (Hf : filter_catalog w content (remove_existing ids1 (existing_ids w)) =
                 match collect_videos w (remove_existing ids1 (existing_ids w)) pre with
                 | inl e => inl e
                 | inr _ => inl (KeyError (missing_title fields))
                 end).
    { unfold filter_catalog. rewrite Hdata. unfold mbind at 1, result_bind at 1.
      rewrite Hmods. unfold mbind at 1, result_bind at 1. simpl py_iter.
      unfold mbind at 1, result_bind at 1. apply Hlist. }
    rewrite Hf.
    destruct (console_events_quiet evsr Hcons) as (Hr1 & Hw1 & _).
    destruct (console_events_quiet _ (get_existing_ids_console w cr)) as (Hr2 & Hw2 & _).
    unfold events_of in Hr2, Hw2.
    assert (Hq : requests (EvSessionOpen :: evs1 ++ evsr ++ (get_existing_ids w cr).1.1
                             ++ [EvSessionClose]) = requests evs1
                 /\ writes (EvSessionOpen :: evs1 ++ evsr ++ (get_existing_ids w cr).1.1
                              ++ [EvSessionClose]) = []).
    { unfold requests, writes in *. simpl.
      rewrite !omap_app, Hr1, Hr2, Hw1, Hw2, Hw. simpl. by rewrite !app_nil_r. }
    destruct (collect_videos w (remove_existing ids1 (existing_ids w)) pre) as [e | vs];
      simpl; (split; [| exact Hq]).
    + exists e. split; [reflexivity | discriminate].
    + eexists. split; [reflexivity | done].
Qed.

(** The run for the ids 1 and 2 on a catalog whose entry 1 has a
    transcript reference and no titles. *)
Lemma missing_title_aborts_witness :
  collect_video untitled_world {[ 1; 2 ]} untitled_entry = inl (KeyError "titleJP")
  /\ (exists e, outcome_of (main untitled_world "1,2") start = inl e
                /\ forall vs, collect_videos untitled_world {[ 1; 2 ]} [titled_entry] = inr vs ->
                              e = KeyError "titleJP")
  /\ requests (events_of (main untitled_world "1,2") start)
     = requests (events_of (fetch_with_backoff untitled_world catalog_url 5 1) start)
  /\ writes (events_of (main untitled_world "1,2") start) = [].
Proof.
  destruct (missing_title_aborts untitled_world {[ 1; 2 ]} untitled_entry (JInt 1)
              [("transcriptId", JInt 10)]) as (Hbody & _ & Hmain).
  - reflexivity.
  - vm_compute. reflexivity.
  - reflexivity.
  - simpl. eauto.
  - left. reflexivity.
  - split; [exact Hbody |].
    apply (Hmain "1,2" start {[ 1; 2 ]} {[ 1; 2 ]}
             (catalog_body [titled_entry; untitled_entry])
             (JDict [("modules", JList [titled_entry; untitled_entry])])
             [titled_entry] []).
    + vm_compute. reflexivity.
    + vm_compute. reflexivity.
    + vm_compute. reflexivity.
    + vm_compute. reflexivity.
    + reflexivity.
    + reflexivity.
Defined.

(** The same run, evaluated. *)
Example main_on_untitled_entry :
  main untitled_world "1,2" start =
  ([EvSessionOpen; EvGet catalog_url; EvSessionClose],
   {| gets := 1; draws := 0 |}, inl (KeyError "titleJP")).
Proof. vm_compute. reflexivity. Qed.

(** * Further properties of the code *)

(** ** BackoffFetcher *)

(** X1: with [max_retries <= 0] the loop of [fetch_with_backoff] has no
    turn: no request is made, nothing is slept or printed, and the
    function returns [None] rather than raising. *)
Theorem fetch_with_backoff_no_attempt (w : world) (url : string) (max_retries : Z)
    (initial_delay : Q) (c : cursor) :
  max_retries <= 0 ->
  fetch_with_backoff w url max_retries initial_delay c = ([], c, inr JNull).
Proof.
  intros Hn. unfold fetch_with_backoff. by rewrite seqZ_nil.
Qed.

Lemma fetch_with_backoff_no_attempt_witness :
  fetch_with_backoff failing_world "u" 0 1 start = ([], start, inr JNull).
Proof. apply fetch_with_backoff_no_attempt. lia. Defined.

Lemma backoff_delay_nonneg_any (w : world) (d : Q) (a : Z) (k : nat) :
  jitter_in_range w -> (0 <= d)%Q -> (0 <= backoff_delay d a (jitter w k))%Q.
Proof.
  intros Hj Hd. unfold backoff_delay. destruct (Hj k) as [Hk _].
  assert (0 <= inject_Z (2 ^ a))%Q.
  { change 0%Q with (inject_Z 0). rewrite <- Zle_Qle. apply Z.pow_nonneg. lia. }
  nra.
Qed.

(** The loop from attempt [a] on, for any stub. *)
Lemma fetch_attempts_accounting (w : world) (url : string) (n : Z) (d : Q) :
  jitter_in_range w -> (0 <= d)%Q ->
  forall (k : nat) (a : Z) (c : cursor),
    n - a = Z.of_nat (S k) ->
    let run := fetch_attempts w url n d (seqZ a (n - a)) in
    (1 <= length (requests (events_of run c)) <= S k)%nat
    /\ S (length (sleeps (events_of run c))) = length (requests (events_of run c))
    /\ gets (cursor_of run c) = (gets c + length (requests (events_of run c)))%nat
    /\ draws (cursor_of run c) = (draws c + length (sleeps (events_of run c)))%nat
    /\ ((exists body, outcome_of run c = inr body
                      /\ net w (gets (cursor_of run c) - 1) url = Ok200 body)
        \/ (exists cause, outcome_of run c =
                            inl (Exception ("Failed to fetch after " +:+ str_Z n
                                              +:+ " attempts: " +:+ cause))
                          /\ net w (gets (cursor_of run c) - 1) url = Failed cause
                          /\ length (requests (events_of run c)) = S k)).
Proof.
  intros Hj Hd. induction k as [| k IH]; intros a c Hlen run; unfold run;
    rewrite (seqZ_cons a) by lia; unfold events_of, outcome_of, cursor_of;
    simpl fetch_attempts;
    unfold mbind, M_bind, session_get, uniform01, print, emit, raise, mret, M_ret;
    cbv beta.
  - destruct (net w (gets c) url) as [body | cause] eqn:Hnet.
    + cbn. rewrite ?Nat.sub_0_r, Hnet. repeat split; try lia. left. eauto.
    + destruct (Z.eqb_spec a (n - 1)) as [_ | Hne]; [| lia].
      cbn. rewrite ?Nat.sub_0_r, Hnet. repeat split; try lia. right. eauto.
  - destruct (net w (gets c) url) as [body | cause] eqn:Hnet.
    + cbn. rewrite ?Nat.sub_0_r, Hnet. repeat split; try lia. left. eauto.
    + destruct (Z.eqb_spec a (n - 1)) as [Heq | _]; [lia |].
      fold (backoff_delay d a (jitter w (draws c))).
      rewrite sleep_nonneg by (by apply backoff_delay_nonneg_any).
      replace (Z.pred (n - a)) with (n - Z.succ a) by lia.
      specialize (IH (Z.succ a) {| gets := S (gets c); draws := S (draws c) |} ltac:(lia)).
      unfold events_of, outcome_of, cursor_of in IH. cbn in IH |- *.
      destruct (fetch_attempts w url n d (seqZ (Z.succ a) (n - Z.succ a)) _) as [[evs c'] r].
      cbn in IH |- *. destruct IH as (Hreq & Hsl & Hg & Hdr & Hout).
      repeat split; try lia.
      destruct Hout as [(body & -> & Hb) | (cause' & -> & Hc & Hall)]; [left | right]; eauto.
Qed.

(** X2: whatever the stub answers, [fetch_with_backoff] with
    [max_retries >= 1] (jitter in [0, 1), non-negative initial delay)
    makes between 1 and [max_retries] requests, sleeps exactly once
    between consecutive requests, and ends either with the body of its
    last request or with the terminal error that carries the cause of
    the last request, after all [max_retries] requests. *)
Theorem fetch_with_backoff_accounting (w : world) (url : string) (max_retries : Z)
    (initial_delay : Q) (c : cursor) :
  1 <= max_retries ->
  jitter_in_range w ->
  (0 <= initial_delay)%Q ->
  let run := fetch_with_backoff w url max_retries initial_delay in
  (1 <= length (requests (events_of run c)) <= Z.to_nat max_retries)%nat
  /\ S (length (sleeps (events_of run c))) = length (requests (events_of run c))
  /\ gets (cursor_of run c) = (gets c + length (requests (events_of run c)))%nat
  /\ draws (cursor_of run c) = (draws c + length (sleeps (events_of run c)))%nat
  /\ ((exists body, outcome_of run c = inr body
                    /\ net w (gets (cursor_of run c) - 1) url = Ok200 body)
      \/ (exists cause, outcome_of run c =
                          inl (Exception ("Failed to fetch after " +:+ str_Z max_retries
                                            +:+ " attempts: " +:+ cause))
                        /\ net w (gets (cursor_of run c) - 1) url = Failed cause
                        /\ length (requests (events_of run c)) = Z.to_nat max_retries)).
Proof.
  intros Hn Hj Hd run. unfold run, fetch_with_backoff.
  pose proof (fetch_attempts_accounting w url max_retries initial_delay Hj Hd
                (Z.to_nat (max_retries - 1)) 0 c ltac:(lia)) as H.
  rewrite Z.sub_0_r in H. cbv zeta in H.
  replace (S (Z.to_nat (max_retries - 1))) with (Z.to_nat max_retries) in H by lia.
  exact H.
Qed.

Lemma fetch_with_backoff_accounting_witness :
  (1 <= length (requests (events_of (fetch_with_backoff flaky_world "u" 5 1) start)) <= 5)%nat
  /\ S (length (sleeps (events_of (fetch_with_backoff flaky_world "u" 5 1) start)))
     = length (requests (events_of (fetch_with_backoff flaky_world "u" 5 1) start)).
Proof.
  destruct (fetch_with_backoff_accounting flaky_world "u" 5 1 start) as (H1 & H2 & _).
  - lia.
  - intros k. simpl. destruct (k =? 0)%nat; split; unfold Qle, Qlt; simpl; lia.
  - unfold Qle; simpl; lia.
  - split; [exact H1 | exact H2].
Defined.

(** ** Time stamps *)

Lemma all_digits_format_0wd (width : nat) (n : Z) :
  0 <= n -> all_digits (format_0wd width n) = true.
Proof.
  intros Hn. unfold format_0wd.
  destruct (Z.ltb_spec n 0) as [? | _]; [lia |].
  destruct (str_N_spec (Z.abs_N n)) as (Hd & _ & _).
  by rewrite string_app_nil_l, all_digits_app, all_digits_zeros, Hd.
Qed.

(** X3: for a non-negative double, the four fields of the time stamp
    are digit strings that read back as hours, minutes, seconds and
    milliseconds; hours, minutes and seconds add up to the whole seconds
    of the time, and the total in milliseconds is the time truncated to
    whole milliseconds, or one more: the stamp is never a millisecond
    or more away from the time. *)
Theorem decimal_to_vtt_time_reads_back (x : Q) :
  (0 <= x)%Q -> is_double x = true ->
  exists (hh mm ss mmm : string) (h m s ms : Z),
    decimal_to_vtt_time x = hh +:+ ":" +:+ mm +:+ ":" +:+ ss +:+ "." +:+ mmm
    /\ all_digits hh = true /\ all_digits mm = true
    /\ all_digits ss = true /\ all_digits mmm = true
    /\ py_int hh = Some h /\ py_int mm = Some m
    /\ py_int ss = Some s /\ py_int mmm = Some ms
    /\ 0 <= m < 60 /\ 0 <= s < 60 /\ 0 <= ms < 1000
    /\ h * 3600 + m * 60 + s = Qfloor x
    /\ Qfloor (x * inject_Z 1000) <= (h * 3600 + m * 60 + s) * 1000 + ms
       <= Qfloor (x * inject_Z 1000) + 1.
Proof.
  intros Hx Hd.
  destruct (decimal_to_vtt_time_double x Hx Hd) as (_ & Hwhole & Hms & Heq).
  destruct (double_fraction x Hx Hd) as (_ & _ & Hfrac).
  destruct (frac_bounds x) as [Hf0 Hf1].
  destruct (milliseconds_bounds _ Hf0 Hfrac) as (_ & _ & Hnear & _ & _).
  set (whole := Qfloor x) in *.
  set (frac := (x - inject_Z whole)%Q) in *.
  set (ms := Qfloor (fmul frac (inject_Z 1000))) in *.
  assert (Hm : 0 <= (whole mod 3600) / 60 < 60).
  { pose proof (Z.mod_pos_bound whole 3600 ltac:(lia)).
    split; [apply Z.div_pos; lia | apply Z.div_lt_upper_bound; lia]. }
  assert (Hs : 0 <= whole mod 60 < 60) by (apply Z.mod_pos_bound; lia).
  assert (Hh : 0 <= whole / 3600) by (apply Z.div_pos; lia).
  exists (format_0wd 2 (whole / 3600)), (format_0wd 2 ((whole mod 3600) / 60)),
    (format_0wd 2 (whole mod 60)), (format_0wd 3 ms),
    (whole / 3600), ((whole mod 3600) / 60), (whole mod 60), ms.
  split; [by rewrite !format_0wd_nonneg by lia |].
  rewrite !all_digits_format_0wd, !py_int_format_0wd by lia.
  assert (Hsum : (whole / 3600 * 3600 + whole mod 3600 / 60 * 60 + whole mod 60) = whole).
  { pose proof (Z.div_mod whole 3600 ltac:(lia)).
    pose proof (Z.div_mod (whole mod 3600) 60 ltac:(lia)).
    pose proof (Z.mod_mod_divide whole 3600 60 ltac:(exists 60; lia)). lia. }
  assert (Hfloor : Qfloor (x * inject_Z 1000)
                   = whole * 1000 + Qfloor (frac * inject_Z 1000)).
  { apply Qfloor_unique.
    - pose proof (Qfloor_le (frac * inject_Z 1000)) as Hle.
      rewrite inject_Z_plus, inject_Z_mult. unfold frac in *.
      change (inject_Z 1000) with 1000%Q in *. lra.
    - pose proof (Qlt_floor (frac * inject_Z 1000)) as Hlt.
      rewrite !inject_Z_plus, inject_Z_mult in *. unfold frac in *.
      change (inject_Z 1000) with 1000%Q in *. change (inject_Z 1) with 1%Q in *. lra. }
  rewrite Hsum, Hfloor.
  repeat split; try lia.
Qed.

Lemma decimal_to_vtt_time_reads_back_witness :
  exists (hh mm ss mmm : string) (h m s ms : Z),
    decimal_to_vtt_time double_3725_4567
      = hh +:+ ":" +:+ mm +:+ ":" +:+ ss +:+ "." +:+ mmm
    /\ all_digits hh = true /\ all_digits mm = true
    /\ all_digits ss = true /\ all_digits mmm = true
    /\ py_int hh = Some h /\ py_int mm = Some m
    /\ py_int ss = Some s /\ py_int mmm = Some ms
    /\ 0 <= m < 60 /\ 0 <= s < 60 /\ 0 <= ms < 1000
    /\ h * 3600 + m * 60 + s = Qfloor double_3725_4567
    /\ Qfloor (double_3725_4567 * inject_Z 1000) <= (h * 3600 + m * 60 + s) * 1000 + ms
       <= Qfloor (double_3725_4567 * inject_Z 1000) + 1.
Proof.
  apply (decimal_to_vtt_time_reads_back double_3725_4567).
  - vm_compute. discriminate.
  - vm_compute. reflexivity.
Defined.

(** ** IdentifierResolver *)

(** X4: among the accepted inputs, the empty set is returned for [all]
    and for nothing else: an explicit expression can never be taken for
    the request to download everything. *)
Theorem empty_only_for_all (s : string) :
  validate_and_parse_input s = inr ∅ <-> s = "all".
Proof.
  split.
  - intros Hparse. destruct (String.eqb_spec s "all") as [? | Hall]; [done |].
    by destruct (explicit_nonempty s ∅ Hparse Hall).
  - by intros ->.
Qed.

Lemma number_from_nonneg (s : string) (acc : Z) : 0 <= acc -> 0 <= number_from acc s.
Proof.
  revert acc. induction s as [| c s IH]; intros acc Hacc; simpl; [exact Hacc |].
  apply IH. lia.
Qed.

(** X5: the parser never yields a negative id. *)
Theorem parsed_ids_nonnegative (s : string) (ids : gset Z) :
  validate_and_parse_input s = inr ids -> forall n, n ∈ ids -> 0 <= n.
Proof.
  intros Hparse n Hn.
  destruct (String.eqb_spec s "all") as [-> | Hall].
  - injection Hparse as <-. set_solver.
  - destruct (accepted_tokens s ids Hparse Hall) as (ts & _ & _ & _ & _ & _ & ->).
    apply elem_of_expression_ids in Hn as (t & _ & Hd).
    destruct t as [a | a b]; simpl in Hd.
    + subst n. by apply number_from_nonneg.
    + pose proof (number_from_nonneg a 0 ltac:(lia)). unfold number_value in Hd. lia.
Qed.

Lemma parsed_ids_nonnegative_witness :
  validate_and_parse_input "1,4-6,9-10" = inr (list_to_set [1; 4; 5; 6; 9; 10])
  /\ 0 <= 9.
Proof.
  assert (Hrun : validate_and_parse_input "1,4-6,9-10"
                 = inr (list_to_set [1; 4; 5; 6; 9; 10])) by (vm_compute; reflexivity).
  split; [exact Hrun |].
  apply (parsed_ids_nonnegative "1,4-6,9-10" (list_to_set [1; 4; 5; 6; 9; 10]) Hrun 9).
  set_solver.
Defined.

Lemma comma_separated_app (l1 l2 : list string) :
  l1 <> [] -> l2 <> [] ->
  comma_separated (l1 ++ l2) = comma_separated l1 +:+ "," +:+ comma_separated l2.
Proof.
  induction l1 as [| p l1 IH]; [done |]. intros _ Hne.
  destruct l1 as [| q l1].
  - destruct l2 as [| r l2]; [done | reflexivity].
  - change (comma_separated ((p :: q :: l1) ++ l2))
      with (p +:+ "," +:+ comma_separated ((q :: l1) ++ l2)).
    rewrite IH by done.
    change (comma_separated (p :: q :: l1)) with (p +:+ "," +:+ comma_separated (q :: l1)).
    by rewrite !string_app_assoc.
Qed.

Lemma expression_ids_app (ts1 ts2 : list token) :
  expression_ids (ts1 ++ ts2) = expression_ids ts1 ∪ expression_ids ts2.
Proof.
  unfold expression_ids. rewrite map_app. apply leibniz_equiv, union_list_app.
Qed.

(** X6: joining two accepted explicit expressions with a comma gives an
    accepted expression whose ids are the union of theirs; so the order
    of the parts does not matter and repeated or overlapping parts add
    nothing. *)
Theorem parse_comma_union (a b : string) (A B : gset Z) :
  validate_and_parse_input a = inr A -> a <> "all" ->
  validate_and_parse_input b = inr B -> b <> "all" ->
  validate_and_parse_input (a +:+ "," +:+ b) = inr (A ∪ B)
  /\ validate_and_parse_input (b +:+ "," +:+ a) = inr (A ∪ B)
  /\ validate_and_parse_input (a +:+ "," +:+ a) = inr A.
Proof.
  intros Ha Ha' Hb Hb'.
  destruct (accepted_tokens a A Ha Ha') as (ta & Hnea & Hva & Hla & Hoa & -> & ->).
  destruct (accepted_tokens b B Hb Hb') as (tb & Hneb & Hvb & Hlb & Hob & -> & ->).
  assert (Hjoin : forall t1 t2,
            t1 <> [] -> t2 <> [] ->
            forallb valid_token t1 = true -> forallb valid_token t2 = true ->
            forallb within_limit t1 = true -> forallb within_limit t2 = true ->
            forallb ordered t1 = true -> forallb ordered t2 = true ->
            validate_and_parse_input (expression_text t1 +:+ "," +:+ expression_text t2)
            = inr (expression_ids t1 ∪ expression_ids t2)).
  { intros t1 t2 Hn1 Hn2 Hv1 Hv2 Hl1 Hl2 Ho1 Ho2. unfold expression_text.
    rewrite <- comma_separated_app by first [by destruct t1 | by destruct t2].
    rewrite <- map_app. fold (expression_text (t1 ++ t2)).
    rewrite validate_and_parse_input_tokens.
    - assert (Hf : first_error (t1 ++ t2) = None).
      { apply first_error_none. rewrite !forallb_app. by rewrite Hl1, Hl2, Ho1, Ho2. }
      by rewrite Hf, expression_ids_app.
    - by destruct t1.
    - rewrite forallb_app. by rewrite Hv1, Hv2. }
  split; [by apply Hjoin |]. split.
  - rewrite (Hjoin tb ta) by done. f_equal. set_solver.
  - rewrite (Hjoin ta ta) by done. f_equal. set_solver.
Qed.

Lemma parse_comma_union_witness :
  validate_and_parse_input ("1,4-6" +:+ "," +:+ "5-7")
  = inr (list_to_set [1; 4; 5; 6] ∪ list_to_set [5; 6; 7]).
Proof.
  refine (proj1 (parse_comma_union "1,4-6" "5-7" _ _ _ _ _ _));
    first [discriminate | vm_compute; reflexivity].
Defined.

(** ** Handling one video, handling them all *)

Lemma prefix_app (s t : string) : String.prefix s (s +:+ t) = true.
Proof.
  induction s as [| a s IH]; [by destruct t |].
  rewrite string_app_cons. simpl. by destruct (ascii_dec a a).
Qed.

Lemma fetch_events_item (url : string) (evs : list event) :
  forallb (fetch_event url) evs = true -> forallb item_event evs = true.
Proof.
  induction evs as [| ev evs IH]; simpl; [done |].
  rewrite !andb_true_iff. intros [Hev Hevs]. split; [by destruct ev | by apply IH].
Qed.

Lemma done_steps_sound (steps : list (fs_op * event)) :
  done_steps sound_disk steps = map snd steps /\ first_failure sound_disk steps = None.
Proof.
  induction steps as [| [op ev] steps [IH1 IH2]]; [done |].
  simpl. by rewrite IH1, IH2.
Qed.

(** The operations that happen are the first ones of the list, and all
    of them exactly when none fails. *)
Lemma done_steps_prefix (d : disk) (steps : list (fs_op * event)) :
  done_steps d steps `prefix_of` map snd steps
  /\ (first_failure d steps = None <-> done_steps d steps = map snd steps).
Proof.
  induction steps as [| [op ev] steps [IH1 IH2]]; simpl.
  - split; [apply prefix_nil | done].
  - destruct (d op) as [e |].
    + split; [apply prefix_nil | split; discriminate].
    + split; [by apply prefix_cons |]. rewrite IH2. split; [by intros -> | by intros [= ->]].
Qed.

(** [process_video], step by step. *)
Lemma process_video_run (w : world) (video : Video) (c : cursor) :
  process_video w video c =
  match fetch_with_backoff w (transcript_url video) 5 1 c with
  | (evs, c1, inl e) => (evs, c1, inl e)
  | (evs, c1, inr transcript_data) =>
      match (data ← getitem transcript_data "data";
             cues ← getitem data "cues";
             cues ← py_iter cues;
             transcode w cues) with
      | inl e => (evs, c1, inl e)
      | inr out => (evs ++ disk_events w video (fst out) (snd out), c1, inr tt)
      end
  end.
Proof.
  unfold process_video. rewrite process_video_on_run.
  destruct (fetch_with_backoff w (transcript_url video) 5 1 c) as [[evs c1] [e | body]];
    [reflexivity |].
  by destruct (getitem body "data" ≫= _) as [e | out].
Qed.

(** The two ways [process_video] can end. *)
Lemma process_video_cases (w : world) (video : Video) (c : cursor) :
  exists (evs : list event) (c' : cursor) (k : nat),
    (1 <= k <= 5)%nat
    /\ forallb (fetch_event (transcript_url video)) evs = true
    /\ requests evs = replicate k (transcript_url video)
    /\ ((exists e, process_video w video c = (evs, c', inl e))
        \/ (exists vtt raw,
              process_video w video c = (evs ++ disk_events w video vtt raw, c', inr tt))).
Proof.
  destruct (fetch_with_backoff_requests w (transcript_url video) 1 c)
    as (k & rest & Hk & _ & Hreq & _).
  destruct (fetch_attempts_events w (transcript_url video) 5 1 (seqZ 0 5) c) as (Hall & _).
  fold (fetch_with_backoff w (transcript_url video) 5 1) in Hall.
  unfold events_of in *. rewrite (process_video_run w video c).
  destruct (fetch_with_backoff w (transcript_url video) 5 1 c) as [[evs c1] [e | body]];
    simpl in *.
  { exists evs, c1, k. repeat split; try done; try lia. left. eauto. }
  destruct (getitem body "data" ≫= _) as [e | [vtt raw]].
  - exists evs, c1, k. repeat split; try done; try lia. left. eauto.
  - exists evs, c1, k. repeat split; try done; try lia. right. eauto.
Qed.

Lemma disk_events_quiet (w : world) (video : Video) (vtt raw : string) (l : list event) :
  l `prefix_of` disk_events w video vtt raw ->
  requests l = [] /\ forallb item_event l = true.
Proof.
  intros [rest Hl]. unfold disk_events, disk_steps in Hl. simpl in Hl.
  assert (Hall : forallb item_event (l ++ rest) = true).
  { rewrite <- Hl. simpl. unfold output_path. by rewrite !prefix_app. }
  assert (Hreq : requests (l ++ rest) = []) by (by rewrite <- Hl).
  rewrite forallb_app in Hall. apply andb_true_iff in Hall as [Hall _].
  unfold requests in *. rewrite omap_app in Hreq. apply app_eq_nil in Hreq as [Hreq _].
  by split.
Qed.

(** X7: [process_video] on a disk that can fail.  Whatever the network
    and the disk do, the run is a fetch (one to five requests for the
    transcript of the video, retry notices and pauses) followed by the
    first operations of a fixed list: make the directory, open the
    subtitle file, write it, open the text file, write it.  The disk is
    not touched before the transcript has arrived and has been transcoded
    as a whole; the text file is not opened before the subtitle file is
    written; the content of each file is written at once.  The call
    returns normally exactly when all five operations happened; on a disk
    that does not fail it therefore leaves both files or nothing. *)
Theorem process_video_disk_order (d : disk) (w : world) (video : Video) (c : cursor) :
  exists (k : nat) (evs tail : list event) (vtt raw : string),
    (1 <= k <= 5)%nat
    /\ events_of (process_video_on d w video) c = evs ++ tail
    /\ forallb (fetch_event (transcript_url video)) evs = true
    /\ requests (events_of (process_video_on d w video) c)
       = replicate k (transcript_url video)
    /\ tail `prefix_of` disk_events w video vtt raw
    /\ (outcome_of (process_video_on d w video) c = inr tt
        <-> tail = disk_events w video vtt raw)
    /\ (tail <> [] ->
        exists body,
          outcome_of (fetch_with_backoff w (transcript_url video) 5 1) c = inr body
          /\ (data ← getitem body "data";
              cues ← getitem data "cues";
              cues ← py_iter cues;
              transcode w cues) = inr (vtt, raw))
    /\ ((forall op, d op = None) -> tail = [] \/ tail = disk_events w video vtt raw).
Proof.
  destruct (fetch_with_backoff_requests w (transcript_url video) 1 c)
    as (k & rest & Hk & _ & Hreq & _).
  destruct (fetch_attempts_events w (transcript_url video) 5 1 (seqZ 0 5) c) as (Hall & _).
  fold (fetch_with_backoff w (transcript_url video) 5 1) in Hall.
  unfold events_of, outcome_of in *. rewrite (process_video_on_run d w video c).
  destruct (fetch_with_backoff w (transcript_url video) 5 1 c) as [[evs c1] [e | body]];
    cbn [fst snd] in *.
  { exists k, evs, [], "", "". rewrite app_nil_r.
    repeat split; try done; try lia; try apply prefix_nil. by left. }
  destruct (getitem body "data" ≫= _) as [e | [vtt raw]] eqn:Hout.
  { exists k, evs, [], "", "". rewrite app_nil_r. cbn [fst snd].
    repeat split; try done; try lia; try apply prefix_nil. by left. }
  cbn [fst snd].
  destruct (done_steps_prefix d (disk_steps w video vtt raw)) as [Hpre Hiff].
  fold (disk_events w video vtt raw) in Hpre, Hiff.
  destruct (disk_events_quiet w video vtt raw _ Hpre) as [Hquiet _].
  exists k, evs, (done_steps d (disk_steps w video vtt raw)), vtt, raw.
  split; [lia |]. split; [reflexivity |]. split; [exact Hall |]. split.
  { by rewrite requests_app, Hreq, Hquiet, app_nil_r. }
  split; [exact Hpre |]. split; [| split].
  - rewrite <- Hiff. destruct (first_failure d _); split; (discriminate || done).
  - intros _. exists body. split; [reflexivity | exact Hout].
  - intros Hd. right. apply Hiff.
    assert (Hsound : forall steps, first_failure d steps = None).
    { induction steps as [| [op ev] steps IH]; [done |]. simpl. by rewrite Hd. }
    apply Hsound.
Qed.

(** The run on a disk that takes the subtitle file and has no room for
    the text file: it raises after the subtitle file is written and the
    text file is opened. *)
Example process_video_on_full_disk :
  process_video_on full_disk transcript_world sample_video start =
  ([EvGet (transcript_url sample_video);
    EvMakedirs "transcripts";
    EvOpen "transcripts/0001 JP | A.vtt";
    EvWrite "transcripts/0001 JP | A.vtt"
      (subtitle_text [ {| startTime := 0; endTime := 3 # 2; text := "A";
                          startsNewParagraph := false |};
                       {| startTime := 3 # 2; endTime := 4; text := "B";
                          startsNewParagraph := true |} ]);
    EvOpen "transcripts/0001 JP | A.txt"],
   {| gets := 1; draws := 0 |}, inl (OSError "No space left on device")).
Proof. vm_compute. reflexivity. Qed.

(** One turn of the loop over the videos: the video is handled, its
    outcome reported, the pause made, and the loop goes on. *)
Lemma process_videos_cons (w : world) (video : Video) (rest : list Video) (c : cursor) :
  process_videos w (video :: rest) c =
  match process_video w video c with
  | (evs, c1, r) =>
      match process_videos w rest c1 with
      | (evs', c2, r') => (evs ++ [report_line video r; EvSleep (1 # 5)] ++ evs', c2, r')
      end
  end.
Proof.
  simpl process_videos. unfold try_except, print_exn, print, emit, report_line.
  unfold mbind, M_bind.
  change (sleep (1 # 5))
    with (fun c0 : cursor => ([EvSleep (1 # 5)], c0, inr tt : result unit)).
  destruct (process_video w video c) as [[evs c1] [e | []]]; simpl.
  - destruct (exn_text e); destruct (process_videos w rest c1) as [[evs' c2] r'];
      simpl; by rewrite <- ?app_assoc.
  - destruct (process_videos w rest c1) as [[evs' c2] r']. simpl. by rewrite <- ?app_assoc.
Qed.

(** X8: the loop over the videos isolates failures.  Whatever the
    network answers and whatever the transcripts hold, it does not
    raise; every video, in order, gets between one and five requests
    for its own transcript, also after an earlier video has failed. *)
Theorem process_videos_isolates_failures (w : world) (videos : list Video) (c : cursor) :
  outcome_of (process_videos w videos) c = inr tt
  /\ exists ks,
       length ks = length videos
       /\ Forall (fun k => (1 <= k <= 5)%nat) ks
       /\ requests (events_of (process_videos w videos) c)
          = concat (zip_with replicate ks (map transcript_url videos)).
Proof.
  revert c. induction videos as [| video rest IH]; intros c.
  - split; [reflexivity |]. exists []. by repeat split.
  - unfold outcome_of, events_of in *. rewrite process_videos_cons.
    destruct (process_video_cases w video c)
      as (evs & c' & k & Hk & _ & Hreq & Hrun).
    assert (Hv : exists evs1 r, process_video w video c = (evs1, c', r)
                                /\ requests evs1 = replicate k (transcript_url video)).
    { destruct Hrun as [[e ->] | (vtt & raw & ->)]; eexists _, _; (split; [reflexivity |]);
        [exact Hreq |]. unfold requests in *. rewrite omap_app, Hreq. simpl.
      by rewrite app_nil_r. }
    destruct Hv as (evs1 & r & -> & Hreq1).
    destruct (IH c') as (Hout & ks & Hlen & Hks & Hreqs).
    destruct (process_videos w rest c') as [[evs' c2] r']. simpl in *.
    split; [exact Hout |]. exists (k :: ks). split; [simpl; by rewrite Hlen |].
    split; [by constructor |].
    unfold requests in *. rewrite omap_app, Hreq1.
    assert (Hmid : omap (fun ev => match ev with EvGet url => Some url | _ => None end)
                     (report_line video r :: EvSleep (1 # 5) :: evs')
                   = omap (fun ev => match ev with EvGet url => Some url | _ => None end) evs').
    { unfold report_line. destruct r as [e | ?]; [destruct (exn_text e) |]; reflexivity. }
    by rewrite Hmid, Hreqs.
Qed.

(** ** The whole run *)

Lemma console_events_item (evs : list event) :
  forallb console_event evs = true -> forallb item_event evs = true.
Proof.
  induction evs as [| ev evs IH]; simpl; [done |].
  rewrite !andb_true_iff. intros [Hev Hevs]. split; [by destruct ev | by apply IH].
Qed.

Lemma process_videos_events (w : world) (videos : list Video) (c : cursor) :
  forallb item_event (events_of (process_videos w videos) c) = true.
Proof.
  revert c. induction videos as [| video rest IH]; intros c; [reflexivity |].
  unfold events_of in *. rewrite process_videos_cons.
  destruct (process_video_cases w video c)
    as (evs & c' & k & _ & Hall & _ & Hrun).
  apply fetch_events_item in Hall.
  assert (Hv : exists evs1 r, process_video w video c = (evs1, c', r)
                              /\ forallb item_event evs1 = true).
  { destruct Hrun as [[e ->] | (vtt & raw & ->)]; eexists _, _; (split; [reflexivity |]);
      [exact Hall |].
    rewrite forallb_app, Hall. simpl. unfold output_path. by rewrite !prefix_app. }
  destruct Hv as (evs1 & r & -> & Hev1).
  specialize (IH c'). destruct (process_videos w rest c') as [[evs' c2] r']. simpl in *.
  rewrite forallb_app, Hev1. simpl. rewrite IH.
  unfold report_line. destruct r as [e | ?]; [destruct (exn_text e) |]; reflexivity.
Qed.

(** Every run has the same frame: console lines at most, then the
    session, inside which everything else happens. *)
Lemma main_frame (w : world) (expr : string) (c : cursor) :
  exists pre mid,
    events_of (main w expr) c = pre ++ EvSessionOpen :: mid ++ [EvSessionClose]
    /\ forallb console_event pre = true
    /\ forallb item_event mid = true.
Proof.
  unfold events_of.
  destruct (validate_and_parse_input expr) as [e | ids] eqn:Hparse.
  - destruct (validate_and_parse_input_error expr e Hparse) as [msg ->].
    rewrite (main_invalid w expr msg c Hparse).
    destruct (fetch_attempts_events w catalog_url 5 1 (seqZ 0 5) c) as (Hall & _).
    fold (fetch_with_backoff w catalog_url 5 1) in Hall. unfold events_of in Hall.
    destruct (fetch_with_backoff w catalog_url 5 1 c) as [[evs1 c1] r1]. simpl in *.
    exists [EvPrint ("Error: " +:+ msg)], evs1.
    split; [reflexivity |]. split; [reflexivity |]. by apply (fetch_events_item catalog_url).
  - rewrite (main_valid w expr ids c Hparse).
    destruct (fetch_attempts_events w catalog_url 5 1 (seqZ 0 5) c) as (Hall & _).
    fold (fetch_with_backoff w catalog_url 5 1) in Hall. unfold events_of in Hall.
    destruct (fetch_with_backoff w catalog_url 5 1 c) as [[evs1 c1] [e | content]];
      simpl in Hall; apply (fetch_events_item catalog_url) in Hall.
    { exists [], evs1. by repeat split. }
    pose proof (resolve_ids_console w ids content c1) as [Hres _].
    unfold events_of in Hres.
    destruct (resolve_ids w ids content c1) as [[evsr cr] [e | ids1]];
      simpl in Hres; apply console_events_item in Hres.
    { exists [], (evs1 ++ evsr). simpl. rewrite <- app_assoc.
      split; [reflexivity |]. split; [reflexivity |]. by rewrite forallb_app, Hall, Hres. }
    pose proof (console_events_item _ (get_existing_ids_console w cr)) as Hex.
    cbv zeta.
    destruct (filter_catalog w content (remove_existing ids1 (existing_ids w))) as [e | videos].
    { exists [], (evs1 ++ evsr ++ events_of (get_existing_ids w) cr). simpl.
      rewrite <- !app_assoc. split; [reflexivity |]. split; [reflexivity |].
      by rewrite !forallb_app, Hall, Hres, Hex. }
    pose proof (process_videos_events w videos cr) as Hproc. unfold events_of in Hproc.
    destruct (process_videos w videos cr) as [[evs3 c3] r]. simpl in Hproc.
    exists [], (evs1 ++ evsr ++ events_of (get_existing_ids w) cr ++ evs3). simpl.
    rewrite <- !app_assoc. split; [reflexivity |]. split; [reflexivity |].
    by rewrite !forallb_app, Hall, Hres, Hex, Hproc.
Qed.

Lemma item_events_no_session (evs : list event) :
  forallb item_event evs = true -> opens evs = 0%nat /\ closes evs = 0%nat.
Proof.
  unfold opens, closes. induction evs as [| ev evs IH]; simpl; [done |].
  rewrite andb_true_iff. intros [Hev Hevs]. destruct (IH Hevs) as [Ho Hc].
  by destruct ev.
Qed.

(** X9: in every run, valid expression or not, success or exception,
    the HTTP session is opened exactly once and closed exactly once, the
    closing being the last thing that happens; every request and every
    file written lies between the two. *)
Theorem session_opened_once_closed_last (w : world) (expr : string) (c : cursor) :
  opens (events_of (main w expr) c) = 1%nat
  /\ closes (events_of (main w expr) c) = 1%nat
  /\ last (events_of (main w expr) c) = Some EvSessionClose
  /\ exists pre mid,
       events_of (main w expr) c = pre ++ EvSessionOpen :: mid ++ [EvSessionClose]
       /\ requests pre = [] /\ writes pre = []
       /\ opens mid = 0%nat /\ closes mid = 0%nat.
Proof.
  destruct (main_frame w expr c) as (pre & mid & Hev & Hpre & Hmid).
  destruct (console_events_quiet pre Hpre) as (Hr & Hw & _).
  destruct (item_events_no_session mid Hmid) as [Ho Hc].
  destruct (item_events_no_session pre (console_events_item pre Hpre)) as [Ho' Hc'].
  rewrite Hev. unfold opens, closes in *.
  repeat split.
  - rewrite List.filter_app, length_app, Ho'. simpl.
    rewrite List.filter_app, length_app, Ho. reflexivity.
  - rewrite List.filter_app, length_app, Hc'. simpl.
    rewrite List.filter_app, length_app, Hc. reflexivity.
  - change (pre ++ EvSessionOpen :: mid ++ [EvSessionClose])
      with (pre ++ (EvSessionOpen :: mid) ++ [EvSessionClose]).
    by rewrite app_assoc, last_snoc.
  - exists pre, mid. by repeat split.
Qed.

Lemma touched_app (a b : list event) : touched (a ++ b) = touched a ++ touched b.
Proof. apply omap_app. Qed.

Lemma fetch_events_untouched (url : string) (evs : list event) :
  forallb (fetch_event url) evs = true -> touched evs = [].
Proof.
  induction evs as [| ev evs IH]; simpl; [done |].
  rewrite andb_true_iff. intros [Hev Hevs]. destruct ev; try discriminate; by apply IH.
Qed.

Lemma console_events_untouched (evs : list event) :
  forallb console_event evs = true -> touched evs = [].
Proof.
  induction evs as [| ev evs IH]; simpl; [done |].
  rewrite andb_true_iff. intros [Hev Hevs]. destruct ev; try discriminate; by apply IH.
Qed.

(** The files the loop over the videos touches are the two output files
    of videos of the list. *)
Lemma process_videos_touched (w : world) (videos : list Video) (c : cursor) (path : string) :
  path ∈ touched (events_of (process_videos w videos) c) ->
  exists video ext, video ∈ videos /\ (ext = ".vtt" \/ ext = ".txt")
                    /\ path = output_path w video ext.
Proof.
  revert c. induction videos as [| video rest IH]; intros c.
  - simpl. by intros ?%elem_of_nil.
  - unfold events_of in *. rewrite process_videos_cons.
    destruct (process_video_cases w video c) as (evs & c' & k & _ & Hall & _ & Hrun).
    apply fetch_events_untouched in Hall.
    assert (Hv : exists evs1 r, process_video w video c = (evs1, c', r)
                   /\ forall p, p ∈ touched evs1 ->
                        p = output_path w video ".vtt" \/ p = output_path w video ".txt").
    { destruct Hrun as [[e ->] | (vtt & raw & ->)]; eexists _, _; (split; [reflexivity |]).
      - rewrite Hall. by intros p ?%elem_of_nil.
      - rewrite touched_app, Hall. simpl. intros p Hp.
        repeat (apply elem_of_cons in Hp as [-> | Hp]; [tauto |]).
        by apply elem_of_nil in Hp. }
    destruct Hv as (evs1 & r & -> & Hev1).
    specialize (IH c'). destruct (process_videos w rest c') as [[evs' c2] r']. simpl in *.
    rewrite touched_app. intros [Hp | Hp]%elem_of_app.
    + exists video. destruct (Hev1 path Hp) as [-> | ->]; [exists ".vtt" | exists ".txt"];
        (split; [apply list_elem_of_here | tauto]).
    + assert (Hrest : path ∈ touched evs').
      { unfold report_line in Hp. destruct r as [e | ?]; [destruct (exn_text e) |]; exact Hp. }
      destruct (IH Hrest) as (v & ext & Hv & Hext & ->).
      exists v, ext. split; [by apply list_elem_of_further | tauto].
Qed.

(** The files a run touches are output files of videos. *)
Lemma main_touched (w : world) (expr : string) (c : cursor) (path : string) :
  path ∈ touched (events_of (main w expr) c) ->
  exists video ext, (ext = ".vtt" \/ ext = ".txt") /\ path = output_path w video ext.
Proof.
  unfold events_of.
  pose proof (fetch_attempts_events w catalog_url 5 1 (seqZ 0 5) c) as [Hall _].
  fold (fetch_with_backoff w catalog_url 5 1) in Hall. unfold events_of in Hall.
  apply fetch_events_untouched in Hall.
  destruct (validate_and_parse_input expr) as [e0 | ids] eqn:Hparse.
  - destruct (validate_and_parse_input_error expr e0 Hparse) as [msg ->].
    rewrite (main_invalid w expr msg c Hparse).
    destruct (fetch_with_backoff w catalog_url 5 1 c) as [[evs1 c1] r1]. simpl in *.
    change (touched (EvPrint ("Error: " +:+ msg) :: EvSessionOpen :: evs1 ++ [EvSessionClose]))
      with (touched (evs1 ++ [EvSessionClose])).
    rewrite touched_app, Hall. by intros ?%elem_of_nil.
  - rewrite (main_valid w expr ids c Hparse).
    destruct (fetch_with_backoff w catalog_url 5 1 c) as [[evs1 c1] [e1 | content]];
      simpl in Hall.
    { simpl.
      change (touched (EvSessionOpen :: evs1 ++ [EvSessionClose]))
        with (touched (evs1 ++ [EvSessionClose])).
      rewrite touched_app, Hall. by intros ?%elem_of_nil. }
    pose proof (resolve_ids_console w ids content c1) as [Hres _].
    unfold events_of in Hres.
    destruct (resolve_ids w ids content c1) as [[evsr cr] [e1 | ids1]]; simpl in Hres;
      apply console_events_untouched in Hres.
    { simpl.
      change (touched (EvSessionOpen :: evs1 ++ evsr ++ [EvSessionClose]))
        with (touched (evs1 ++ evsr ++ [EvSessionClose])).
      rewrite !touched_app, Hall, Hres. by intros ?%elem_of_nil. }
    pose proof (console_events_untouched _ (get_existing_ids_console w cr)) as Hex.
    cbv zeta.
    destruct (filter_catalog w content (remove_existing ids1 (existing_ids w))) as [e1 | videos].
    { simpl.
      change (touched (EvSessionOpen :: evs1 ++ evsr
                         ++ events_of (get_existing_ids w) cr ++ [EvSessionClose]))
        with (touched (evs1 ++ evsr ++ events_of (get_existing_ids w) cr
                         ++ [EvSessionClose])).
      rewrite !touched_app, Hall, Hres, Hex. by intros ?%elem_of_nil. }
    pose proof (process_videos_touched w videos cr path) as Hproc. unfold events_of in Hproc.
    destruct (process_videos w videos cr) as [[evs3 c3] r]. simpl in *.
    change (touched (EvSessionOpen :: evs1 ++ evsr
                       ++ events_of (get_existing_ids w) cr ++ evs3 ++ [EvSessionClose]))
      with (touched (evs1 ++ evsr ++ events_of (get_existing_ids w) cr
                       ++ evs3 ++ [EvSessionClose])).
    rewrite !touched_app, Hall, Hres, Hex. simpl. rewrite app_nil_r.
    intros Hp. destruct (Hproc Hp) as (video & ext & _ & Hext & ->). eauto.
Qed.

Lemma no_sep_app (a b : string) : no_sep (a +:+ b) = no_sep a && no_sep b.
Proof.
  induction a as [| c a IH]; [reflexivity |].
  rewrite string_app_cons. simpl. rewrite IH. by rewrite andb_assoc.
Qed.

Lemma no_sep_zeros (k : nat) : no_sep (zeros k) = true.
Proof. induction k as [| k IH]; [reflexivity | exact IH]. Qed.

Lemma no_sep_digits (s : string) : all_digits s = true -> no_sep s = true.
Proof.
  induction s as [| c s IH]; simpl; [done |].
  rewrite andb_true_iff. intros [Hc Hs]. rewrite (IH Hs), andb_true_r.
  destruct c as [[|] [|] [|] [|] [|] [|] [|] [|]]; try discriminate Hc; reflexivity.
Qed.

Lemma no_sep_format_0wd (width : nat) (n : Z) : no_sep (format_0wd width n) = true.
Proof.
  unfold format_0wd. destruct (str_N_spec (Z.abs_N n)) as (Hd & _ & _).
  rewrite !no_sep_app, no_sep_zeros, (no_sep_digits _ Hd).
  by destruct (n <? 0).
Qed.

Lemma zeros_length (k : nat) : String.length (zeros k) = k.
Proof. induction k as [| k IH]; [reflexivity |]. simpl. by rewrite IH. Qed.

Lemma format_0wd_length (width : nat) (n : Z) :
  (width <= String.length (format_0wd width n))%nat.
Proof.
  unfold format_0wd. rewrite !string_length_app, zeros_length. lia.
Qed.

(** X10: when [sanitize] leaves no path separator in a title, which is
    what the library is there for, every file a run opens or writes is a
    direct child of the output directory: its path is [transcripts/]
    followed by a name without separator that is neither [.] nor [..].
    The id, the space after it and the extension bring no separator
    in. *)
Theorem touched_files_are_children (w : world) (expr : string) (c : cursor) :
  (forall t, no_sep (sanitize w t) = true) ->
  Forall child_of_transcripts (touched (events_of (main w expr) c)).
Proof.
  intros Hsan. apply Forall_forall. intros path Hpath.
  destruct (main_touched w expr c path Hpath) as (video & ext & Hext & ->).
  exists (format_0wd 4 (video_id video) +:+ " " +:+ sanitize w (title video) +:+ ext).
  split; [reflexivity |]. split.
  - rewrite !no_sep_app, no_sep_format_0wd, Hsan. by destruct Hext as [-> | ->].
  - pose proof (format_0wd_length 4 (video_id video)) as Hlen.
    split; intros Heq; apply (f_equal String.length) in Heq;
      rewrite string_length_app in Heq; simpl in Heq; lia.
Qed.

Lemma no_sep_drop_seps (s : string) : no_sep (drop_seps s) = true.
Proof.
  induction s as [| c s IH]; [reflexivity |]. simpl.
  destruct (is_sep c) eqn:Hc; [exact IH |]. simpl. by rewrite Hc, IH.
Qed.

Lemma touched_files_are_children_witness :
  Forall child_of_transcripts (touched (events_of (main tidy_world "2") start)).
Proof.
  apply (touched_files_are_children tidy_world "2" start).
  intros t. apply no_sep_drop_seps.
Defined.

(** The files of that run. *)
Example main_on_tidy_world :
  touched (events_of (main tidy_world "2") start)
  = ["transcripts/0002 JP | EN.vtt"; "transcripts/0002 JP | EN.vtt";
     "transcripts/0002 JP | EN.txt"; "transcripts/0002 JP | EN.txt"].
Proof. vm_compute. reflexivity. Qed.

(** ** Resolving [all] *)

Lemma py_max_int (a b : Z) :
  py_max (JInt a) (JInt b) = inr (JInt (Z.max a b)).
Proof.
  unfold py_max. simpl. destruct (Qlt_le_dec (inject_Z a) (inject_Z b)) as [Hlt | Hle].
  - rewrite <- Zlt_Qlt in Hlt. do 2 f_equal. lia.
  - rewrite <- Zle_Qle in Hle. do 2 f_equal. lia.
Qed.

Lemma max_id_over_int (modules : list json) (m : Z) :
  Forall (fun v => exists i, getitem v "id" = inr (JInt i)) modules ->
  exists m',
    max_id_over (JInt m) modules = inr (JInt m')
    /\ m <= m'
    /\ (forall v i, v ∈ modules -> getitem v "id" = inr (JInt i) -> i <= m')
    /\ (m' = m \/ exists v, v ∈ modules /\ getitem v "id" = inr (JInt m')).
Proof.
  intros Hall. revert m. induction Hall as [| v vs [i Hi] _ IH]; intros m.
  - exists m. repeat split; [lia | | by left]. intros v i Hv. by apply elem_of_nil in Hv.
  - simpl. rewrite Hi. unfold mbind at 1, result_bind at 1.
    rewrite py_max_int. unfold mbind at 1, result_bind at 1.
    destruct (IH (Z.max m i)) as (m' & -> & Hle & Hup & Hwit).
    exists m'. split; [reflexivity |]. split; [lia |]. split.
    + intros v' i' Hv' Hi'. apply elem_of_cons in Hv' as [-> | Hv'].
      * rewrite Hi in Hi'. injection Hi' as <-. lia.
      * by apply (Hup v').
    + destruct Hwit as [-> | (v' & Hv' & Hm')].
      * destruct (Z.max_spec m i) as [[_ ->] | [_ ->]].
        -- right. exists v. split; [apply list_elem_of_here | exact Hi].
        -- by left.
      * right. exists v'. split; [by apply list_elem_of_further | exact Hm'].
Qed.

(** X11: on a catalog whose entries all carry an integer id, the [all]
    branch announces and returns the ids from 1 up to the largest of 1
    and the ids of the catalog: every id in between is requested, whether
    the catalog has it or not, an empty catalog gives the single id 1,
    and ids below 1 are never requested. *)
Theorem resolve_all_range (w : world) (content data : json) (modules : list json)
    (c : cursor) :
  getitem content "data" = inr data ->
  getitem data "modules" = inr (JList modules) ->
  Forall (fun v => exists i, getitem v "id" = inr (JInt i)) modules ->
  exists (ids : gset Z) (m : Z),
    resolve_all w content c =
      ([EvPrint ("Fetching up everything up until " +:+ str_Z m)], c, inr ids)
    /\ (forall n, n ∈ ids <-> 1 <= n <= m)
    /\ 1 <= m
    /\ (forall v i, v ∈ modules -> getitem v "id" = inr (JInt i) -> i <= m)
    /\ (m = 1 \/ exists v, v ∈ modules /\ getitem v "id" = inr (JInt m))
    /\ (modules = [] -> m = 1).
Proof.
  intros Hdata Hmods Hall.
  destruct (max_id_over_int modules 1 Hall) as (m & Hmax & Hle & Hup & Hwit).
  exists (range_set 1 (m + 1)), m. split; [| split; [| split; [| split; [| split]]]].
  - unfold resolve_all. unfold mbind at 1, M_bind at 1, lift at 1.
    rewrite Hdata. unfold mbind at 1, result_bind at 1.
    rewrite Hmods. unfold mbind at 1, result_bind at 1. simpl py_iter.
    unfold mbind at 1, result_bind at 1. rewrite Hmax.
    unfold mbind, M_bind, print, emit, lift. reflexivity.
  - intros n. rewrite elem_of_range_set. lia.
  - exact Hle.
  - exact Hup.
  - exact Hwit.
  - intros ->. destruct Hwit as [? | (v & Hv & _)]; [done |]. by apply elem_of_nil in Hv.
Qed.

Lemma resolve_all_range_witness :
  exists (ids : gset Z) (m : Z),
    resolve_all untitled_world (catalog_body [titled_entry; untitled_entry]) start =
      ([EvPrint ("Fetching up everything up until " +:+ str_Z m)], start, inr ids)
    /\ (forall n, n ∈ ids <-> 1 <= n <= m)
    /\ 1 <= m
    /\ (forall v i, v ∈ [titled_entry; untitled_entry] ->
                    getitem v "id" = inr (JInt i) -> i <= m)
    /\ (m = 1 \/ exists v, v ∈ [titled_entry; untitled_entry]
                           /\ getitem v "id" = inr (JInt m))
    /\ ([titled_entry; untitled_entry] = [] -> m = 1).
Proof.
  apply (resolve_all_range untitled_world (catalog_body [titled_entry; untitled_entry])
           (JDict [("modules", JList [titled_entry; untitled_entry])])).
  - reflexivity.
  - reflexivity.
  - repeat constructor; eexists; reflexivity.
Defined.

(** ** Output files and the index *)

Lemma leading_id_written (width : nat) (n : Z) (rest : string) :
  leading_id (format_0wd width n +:+ " " +:+ rest) = inr n.
Proof.
  unfold leading_id, split_ws.
  destruct (format_0wd_token width n) as [Hs Hne].
  destruct (split_ws_aux_token (format_0wd width n) "" rest Hs) as (others & Ho);
    [by rewrite string_app_nil_l |].
  change (format_0wd width n +:+ " " +:+ rest)
    with (format_0wd width n +:+ String " " rest).
  by rewrite Ho, string_app_nil_l, py_int_format_0wd.
Qed.

(** X12: the output files of videos with different ids never collide:
    two output paths that are equal belong to the same id, whatever the
    titles and the extension. *)
Theorem output_paths_identify_id (w : world) (v1 v2 : Video) (ext1 ext2 : string) :
  output_path w v1 ext1 = output_path w v2 ext2 -> video_id v1 = video_id v2.
Proof.
  unfold output_path. intros Heq. apply (inj (String.app "transcripts/")) in Heq.
  pose proof (leading_id_written 4 (video_id v1) (sanitize w (title v1) +:+ ext1)) as H1.
  pose proof (leading_id_written 4 (video_id v2) (sanitize w (title v2) +:+ ext2)) as H2.
  rewrite Heq in H1. rewrite H1 in H2. by injection H2.
Qed.

Lemma output_paths_identify_id_witness :
  video_id sample_video = video_id {| video_id := 1; title := "JP | A"; transcript_id := 99 |}.
Proof.
  apply (output_paths_identify_id transcript_world sample_video
           {| video_id := 1; title := "JP | A"; transcript_id := 99 |} ".vtt" ".vtt").
  reflexivity.
Defined.

Lemma collect_video_requested (w : world) (ids : gset Z) (v : json) (i : Z) (video : Video) :
  getitem v "id" = inr (JInt i) ->
  collect_video w ids v = inr (Some video) ->
  i ∈ ids /\ video_id video = i.
Proof.
  intros Hid. unfold collect_video. rewrite Hid.
  unfold mbind at 1 2, result_bind. simpl in_ids.
  destruct (bool_decide_reflect (i ∈ ids)) as [Hin | _]; simpl; [| discriminate].
  unfold mbind, result_bind.
  destruct (has_key "plan" v) as [? | [|]]; simpl; try discriminate.
  destruct (getitem v "plan") as [? | plan]; [discriminate |].
  destruct (has_key "transcriptId" plan) as [? | [|]]; simpl; try discriminate.
  destruct (getitem plan "titleJP") as [? | jp]; [discriminate |].
  destruct (getitem plan "titleEN") as [? | en]; [discriminate |].
  destruct (getitem plan "transcriptId") as [? | t]; [discriminate |].
  simpl. destruct (as_int w t) as [? | tid]; [discriminate |].
  intros [= <-]. by split.
Qed.

Lemma elem_of_remove_existing (i : Z) (ids existing : gset Z) :
  i ∈ remove_existing ids existing <-> i ∈ ids /\ i ∉ existing.
Proof.
  unfold remove_existing. destruct (Nat.ltb_spec 0 (size existing)) as [_ | Hzero].
  - set_solver.
  - assert (existing ≡ ∅) by (apply size_empty_iff; lia). set_solver.
Qed.

(** X13: on a catalog whose entries carry integer ids, the videos
    collected for the ids that are left after the ids on disk are
    removed are all requested and none of them is on disk: a video whose
    subtitle file is indexed is never downloaded again.  There are at
    most as many videos as entries. *)
Theorem collected_videos_are_new (w : world) (ids existing : gset Z)
    (modules : list json) (videos : list Video) :
  Forall (fun v => exists i, getitem v "id" = inr (JInt i)) modules ->
  collect_videos w (remove_existing ids existing) modules = inr videos ->
  Forall (fun video => video_id video ∈ ids /\ video_id video ∉ existing) videos
  /\ (length videos <= length modules)%nat.
Proof.
  intros Hall. revert videos. induction Hall as [| v vs [i Hi] _ IH]; intros videos; simpl.
  - intros [= <-]. split; [constructor | reflexivity].
  - unfold mbind, result_bind.
    destruct (collect_video w _ v) as [? | o] eqn:Hv; [discriminate |].
    destruct (collect_videos w _ vs) as [? | rest]; [discriminate |].
    destruct (IH rest eq_refl) as [Hrest Hlen].
    destruct o as [video |]; intros [= <-].
    + destruct (collect_video_requested w _ v i video Hi Hv) as [Hin <-].
      apply elem_of_remove_existing in Hin. split; [by constructor | simpl; lia].
    + split; [exact Hrest | simpl; lia].
Qed.

Lemma collected_videos_are_new_witness :
  Forall (fun video => video_id video ∈ ({[ 1; 2 ]} : gset Z)
                       /\ video_id video ∉ ({[ 1 ]} : gset Z))
         [ {| video_id := 2; title := "JP | EN"; transcript_id := 20 |} ]
  /\ (length [ {| video_id := 2; title := "JP | EN"; transcript_id := 20 |} ]
      <= length [titled_entry; untitled_entry])%nat.
Proof.
  apply (collected_videos_are_new untitled_world {[ 1; 2 ]} {[ 1 ]}
           [titled_entry; untitled_entry]).
  - repeat constructor; eexists; reflexivity.
  - vm_compute. reflexivity.
Defined.

Lemma int_digits_dot (s : string) (acc : N) (after_digit : bool) :
  contains_char "." s = true -> int_digits acc after_digit s = None.
Proof.
  revert acc after_digit. induction s as [| c s IH]; intros acc after_digit; simpl;
    [discriminate |].
  destruct (Ascii.eqb_spec c ".") as [-> | Hne]; [reflexivity |].
  intros Hs. destruct (is_digit c); [by apply IH |].
  destruct (Ascii.eqb c "_"); [| reflexivity].
  destruct after_digit; [by apply IH | reflexivity].
Qed.

(** [int] reads the digits of its argument, or of what follows a sign. *)
Lemma py_int_digits (s : string) :
  exists (f : N -> Z) (body : string),
    py_int s = option_map f (int_digits 0 false body)
    /\ (body = rstrip (lstrip s)
        \/ rstrip (lstrip s) = String "-" body \/ rstrip (lstrip s) = String "+" body).
Proof.
  unfold py_int. destruct (rstrip (lstrip s)) as [| c r]; [eauto |].
  destruct c as [[|] [|] [|] [|] [|] [|] [|] [|]]; eauto 6.
Qed.

Lemma lstrip_no_space (s : string) : no_space s = true -> lstrip s = s.
Proof.
  destruct s as [| c s]; [reflexivity |]. simpl. rewrite andb_true_iff.
  intros [Hc _]. apply negb_true_iff in Hc. by rewrite Hc.
Qed.

Lemma rstrip_no_space (s : string) : no_space s = true -> rstrip s = s.
Proof.
  induction s as [| c s IH]; simpl; [reflexivity |].
  rewrite andb_true_iff. intros [Hc Hs]. rewrite (IH Hs).
  apply negb_true_iff in Hc. rewrite Hc. by destruct s.
Qed.

Lemma split_ws_aux_no_space (s cur : string) :
  no_space s = true -> cur +:+ s <> "" -> split_ws_aux cur s = [cur +:+ s].
Proof.
  revert cur. induction s as [| c s IH]; intros cur Hs Hne; simpl.
  - rewrite string_app_nil_r in *.
    by destruct (String.eqb_spec cur "").
  - simpl in Hs. apply andb_true_iff in Hs as [Hc Hs].
    apply negb_true_iff in Hc. rewrite Hc.
    rewrite IH; [by rewrite string_app_assoc | exact Hs | by rewrite string_app_assoc].
Qed.

(** X14: a subtitle file whose name holds no whitespace, such as
    [0005.vtt], contributes no id to the index, whatever digits it
    starts with: the extension is part of its first token, which does
    not read as an int, so the name counts as malformed. *)
Theorem unspaced_name_not_indexed (stem : string) :
  no_space stem = true ->
  indexed_id (stem +:+ ".vtt") = None
  /\ malformed (stem +:+ ".vtt") = true
  /\ leading_id (stem +:+ ".vtt") = inl (ValueError None).
Proof.
  intros Hstem.
  assert (Hname : no_space (stem +:+ ".vtt") = true) by (by rewrite no_space_app, Hstem).
  assert (Hsplit : split_ws (stem +:+ ".vtt") = [stem +:+ ".vtt"]).
  { unfold split_ws. rewrite split_ws_aux_no_space; [done | exact Hname |].
    rewrite string_app_nil_l. intros H. apply string_app_eq_nil in H as [_ H]. discriminate. }
  assert (Hint : py_int (stem +:+ ".vtt") = None).
  { destruct (py_int_digits (stem +:+ ".vtt")) as (f & body & -> & Hbody).
    rewrite (lstrip_no_space _ Hname), (rstrip_no_space _ Hname) in Hbody.
    assert (Hdot : contains_char "." (stem +:+ ".vtt") = true).
    { rewrite contains_char_app. apply orb_true_r. }
    rewrite int_digits_dot; [reflexivity |].
    destruct Hbody as [-> | [Hb | Hb]]; [exact Hdot | |];
      rewrite Hb in Hdot; exact Hdot. }
  assert (Hidx : indexed_id (stem +:+ ".vtt") = None).
  { unfold indexed_id. by rewrite endswith_app, Hsplit, Hint. }
  split; [exact Hidx |]. split.
  - unfold malformed. by rewrite endswith_app, Hidx.
  - unfold leading_id. by rewrite Hsplit, Hint.
Qed.

Lemma unspaced_name_not_indexed_witness :
  indexed_id ("0005" +:+ ".vtt") = None
  /\ malformed ("0005" +:+ ".vtt") = true
  /\ leading_id ("0005" +:+ ".vtt") = inl (ValueError None).
Proof. apply unspaced_name_not_indexed. reflexivity. Defined.

(** ** Malformed transcripts *)

Lemma transcode_from_app (w : world) (good : list json) (cues : list Cue) :
  Forall2 (fun v c => decode_cue v = Some c) good cues ->
  forall (rest : list json) (idx : Z) (vtt raw : string),
    transcode_from w idx (good ++ rest) vtt raw =
    transcode_from w (idx + Z.of_nat (length cues)) rest
      (vtt +:+ join (zip_with cue_block (seqZ idx (Z.of_nat (length cues))) cues))
      (raw +:+ plain_text cues).
Proof.
  induction 1 as [| v c vs cs Hc _ IH]; intros rest idx vtt raw.
  - simpl. by rewrite Z.add_0_r, !string_app_nil_r.
  - rewrite <- app_comm_cons, (transcode_from_cons w idx v (vs ++ rest) c vtt raw Hc), IH.
    rewrite (seqZ_cons idx) by (simpl; lia).
    replace (Z.pred (Z.of_nat (length (c :: cs)))) with (Z.of_nat (length cs))
      by (simpl; lia).
    replace (Z.succ idx) with (idx + 1) by lia.
    replace (idx + 1 + Z.of_nat (length cs)) with (idx + Z.of_nat (length (c :: cs)))
      by (simpl; lia).
    simpl zip_with. unfold plain_text. simpl map. rewrite !join_cons.
    by rewrite !string_app_assoc.
Qed.

(** X15: a cue that lacks a field stops the transcoding of its video,
    however many well-formed cues come before it: the loop raises the
    [KeyError] of the first field it misses, [time] before [text] before
    [newParagraph], and a text that is not a string raises [TypeError];
    no output is produced for the cues already handled. *)
Theorem transcode_malformed_cue (w : world) (good rest : list json) (cues : list Cue)
    (fields : list (string * json)) :
  Forall2 (fun v c => decode_cue v = Some c) good cues ->
  let run := transcode w (good ++ JDict fields :: rest) in
  (assoc "time" fields = None -> run = inl (KeyError "time"))
  /\ (forall t a b x y,
        assoc "time" fields = Some t ->
        getitem t "start" = inr a -> seconds_of a = Some x ->
        getitem t "end" = inr b -> seconds_of b = Some y ->
        (assoc "text" fields = None -> run = inl (KeyError "text"))
        /\ (forall s, assoc "text" fields = Some s ->
              (assoc "newParagraph" fields = None -> run = inl (KeyError "newParagraph"))
              /\ (forall flag, assoc "newParagraph" fields = Some flag ->
                    (forall text, s <> JStr text) -> run = inl TypeError))).
Proof.
  intros Hgood run. unfold run, transcode.
  split.
  - intros Htime. rewrite (transcode_from_app w good cues Hgood).
    simpl. by rewrite Htime.
  - intros t a b x y Htime Ha Hx Hb Hy.
    assert (Hstep : forall idx vtt raw,
              transcode_from w idx (JDict fields :: rest) vtt raw =
              text ← getitem (JDict fields) "text";
              flag ← getitem (JDict fields) "newParagraph";
              text' ← getitem (JDict fields) "text";
              raw' ← str_concat (if truthy flag then raw +:+ nl else raw) text';
              transcode_from w (idx + 1) rest
                ((((vtt +:+ str_Z idx +:+ nl) +:+ decimal_to_vtt_time x +:+ " --> "
                   +:+ decimal_to_vtt_time y +:+ nl) +:+ py_str w text +:+ nl +:+ nl))
                raw').
    { intros idx vtt raw. simpl transcode_from. simpl getitem at 1 3. rewrite Htime.
      unfold mbind at 1 2 3 4 5 6, result_bind.
      rewrite Ha, (decimal_to_vtt_time_dyn_seconds a x Hx).
      rewrite Hb, (decimal_to_vtt_time_dyn_seconds b y Hy). reflexivity. }
    rewrite (transcode_from_app w good cues Hgood), Hstep. simpl getitem.
    split.
    + intros Htext. by rewrite Htext.
    + intros s Htext. rewrite Htext. unfold mbind at 1, result_bind at 1. split.
      * intros Hflag. by rewrite Hflag.
      * intros flag Hflag Hs. rewrite Hflag. unfold mbind at 1 2, result_bind.
        destruct s; simpl; try reflexivity. by destruct (Hs s).
Qed.

Lemma transcode_malformed_cue_witness :
  transcode transcript_world (two_cues ++ JDict [("text", JStr "C")] :: [])
  = inl (KeyError "time").
Proof.
  refine (proj1 (transcode_malformed_cue transcript_world two_cues []
    [ {| startTime := 0; endTime := 3 # 2; text := "A"; startsNewParagraph := false |};
      {| startTime := 3 # 2; endTime := 4; text := "B"; startsNewParagraph := true |} ]
    [("text", JStr "C")] _) _).
  - repeat constructor.
  - reflexivity.
Defined.

(** ** The report of the index *)

Lemma size_list_to_set_le (l : list Z) :
  (size (list_to_set l : gset Z) <= length l)%nat.
Proof.
  induction l as [| x l IH].
  - change (list_to_set [] : gset Z) with (∅ : gset Z). rewrite size_empty. simpl. lia.
  - change (list_to_set (x :: l) : gset Z) with ({[x]} ∪ list_to_set l : gset Z).
    rewrite size_union_alt, size_singleton. simpl length.
    assert (size (list_to_set l ∖ {[x]} : gset Z) <= size (list_to_set l : gset Z))%nat
      by (apply subseteq_size; set_solver).
    lia.
Qed.

Lemma subtitle_files_split (filenames : list string) :
  (length (omap indexed_id filenames) + length (List.filter malformed filenames))%nat
  = length (List.filter (fun f => endswith f ".vtt") filenames).
Proof.
  induction filenames as [| f l IH]; [reflexivity |].
  change (omap indexed_id (f :: l))
    with (match indexed_id f with
          | Some n => n :: omap indexed_id l
          | None => omap indexed_id l
          end).
  cbn [List.filter]. unfold malformed at 1.
  destruct (indexed_id f) as [n |] eqn:Hi.
  - assert (Hext : endswith f ".vtt" = true)
      by (unfold indexed_id in Hi; destruct (endswith f ".vtt"); [reflexivity | discriminate]).
    rewrite Hext, bool_decide_eq_true_2 by eauto. simpl. lia.
  - rewrite bool_decide_eq_false_2 by (intros [? ?]; discriminate).
    destruct (endswith f ".vtt"); simpl; lia.
Qed.

(** X16: what [get_existing_ids] prints.  One notice per malformed
    subtitle file, in the order of the listing, and then, only when some
    id was found, a single summary line whose count is the number of
    distinct ids: files that share an id count once, so the count and
    the number of notices together never exceed the number of subtitle
    files.  Files with another extension are neither counted nor
    reported, and without an output directory nothing is printed. *)
Theorem get_existing_ids_report (w : world) (c : cursor) :
  events_of (get_existing_ids w) c
  = map skipped_line (List.filter malformed (directory w))
    ++ (if bool_decide (existing_ids w = ∅) then []
        else [EvPrint ("Found " +:+ str_Z (Z.of_nat (size (existing_ids w)))
                         +:+ " already existing videos. Will skip them.")])
  /\ (size (existing_ids w) + length (List.filter malformed (directory w))
      <= length (List.filter (fun f => endswith f ".vtt") (directory w)))%nat
  /\ (listing w = None ->
      events_of (get_existing_ids w) c = [] /\ existing_ids w = ∅).
Proof.
  assert (Hev : events_of (get_existing_ids w) c
                = map skipped_line (List.filter malformed (directory w))
                  ++ (if bool_decide (existing_ids w = ∅) then []
                      else [EvPrint ("Found " +:+ str_Z (Z.of_nat (size (existing_ids w)))
                                       +:+ " already existing videos. Will skip them.")])).
  { unfold events_of, get_existing_ids, directory, existing_ids, directory.
    rewrite bind_run.
    destruct (listing w) as [filenames |].
    - rewrite scan_filenames_spec.
      replace (∅ ∪ list_to_set (omap indexed_id filenames))
        with (list_to_set (omap indexed_id filenames) : gset Z) by set_solver.
      rewrite bind_run.
      destruct (decide ((list_to_set (omap indexed_id filenames) : gset Z) = ∅)) as [He | Hne].
      + rewrite bool_decide_eq_true_2 by exact He.
        rewrite He, size_empty. reflexivity.
      + rewrite bool_decide_eq_false_2 by exact Hne.
        assert (size (list_to_set (omap indexed_id filenames) : gset Z) <> 0%nat) as Hs
          by (intros H0; apply Hne, leibniz_equiv, size_empty_iff, H0).
        destruct (size (list_to_set (omap indexed_id filenames) : gset Z)) as [| k] eqn:Hk;
          [done |].
        reflexivity.
    - unfold mret at 1, M_ret. rewrite bind_run. simpl.
      rewrite bool_decide_eq_true_2 by reflexivity. reflexivity. }
  split; [exact Hev |]. split.
  - unfold existing_ids.
    pose proof (size_list_to_set_le (omap indexed_id (directory w))).
    pose proof (subtitle_files_split (directory w)). lia.
  - intros Hnone. rewrite Hev. unfold existing_ids, directory. rewrite Hnone. simpl.
    by rewrite bool_decide_eq_true_2.
Qed.

(** ** Runs that end with an exception *)

Lemma process_videos_returns (w : world) (videos : list Video) (c : cursor) :
  outcome_of (process_videos w videos) c = inr tt.
Proof.
  revert c. induction videos as [| video rest IH]; intros c; [reflexivity |].
  unfold outcome_of in *. rewrite process_videos_cons.
  destruct (process_video w video c) as [[evs c1] r].
  specialize (IH c1). by destruct (process_videos w rest c1) as [[evs' c2] r'].
Qed.

(** X17: a run that ends with an exception has written nothing and has
    asked the network for nothing but the catalog (one to five requests
    of the catalog address).  Exceptions come from the catalog fetch,
    from the resolution of the ids and from the collection of the
    videos, all of which precede the first transcript; once the videos
    are collected the run cannot raise any more. *)
Theorem crash_precedes_downloads (w : world) (expr : string) (c : cursor) (e : exn) :
  outcome_of (main w expr) c = inl e ->
  writes (events_of (main w expr) c) = []
  /\ exists k, (1 <= k <= 5)%nat
               /\ requests (events_of (main w expr) c) = replicate k catalog_url.
Proof.
  unfold outcome_of, events_of.
  destruct (fetch_with_backoff_requests w catalog_url 1 c)
    as (k & rest & Hk & _ & Hreq & Hwr & _).
  unfold events_of in Hreq, Hwr.
  destruct (validate_and_parse_input expr) as [e0 | ids] eqn:Hparse.
  - destruct (validate_and_parse_input_error expr e0 Hparse) as [msg ->].
    rewrite (main_invalid w expr msg c Hparse).
    destruct (fetch_with_backoff w catalog_url 5 1 c) as [[evs1 c1] r1]. simpl in *.
    intros _. split.
    + change (writes (EvPrint ("Error: " +:+ msg) :: EvSessionOpen :: evs1 ++ [EvSessionClose]))
        with (writes (evs1 ++ [EvSessionClose])).
      by rewrite writes_app, Hwr.
    + exists k. split; [exact Hk |].
      change (requests (EvPrint ("Error: " +:+ msg) :: EvSessionOpen :: evs1 ++ [EvSessionClose]))
        with (requests (evs1 ++ [EvSessionClose])).
      by rewrite requests_app, Hreq, app_nil_r.
  - rewrite (main_valid w expr ids c Hparse).
    destruct (fetch_with_backoff w catalog_url 5 1 c) as [[evs1 c1] [e1 | content]];
      simpl in Hreq, Hwr.
    { simpl. intros _. split.
      - change (writes (EvSessionOpen :: evs1 ++ [EvSessionClose]))
          with (writes (evs1 ++ [EvSessionClose])).
        by rewrite writes_app, Hwr.
      - exists k. split; [exact Hk |].
        change (requests (EvSessionOpen :: evs1 ++ [EvSessionClose]))
          with (requests (evs1 ++ [EvSessionClose])).
        by rewrite requests_app, Hreq, app_nil_r. }
    pose proof (resolve_ids_console w ids content c1) as [Hres _].
    unfold events_of in Hres.
    destruct (resolve_ids w ids content c1) as [[evsr cr] [e1 | ids1]]; simpl in Hres;
      destruct (console_events_quiet evsr Hres) as (Hrr & Hrw & _).
    { simpl. intros _. split.
      - change (writes (EvSessionOpen :: evs1 ++ evsr ++ [EvSessionClose]))
          with (writes (evs1 ++ evsr ++ [EvSessionClose])).
        by rewrite !writes_app, Hwr, Hrw.
      - exists k. split; [exact Hk |].
        change (requests (EvSessionOpen :: evs1 ++ evsr ++ [EvSessionClose]))
          with (requests (evs1 ++ evsr ++ [EvSessionClose])).
        by rewrite !requests_app, Hreq, Hrr, app_nil_r. }
    destruct (console_events_quiet _ (get_existing_ids_console w cr)) as (Her & Hew & _).
    cbv zeta.
    destruct (filter_catalog w content (remove_existing ids1 (existing_ids w))) as [e1 | videos].
    { simpl. intros _. split.
      - change (writes (EvSessionOpen :: evs1 ++ evsr
                          ++ events_of (get_existing_ids w) cr ++ [EvSessionClose]))
          with (writes (evs1 ++ evsr ++ events_of (get_existing_ids w) cr
                          ++ [EvSessionClose])).
        by rewrite !writes_app, Hwr, Hrw, Hew.
      - exists k. split; [exact Hk |].
        change (requests (EvSessionOpen :: evs1 ++ evsr
                            ++ events_of (get_existing_ids w) cr ++ [EvSessionClose]))
          with (requests (evs1 ++ evsr ++ events_of (get_existing_ids w) cr
                            ++ [EvSessionClose])).
        by rewrite !requests_app, Hreq, Hrr, Her, app_nil_r. }
    pose proof (process_videos_returns w videos cr) as Hret. unfold outcome_of in Hret.
    destruct (process_videos w videos cr) as [[evs3 c3] r]. simpl in *.
    by rewrite Hret.
Qed.

Lemma crash_precedes_downloads_witness :
  writes (events_of (main failing_world "2,4-6") start) = []
  /\ exists k, (1 <= k <= 5)%nat
               /\ requests (events_of (main failing_world "2,4-6") start)
                  = replicate k catalog_url.
Proof.
  eapply (crash_precedes_downloads failing_world "2,4-6" start).
  vm_compute. reflexivity.
Defined.

(** ** Disk failures in the loop *)

Lemma process_video_on_requests (d : disk) (w : world) (video : Video) (c : cursor) :
  exists (k : nat) (evs : list event) (c' : cursor) (r : result unit),
    process_video_on d w video c = (evs, c', r)
    /\ (1 <= k <= 5)%nat
    /\ requests evs = replicate k (transcript_url video).
Proof.
  destruct (fetch_with_backoff_requests w (transcript_url video) 1 c)
    as (k & rest & Hk & _ & Hreq & _).
  unfold events_of in Hreq. rewrite (process_video_on_run d w video c).
  destruct (fetch_with_backoff w (transcript_url video) 5 1 c) as [[evs c1] [e | body]];
    cbn [fst snd] in Hreq.
  { exists k, evs, c1, (inl e). by repeat split; try lia. }
  destruct (getitem body "data" ≫= _) as [e | [vtt raw]].
  { exists k, evs, c1, (inl e). by repeat split; try lia. }
  cbn [fst snd].
  destruct (done_steps_prefix d (disk_steps w video vtt raw)) as [Hpre _].
  fold (disk_events w video vtt raw) in Hpre.
  destruct (disk_events_quiet w video vtt raw _ Hpre) as [Hquiet _].
  eexists k, _, c1, _. split; [reflexivity |]. split; [lia |].
  by rewrite requests_app, Hreq, Hquiet, app_nil_r.
Qed.

Lemma process_videos_on_cons (disks : nat -> disk) (w : world) (video : Video)
    (rest : list Video) (c : cursor) :
  process_videos_on disks w (video :: rest) c =
  match process_video_on (disks O) w video c with
  | (evs, c1, r) =>
      match process_videos_on (fun i => disks (S i)) w rest c1 with
      | (evs', c2, r') => (evs ++ [report_line video r; EvSleep (1 # 5)] ++ evs', c2, r')
      end
  end.
Proof.
  simpl process_videos_on. unfold try_except, print_exn, print, emit, report_line.
  unfold mbind, M_bind.
  change (sleep (1 # 5))
    with (fun c0 : cursor => ([EvSleep (1 # 5)], c0, inr tt : result unit)).
  destruct (process_video_on (disks O) w video c) as [[evs c1] [e | []]]; simpl.
  - destruct (exn_text e);
      destruct (process_videos_on (fun i => disks (S i)) w rest c1) as [[evs' c2] r'];
      simpl; by rewrite <- ?app_assoc.
  - destruct (process_videos_on (fun i => disks (S i)) w rest c1) as [[evs' c2] r'].
    simpl. by rewrite <- ?app_assoc.
Qed.

(** X18: the loop over the videos isolates the failures of the disk as
    it isolates those of the network.  Whatever the disk does at each
    video, the loop does not raise, and every video, in order, gets its
    one to five requests, also after the files of an earlier video could
    not be written; on disks that do not fail it is the loop of
    [main]. *)
Theorem disk_failures_are_isolated (disks : nat -> disk) (w : world)
    (videos : list Video) (c : cursor) :
  outcome_of (process_videos_on disks w videos) c = inr tt
  /\ (exists ks,
        length ks = length videos
        /\ Forall (fun k => (1 <= k <= 5)%nat) ks
        /\ requests (events_of (process_videos_on disks w videos) c)
           = concat (zip_with replicate ks (map transcript_url videos)))
  /\ process_videos_on (fun _ => sound_disk) w videos c = process_videos w videos c.
Proof.
  split; [| split].
  - revert disks c. induction videos as [| video rest IH]; intros disks c; [reflexivity |].
    unfold outcome_of in *. rewrite process_videos_on_cons.
    destruct (process_video_on (disks O) w video c) as [[evs c1] r].
    specialize (IH (fun i => disks (S i)) c1).
    by destruct (process_videos_on (fun i => disks (S i)) w rest c1) as [[evs' c2] r'].
  - revert disks c. induction videos as [| video rest IH]; intros disks c.
    { exists []. by repeat split. }
    unfold events_of in *. rewrite process_videos_on_cons.
    destruct (process_video_on_requests (disks O) w video c)
      as (k & evs & c' & r & -> & Hk & Hreq).
    destruct (IH (fun i => disks (S i)) c') as (ks & Hlen & Hks & Hreqs).
    destruct (process_videos_on (fun i => disks (S i)) w rest c') as [[evs' c2] r'].
    cbn [fst snd] in *.
    exists (k :: ks). split; [simpl; by rewrite Hlen |].
    split; [by constructor |].
    rewrite requests_app, Hreq.
    assert (Hmid : requests ([report_line video r; EvSleep (1 # 5)] ++ evs') = requests evs').
    { unfold report_line. destruct r as [e | ?]; [destruct (exn_text e) |]; reflexivity. }
    by rewrite Hmid, Hreqs.
  - revert c. induction videos as [| video rest IH]; intros c; [reflexivity |].
    rewrite process_videos_on_cons, process_videos_cons.
    change (process_video_on sound_disk w video c) with (process_video w video c).
    destruct (process_video w video c) as [[evs c1] r]. by rewrite IH.
Qed.

(** Two videos on a disk that is full for the first one and has room for
    the second: the first is reported as failed, the second is written. *)
Example process_videos_on_recovering_disk :
  writes (events_of
            (process_videos_on (fun i => if Nat.eqb i 0 then full_disk else sound_disk)
               transcript_world
               [sample_video; {| video_id := 2; title := "JP | B"; transcript_id := 20 |}])
            start)
  = [("transcripts/0001 JP | A.vtt",
      subtitle_text [ {| startTime := 0; endTime := 3 # 2; text := "A";
                         startsNewParagraph := false |};
                      {| startTime := 3 # 2; endTime := 4; text := "B";
                         startsNewParagraph := true |} ]);
     ("transcripts/0002 JP | B.vtt",
      subtitle_text [ {| startTime := 0; endTime := 3 # 2; text := "A";
                         startsNewParagraph := false |};
                      {| startTime := 3 # 2; endTime := 4; text := "B";
                         startsNewParagraph := true |} ]);
     ("transcripts/0002 JP | B.txt", "A" +:+ nl +:+ "B")].
Proof. vm_compute. reflexivity. Qed.
